(** * react-preview-iframe: the validation-and-preview pipeline of
      [src/app/page.tsx]

    The development embeds, as executable Rocq definitions,

    - the message values the listener receives and the Zod (v3) parsing
      rules the page's schemas rely on ([file], [project], [flat], [span],
      [schema]);
    - [getErrorSummary], the [listener] with its state, the rejection log
      and the connection counters;
    - a backtracking regular-expression engine with JavaScript's matching
      priorities, the twelve rewrites of [stripTS] on top of it;
    - [buildPreview] with its two nested [try]/[catch] boundaries and the
      generated document, and [findRootComponent], the discovery routine
      the generated document runs;
    - the smart file selection, [getLanguage], and the file explorer's
      [toggleFolder] and [buildFileTree]: on the files of a project as
      values, and on the objects the page holds, which the explorer
      writes into;
    - the page as a whole: its renders, its two effects and the events
      that reach it.

    Text is a sequence of 8-bit code units ([string]); numbers carried by a
    message are kept as their JavaScript rendering, since the page only ever
    asks for their [typeof] and their string form. *)

From Stdlib Require Import List String Ascii Bool Arith PeanoNat NArith Lia.
From Stdlib Require Import DecimalString.
Import ListNotations.
Open Scope list_scope.
Open Scope string_scope.

Set Implicit Arguments.
Set Warnings "-register-all".

(* ------------------------------------------------------------------ *)
(** ** Text helpers *)
(* ------------------------------------------------------------------ *)

(** The double-quote character, as a one-character string. *)
Definition dq : string := String (ascii_of_nat 34) EmptyString.

(** A line feed, as a one-character string. *)
Definition nl : string := String (ascii_of_nat 10) EmptyString.

(** Decimal rendering of a natural number ([String(n)] in JavaScript). *)
Definition string_of_nat (n : nat) : string :=
  NilEmpty.string_of_uint (Nat.to_uint n).

(** Decimal rendering of a binary natural number, for time stamps. *)
Definition string_of_N (n : N) : string :=
  NilEmpty.string_of_uint (N.to_uint n).

(** [Array.prototype.join] on an array of strings. *)
Fixpoint join (sep : string) (xs : list string) : string :=
  match xs with
  | [] => EmptyString
  | [x] => x
  | x :: rest => x ++ sep ++ join sep rest
  end.

(** [String.prototype.includes]. *)
Fixpoint includes (needle hay : string) : bool :=
  if prefix needle hay then true
  else match hay with
       | EmptyString => false
       | String _ rest => includes needle rest
       end.

(** [String.prototype.endsWith]. *)
Definition endsWith (suffix s : string) : bool :=
  let n := String.length suffix in
  let m := String.length s in
  Nat.leb n m && String.eqb (substring (m - n) n s) suffix.

(* ------------------------------------------------------------------ *)
(** ** How a computation ends *)
(* ------------------------------------------------------------------ *)

(** How a JavaScript computation ends: with a value, or with a thrown
    error carried as its description (what [`${err}`] prints). *)
Inductive completion (A : Type) : Type :=
| Normal (a : A)
| Throw (err : string).

Arguments Normal {A} a.
Arguments Throw {A} err.

Definition andThen {A B : Type} (c : completion A) (k : A -> completion B)
  : completion B :=
  match c with
  | Normal a => k a
  | Throw err => Throw err
  end.

(* ------------------------------------------------------------------ *)
(** ** JavaScript values carried by a message *)
(* ------------------------------------------------------------------ *)

(** What [e.data] can hold: the JSON-like values the structured clone of a
    posted message carries, and [undefined].  An object is its list of own
    properties in insertion order; lookup takes the first binding of a key. *)
Inductive value : Type :=
| VUndefined
| VNull
| VBool (b : bool)
| VNumber (repr : string)
| VString (s : string)
| VArray (items : list value)
| VObject (props : list (string * value)).

Fixpoint assoc (k : string) (props : list (string * value)) : option value :=
  match props with
  | [] => None
  | (k', v) :: rest => if String.eqb k k' then Some v else assoc k rest
  end.

(** [o[k]] on a value that is an object; a missing key reads [undefined]. *)
Definition getProp (o : value) (k : string) : value :=
  match o with
  | VObject props => match assoc k props with Some v => v | None => VUndefined end
  | _ => VUndefined
  end.

(** [k in o] on an object. *)
Definition hasProp (k : string) (o : value) : bool :=
  match o with
  | VObject props => match assoc k props with Some _ => true | None => false end
  | _ => false
  end.

(** The text of a value that is no object, as string conversion and the
    engine's error descriptions give it. *)
Definition primitiveText (v : value) : string :=
  match v with
  | VUndefined => "undefined"
  | VNull => "null"
  | VBool true => "true"
  | VBool false => "false"
  | VNumber repr => repr
  | VString s => s
  | VArray _ => EmptyString
  | VObject _ => EmptyString
  end.

(** String conversion of a value, as a template literal performs it.
    An object is converted through its [toString], then its [valueOf]:
    the values of a message are data, never callable, so an own
    [toString] property hides [Object.prototype.toString], the inherited
    [valueOf] gives back the object, and the conversion throws.  An array
    is converted by [Array.prototype.join], which converts its elements
    from left to right and takes [undefined] and [null] as empty. *)
Fixpoint toString (v : value) : completion string :=
  match v with
  | VArray items =>
      andThen
        ((fix each (xs : list value) : completion (list string) :=
            match xs with
            | [] => Normal []
            | x :: rest =>
                andThen
                  (match x with
                   | VUndefined => Normal EmptyString
                   | VNull => Normal EmptyString
                   | _ => toString x
                   end)
                  (fun s => andThen (each rest) (fun ss => Normal (s :: ss)))
            end) items)
        (fun parts => Normal (join "," parts))
  | VObject props =>
      match assoc "toString" props with
      | Some _ => Throw "TypeError: Cannot convert object to primitive value"
      | None => Normal "[object Object]"
      end
  | _ => Normal (primitiveText v)
  end.

(* ------------------------------------------------------------------ *)
(** ** Zod: parsed types, issues, schemas and parsing *)
(* ------------------------------------------------------------------ *)

Module Zod.

(** The parsed types [getParsedType] can report for a [value]. *)
Inductive ZodParsedType : Type :=
| PString | PNan | PNumber | PBoolean | PUndefined | PNull | PArray | PObject.

Definition parsedTypeName (t : ZodParsedType) : string :=
  match t with
  | PString => "string"
  | PNan => "nan"
  | PNumber => "number"
  | PBoolean => "boolean"
  | PUndefined => "undefined"
  | PNull => "null"
  | PArray => "array"
  | PObject => "object"
  end.

Definition getParsedType (v : value) : ZodParsedType :=
  match v with
  | VUndefined => PUndefined
  | VNull => PNull
  | VBool _ => PBoolean
  | VNumber repr => if String.eqb repr "NaN" then PNan else PNumber
  | VString _ => PString
  | VArray _ => PArray
  | VObject _ => PObject
  end.

(** A path element is an object key or an array index. *)
Definition Path : Type := list (string + nat).

(** The issues of [z.ZodIssue] that the page distinguishes, and one
    constructor for every other issue code of that type.  The [minimum]
    of a [too_small] issue is a number or a bigint: it is kept as its
    JavaScript rendering, as [VNumber] keeps the numbers of a message. *)
Inductive ZodIssue : Type :=
| invalid_type (expected received : ZodParsedType) (path : Path) (message : string)
| invalid_literal (expected received : value) (path : Path) (message : string)
| too_small (minimum : string) (type : string) (inclusive exact : bool)
            (path : Path) (message : string)
| invalid_union (unionErrors : list (list ZodIssue)) (path : Path) (message : string)
| other_issue (code : string) (path : Path) (message : string).

Definition issueCode (i : ZodIssue) : string :=
  match i with
  | invalid_type _ _ _ _ => "invalid_type"
  | invalid_literal _ _ _ _ => "invalid_literal"
  | too_small _ _ _ _ _ _ => "too_small"
  | invalid_union _ _ _ => "invalid_union"
  | other_issue code _ _ => code
  end.

Definition issueMessage (i : ZodIssue) : string :=
  match i with
  | invalid_type _ _ _ m => m
  | invalid_literal _ _ _ m => m
  | too_small _ _ _ _ _ m => m
  | invalid_union _ _ m => m
  | other_issue _ _ m => m
  end.

Definition issuePath (i : ZodIssue) : Path :=
  match i with
  | invalid_type _ _ p _ => p
  | invalid_literal _ _ p _ => p
  | too_small _ _ _ _ p _ => p
  | invalid_union _ p _ => p
  | other_issue _ p _ => p
  end.

(** *** The default error map (English) for the issues raised here *)

Definition hexDigit (n : nat) : string :=
  String (ascii_of_nat (if Nat.ltb n 10 then 48 + n else 87 + n)) EmptyString.

(** The backslash, as a one-character string. *)
Definition backslash : string := String (ascii_of_nat 92) EmptyString.

(** [JSON.stringify] of a string. *)
Fixpoint jsonEscape (s : string) : string :=
  match s with
  | EmptyString => EmptyString
  | String c rest =>
      let n := nat_of_ascii c in
      (if Nat.eqb n 34 then backslash ++ dq
       else if Nat.eqb n 92 then backslash ++ backslash
       else if Nat.eqb n 8 then backslash ++ "b"
       else if Nat.eqb n 9 then backslash ++ "t"
       else if Nat.eqb n 10 then backslash ++ "n"
       else if Nat.eqb n 12 then backslash ++ "f"
       else if Nat.eqb n 13 then backslash ++ "r"
       else if Nat.ltb n 32
            then backslash ++ "u00" ++ hexDigit (n / 16) ++ hexDigit (n mod 16)
       else String c EmptyString) ++ jsonEscape rest
  end.

Definition jsonString (s : string) : string := dq ++ jsonEscape s ++ dq.

Definition msgInvalidType (expected received : ZodParsedType) : string :=
  match received with
  | PUndefined => "Required"
  | _ => "Expected " ++ parsedTypeName expected ++ ", received "
           ++ parsedTypeName received
  end.

Definition msgInvalidLiteral (expected : string) : string :=
  "Invalid literal value, expected " ++ jsonString expected.

Definition msgTooSmall (type : string) (minimum : nat) : string :=
  if String.eqb type "array"
  then "Array must contain at least " ++ string_of_nat minimum ++ " element(s)"
  else "String must contain at least " ++ string_of_nat minimum ++ " character(s)".

Definition msgInvalidUnion : string := "Invalid input".

(** *** Schemas *)

(** A [.min(n, message)] check; the message is optional. *)
Definition MinCheck : Type := (nat * option string)%type.

(** The schema constructors the page uses. *)
Inductive ZodType : Type :=
| ZString (min : option MinCheck)
| ZLiteral (lit : string)
| ZArray (element : ZodType) (minLength : option MinCheck)
| ZObject (shape : list (string * ZodType))
| ZOptional (inner : ZodType)
| ZUnion (options : list ZodType).

(** *** Parsing *)

Inductive ParseStatus : Type := valid | dirty | aborted.

(** What [_parse] returns: [INVALID] is [{ status: "aborted" }]. *)
Inductive ParseReturn : Type :=
| INVALID
| DIRTY (v : value)
| OK (v : value).

Definition statusOf (r : ParseReturn) : ParseStatus :=
  match r with
  | INVALID => aborted
  | DIRTY _ => dirty
  | OK _ => valid
  end.

Definition withStatus (s : ParseStatus) (v : value) : ParseReturn :=
  match s with
  | valid => OK v
  | dirty => DIRTY v
  | aborted => INVALID
  end.

(** [status.dirty()]: a valid status becomes dirty, others are kept. *)
Definition markDirty (s : ParseStatus) : ParseStatus :=
  match s with
  | valid => dirty
  | other => other
  end.

(** The rendering of the bound of a [.min] check: a length, in decimal
    digits. *)
Definition renderBound (n : nat) : string := string_of_nat n.

(** The issue a failed [.min] check adds. *)
Definition minIssue (type : string) (c : MinCheck) (path : Path) : ZodIssue :=
  too_small (renderBound (fst c)) type true false path
    (match snd c with
     | Some m => m
     | None => msgTooSmall type (fst c)
     end).

Definition checkMin (type : string) (len : nat) (c : option MinCheck) (path : Path)
  : list ZodIssue * ParseStatus :=
  match c with
  | Some chk => if Nat.ltb len (fst chk) then ([minIssue type chk path], dirty)
                else ([], valid)
  | None => ([], valid)
  end.

(** [ParseStatus.mergeArray]. *)
Fixpoint mergeArray (status : ParseStatus) (acc : list value)
         (results : list ParseReturn) : ParseReturn :=
  match results with
  | [] => withStatus status (VArray (rev acc))
  | INVALID :: _ => INVALID
  | DIRTY v :: rest => mergeArray (markDirty status) (v :: acc) rest
  | OK v :: rest => mergeArray status (v :: acc) rest
  end.

(** One entry of the pairs [ZodObject._parse] hands to [mergeObjectSync]:
    the key, the parsed value and [alwaysSet] ([key in ctx.data]). *)
Definition ObjectPair : Type := (string * ParseReturn * bool)%type.

Definition isUndefined (v : value) : bool :=
  match v with VUndefined => true | _ => false end.

(** [ParseStatus.mergeObjectSync]. *)
Fixpoint mergeObjectSync (status : ParseStatus) (acc : list (string * value))
         (pairs : list ObjectPair) : ParseReturn :=
  match pairs with
  | [] => withStatus status (VObject (rev acc))
  | (_, INVALID, _) :: _ => INVALID
  | (key, DIRTY v, alwaysSet) :: rest =>
      mergeObjectSync (markDirty status)
        (if negb (String.eqb key "__proto__") && (negb (isUndefined v) || alwaysSet)
         then (key, v) :: acc else acc) rest
  | (key, OK v, alwaysSet) :: rest =>
      mergeObjectSync status
        (if negb (String.eqb key "__proto__") && (negb (isUndefined v) || alwaysSet)
         then (key, v) :: acc else acc) rest
  end.

(** The loop of [ZodUnion._parse] over the options' results, each with the
    issues of its own child context: the first valid result is returned
    and its issues dropped; otherwise the first dirty result is returned
    with its issues; otherwise one [invalid_union] issue carries the issue
    lists of every option. *)
Fixpoint unionLoop (path : Path)
         (firstDirty : option (list ZodIssue * ParseReturn))
         (issues : list (list ZodIssue))
         (results : list (list ZodIssue * ParseReturn))
  : list ZodIssue * ParseReturn :=
  match results with
  | [] =>
      match firstDirty with
      | Some d => d
      | None => ([invalid_union (rev issues) path msgInvalidUnion], INVALID)
      end
  | (iss, OK v) :: _ => ([], OK v)
  | (iss, r) :: rest =>
      unionLoop path
        (match firstDirty, r with
         | None, DIRTY _ => Some (iss, r)
         | _, _ => firstDirty
         end)
        (match iss with [] => issues | _ => iss :: issues end)
        rest
  end.

(** [_parse]: the issues added to the context, in order, and the result. *)
Fixpoint parse (t : ZodType) (path : Path) (input : value) {struct t}
  : list ZodIssue * ParseReturn :=
  match t with
  | ZString min =>
      match input with
      | VString s =>
          let '(iss, st) := checkMin "string" (String.length s) min path in
          (iss, withStatus st input)
      | _ => ([invalid_type PString (getParsedType input) path
                 (msgInvalidType PString (getParsedType input))], INVALID)
      end
  | ZLiteral lit =>
      match input with
      | VString s =>
          if String.eqb s lit then ([], OK input)
          else ([invalid_literal (VString lit) input path (msgInvalidLiteral lit)],
                INVALID)
      | _ => ([invalid_literal (VString lit) input path (msgInvalidLiteral lit)],
              INVALID)
      end
  | ZArray element minLength =>
      match input with
      | VArray items =>
          let '(iss, st) := checkMin "array" (List.length items) minLength path in
          let results :=
            (fix each (i : nat) (xs : list value) : list (list ZodIssue * ParseReturn) :=
               match xs with
               | [] => []
               | x :: rest => parse element (path ++ [inr i])%list x :: each (S i) rest
               end) 0 items in
          ((iss ++ List.concat (map fst results))%list, mergeArray st [] (map snd results))
      | _ => ([invalid_type PArray (getParsedType input) path
                 (msgInvalidType PArray (getParsedType input))], INVALID)
      end
  | ZObject shape =>
      match input with
      | VObject _ =>
          let results :=
            (fix each (sh : list (string * ZodType))
               : list (list ZodIssue * ObjectPair) :=
               match sh with
               | [] => []
               | (key, keyValidator) :: rest =>
                   let '(iss, r) :=
                     parse keyValidator (path ++ [inl key])%list (getProp input key) in
                   (iss, (key, r, hasProp key input)) :: each rest
               end) shape in
          (List.concat (map fst results), mergeObjectSync valid [] (map snd results))
      | _ => ([invalid_type PObject (getParsedType input) path
                 (msgInvalidType PObject (getParsedType input))], INVALID)
      end
  | ZOptional inner =>
      match input with
      | VUndefined => ([], OK VUndefined)
      | _ => parse inner path input
      end
  | ZUnion options =>
      unionLoop path None []
        ((fix each (os : list ZodType) : list (list ZodIssue * ParseReturn) :=
            match os with
            | [] => []
            | option :: rest => parse option path input :: each rest
            end) options)
  end.

(** The outcome of [safeParse]; [Throws] is the internal error Zod raises
    when a result is not valid and no issue was recorded. *)
Inductive SafeParseReturn : Type :=
| Success (data : value)
| Failure (issues : list ZodIssue)
| Throws.

Definition safeParse (t : ZodType) (input : value) : SafeParseReturn :=
  match parse t [] input with
  | (_, OK v) => Success v
  | ([], _) => Throws
  | (issues, _) => Failure issues
  end.

End Zod.

Import Zod.

(* ------------------------------------------------------------------ *)
(** ** 1. Zod schemas *)
(* ------------------------------------------------------------------ *)

Definition file : ZodType :=
  ZObject
    [ ("path", ZString (Some (1, Some "File path cannot be empty")));
      ("content", ZString None);
      ("type", ZString (Some (1, Some "File type cannot be empty"))) ].

Definition project : ZodType :=
  ZObject
    [ ("files", ZArray file (Some (1, Some "At least one file is required")));
      ("description", ZOptional (ZString None));
      ("instructions", ZOptional (ZString None)) ].

Definition flat : ZodType :=
  ZObject [ ("type", ZLiteral "data"); ("data", project) ].

Definition span : ZodType :=
  ZObject
    [ ("type", ZLiteral "data");
      ("data", ZObject [ ("output", ZObject [ ("data", project) ]) ]) ].

Definition schema : ZodType := ZUnion [ flat; span ].

(* ------------------------------------------------------------------ *)
(** ** 2. Types *)
(* ------------------------------------------------------------------ *)

(** One element of [Project["files"]]. *)
Record ProjectFile : Type := mkFile {
  path : string;
  content : string;
  type : string
}.

(** [z.infer<typeof project>]. *)
Record Project : Type := mkProject {
  files : list ProjectFile;
  description : option string;
  instructions : option string
}.

Record Rejected : Type := mkRejected {
  id : string;
  time : string;
  origin : string;
  msg : value;
  issues : list ZodIssue;
  summary : string
}.

(** The counters are JavaScript numbers that only ever grow by one; they
    are natural numbers here. *)
Record ConnectionStatus : Type := mkStatus {
  listening : bool;
  messagesReceived : nat;
  lastMessageTime : option string;
  validMessages : nat;
  rejectedMessages : nat
}.

(** The run-time view of a validated value at its static type: the value
    the schema lets through, read as a [Project]. *)
Definition asString (v : value) : option string :=
  match v with VString s => Some s | _ => None end.

Definition asOptionalString (v : value) : option (option string) :=
  match v with
  | VUndefined => Some None
  | VString s => Some (Some s)
  | _ => None
  end.

Definition asFile (v : value) : option ProjectFile :=
  match v with
  | VObject _ =>
      match asString (getProp v "path"), asString (getProp v "content"),
            asString (getProp v "type") with
      | Some p, Some c, Some t => Some (mkFile p c t)
      | _, _, _ => None
      end
  | _ => None
  end.

Fixpoint asFiles (vs : list value) : option (list ProjectFile) :=
  match vs with
  | [] => Some []
  | v :: rest =>
      match asFile v, asFiles rest with
      | Some f, Some fs => Some (f :: fs)
      | _, _ => None
      end
  end.

Definition asProject (v : value) : option Project :=
  match v with
  | VObject _ =>
      match getProp v "files" with
      | VArray items =>
          match asFiles items, asOptionalString (getProp v "description"),
                asOptionalString (getProp v "instructions") with
          | Some fs, Some d, Some i => Some (mkProject fs d i)
          | _, _, _ => None
          end
      | _ => None
      end
  | _ => None
  end.

(** The message value that carries a [Project]. *)
Definition fileValue (f : ProjectFile) : value :=
  VObject [ ("path", VString (path f)); ("content", VString (content f));
            ("type", VString (type f)) ].

Definition optionalProp (k : string) (o : option string) : list (string * value) :=
  match o with
  | Some s => [ (k, VString s) ]
  | None => []
  end.

Definition projectValue (p : Project) : value :=
  VObject
    ((("files", VArray (map fileValue (files p)))
        :: optionalProp "description" (description p))
       ++ optionalProp "instructions" (instructions p))%list.

(** The two envelopes of the inbound channel around a payload. *)
Definition flatEnvelope (payload : value) : value :=
  VObject [ ("type", VString "data"); ("data", payload) ].

Definition wrappedEnvelope (payload : value) : value :=
  VObject
    [ ("type", VString "data");
      ("data", VObject [ ("output", VObject [ ("data", payload) ]) ]) ].

(* ------------------------------------------------------------------ *)
(** ** 3. Helpers: [getErrorSummary] *)
(* ------------------------------------------------------------------ *)

(** [other_issue] stands for the issue codes the [switch] has no case for;
    its [default] arm reads only the message.  The template literal of
    the [invalid_literal] arm converts [expected], then [received], to
    strings, and either conversion can throw. *)
Definition getErrorSummary (issues : list ZodIssue) : completion string :=
  match issues with
  | [] => Normal "Unknown validation error"
  | mainIssue :: _ =>
      match mainIssue with
      | invalid_type expected received _ _ =>
          Normal ("Expected " ++ parsedTypeName expected ++ ", got "
                    ++ parsedTypeName received)
      | invalid_literal expected received _ _ =>
          andThen (toString expected) (fun expectedText =>
          andThen (toString received) (fun receivedText =>
          Normal ("Expected " ++ dq ++ expectedText ++ dq ++ ", got "
                    ++ dq ++ receivedText ++ dq)))
      | too_small minimum _ _ _ _ _ =>
          Normal ("Array too small: minimum " ++ minimum ++ " items required")
      | invalid_union _ _ _ => Normal "Message format doesn't match expected structure"
      | other_issue _ _ message =>
          Normal (if String.eqb message EmptyString then "Validation failed"
                  else message)
      end
  end.

(* ------------------------------------------------------------------ *)
(** ** 4. Component state and the message listener *)
(* ------------------------------------------------------------------ *)

(** The pieces of component state the listener writes, and the number of
    banner timers still pending. *)
Record State : Type := mkState {
  proj : option Project;
  rej : list Rejected;
  banner : bool;
  previewError : option string;
  status : ConnectionStatus;
  pendingTimers : nat
}.

(** The [useState] initial values. *)
Definition initialState : State :=
  mkState None [] false None (mkStatus true 0 None 0 0) 0.

(** What reaches the listener: the posted data and the sender's origin. *)
Record MessageEvent : Type := mkEvent {
  data : value;
  eventOrigin : string
}.

(** The clock readings one run of the listener takes: [new Date()] on
    entry, then [Date.now()] and [new Date()] when it builds a rejection. *)
Record Clock : Type := mkClock {
  receivedAt : string;
  nowMillis : N;
  rejectedAt : string
}.

(** State-and-error monad of the handler: state updates made before a
    throw stay made. *)
Definition M (A : Type) : Type := State -> completion A * State.

Definition ret {A : Type} (a : A) : M A := fun st => (Normal a, st).

Definition bind {A B : Type} (m : M A) (k : A -> M B) : M B :=
  fun st =>
    match m st with
    | (Normal a, st') => k a st'
    | (Throw err, st') => (Throw err, st')
    end.

Definition raise {A : Type} (err : string) : M A := fun st => (Throw err, st).

Definition lift {A : Type} (c : completion A) : M A := fun st => (c, st).

Declare Scope handler_scope.
Delimit Scope handler_scope with handler.
Notation "x <- m ;; k" := (bind m (fun x => k))
  (at level 61, m at next level, right associativity) : handler_scope.
Notation "m ;; k" := (bind m (fun _ => k))
  (at level 61, right associativity) : handler_scope.

Definition setProj (p : Project) : M unit :=
  fun st => (Normal tt, mkState (Some p) (rej st) (banner st) (previewError st)
                                (status st) (pendingTimers st)).

Definition setRej (f : list Rejected -> list Rejected) : M unit :=
  fun st => (Normal tt, mkState (proj st) (f (rej st)) (banner st) (previewError st)
                                (status st) (pendingTimers st)).

Definition setBanner (b : bool) : M unit :=
  fun st => (Normal tt, mkState (proj st) (rej st) b (previewError st)
                                (status st) (pendingTimers st)).

Definition setPreviewError (e : option string) : M unit :=
  fun st => (Normal tt, mkState (proj st) (rej st) (banner st) e
                                (status st) (pendingTimers st)).

Definition setStatus (f : ConnectionStatus -> ConnectionStatus) : M unit :=
  fun st => (Normal tt, mkState (proj st) (rej st) (banner st) (previewError st)
                                (f (status st)) (pendingTimers st)).

(** [setTimeout(() => setBanner(false), 10000)]: one more pending timer. *)
Definition setTimeoutBannerOff : M unit :=
  fun st => (Normal tt, mkState (proj st) (rej st) (banner st) (previewError st)
                                (status st) (S (pendingTimers st))).

(** A pending banner timer fires. *)
Definition bannerTimerFires (st : State) : State :=
  mkState (proj st) (rej st) false (previewError st) (status st)
          (pred (pendingTimers st)).

(** [o.k] as an expression: reading a property of [undefined] or [null]
    throws.  It is used with keys no prototype defines. *)
Definition member (o : value) (k : string) : completion value :=
  match o with
  | VUndefined =>
      Throw ("TypeError: Cannot read properties of undefined (reading '" ++ k ++ "')")
  | VNull =>
      Throw ("TypeError: Cannot read properties of null (reading '" ++ k ++ "')")
  | _ => Normal (getProp o k)
  end.

(** [k in o]: throws unless [o] is an object; the key used is no array
    index. *)
Definition inOperator (k : string) (o : value) : completion bool :=
  match o with
  | VObject _ => Normal (hasProp k o)
  | VArray _ => Normal false
  | _ => Throw ("TypeError: Cannot use 'in' operator to search for '" ++ k
                  ++ "' in " ++ primitiveText o)
  end.

(** ["files" in parsed.data.data ? parsed.data.data
                                 : parsed.data.data.output.data]. *)
Definition normalize (parsedData : value) : completion value :=
  andThen (member parsedData "data") (fun d =>
  andThen (inOperator "files" d) (fun flatArm =>
  if flatArm then Normal d
  else andThen (member d "output") (fun o => member o "data"))).

(** The static type of the project handed to [setProj]: TypeScript reads
    the parsed data at type [Project] and nothing happens at run time.
    The embedding reads the value at that type; [listener_completes]
    shows that the reading never fails on what [schema] lets through. *)
Definition typed (v : value) : completion Project :=
  match asProject v with
  | Some p => Normal p
  | None => Throw "TypeError: value is not a Project"
  end.

(** [schema.safeParse(e.data)] inside the handler: Zod's internal error,
    were it raised, would leave the handler as a throw. *)
Definition safeParseM (t : ZodType) (input : value) : M SafeParseReturn :=
  match safeParse t input with
  | Throws => raise "Error: Validation failed but no issues detected."
  | r => ret r
  end.

(** The three updaters handed to [setStatus]. *)
Definition receive (at_ : string) (prev : ConnectionStatus) : ConnectionStatus :=
  mkStatus (listening prev) (messagesReceived prev + 1) (Some at_)
           (validMessages prev) (rejectedMessages prev).

Definition countRejected (prev : ConnectionStatus) : ConnectionStatus :=
  mkStatus (listening prev) (messagesReceived prev) (lastMessageTime prev)
           (validMessages prev) (rejectedMessages prev + 1).

Definition countValid (prev : ConnectionStatus) : ConnectionStatus :=
  mkStatus (listening prev) (messagesReceived prev) (lastMessageTime prev)
           (validMessages prev + 1) (rejectedMessages prev).

(** The handler of [message] events.  Its last arm is never taken:
    [safeParseM] has already thrown there. *)
Definition listener (clock : Clock) (e : MessageEvent) : M unit :=
  (setStatus (receive (receivedAt clock)) ;;
   parsed <- safeParseM schema (data e) ;;
   match parsed with
   | Success parsedData =>
       d <- lift (normalize parsedData) ;;
       p <- lift (typed d) ;;
       setProj p ;;
       setStatus countValid ;;
       setPreviewError None
   | Failure parsedIssues =>
       summaryText <- lift (getErrorSummary parsedIssues) ;;
       let rejectedMsg :=
         mkRejected (string_of_N (nowMillis clock)) (rejectedAt clock)
                    (eventOrigin e) (data e) parsedIssues summaryText in
       setRej (fun p => rejectedMsg :: firstn 9 p) ;;
       setStatus countRejected ;;
       setBanner true ;;
       setTimeoutBannerOff
   | Throws => ret tt
   end)%handler.

(** The state after one message, and after a sequence of them. *)
Definition handle (st : State) (m : Clock * MessageEvent) : State :=
  snd (listener (fst m) (snd m) st).

Definition handleAll (st : State) (ms : list (Clock * MessageEvent)) : State :=
  fold_left handle ms st.

(* ------------------------------------------------------------------ *)
(** ** Regular expressions with JavaScript's matching order *)
(* ------------------------------------------------------------------ *)

Module RegExp.

Definition text : Type := list ascii.

(** The pattern constructs the page's expressions use. *)
Inductive regex : Type :=
| Empty
| Char (c : ascii)
| Class (p : ascii -> bool)
| Seq (a b : regex)
| Alt (a b : regex)
| Star (a : regex)
| Group (n : nat) (a : regex)
| WordBoundary
| EndOfInput.

(** [a+], [a?] and a literal run of characters. *)
Definition Plus (a : regex) : regex := Seq a (Star a).
Definition Opt (a : regex) : regex := Alt a Empty.

Fixpoint Lit (s : string) : regex :=
  match s with
  | EmptyString => Empty
  | String c rest => Seq (Char c) (Lit rest)
  end.

(** Character classes. *)
Definition inRange (lo hi : nat) (c : ascii) : bool :=
  let n := nat_of_ascii c in Nat.leb lo n && Nat.leb n hi.

Definition isChar (n : nat) (c : ascii) : bool := Nat.eqb (nat_of_ascii c) n.

(** [\s], on 8-bit code units. *)
Definition isSpace (c : ascii) : bool :=
  inRange 9 13 c || isChar 32 c || isChar 160 c.

(** [\w]. *)
Definition isWord (c : ascii) : bool :=
  inRange 97 122 c || inRange 65 90 c || inRange 48 57 c || isChar 95 c.

Definition oneOf (s : string) (c : ascii) : bool :=
  existsb (Ascii.eqb c) (list_ascii_of_string s).

Definition noneOf (s : string) (c : ascii) : bool := negb (oneOf s c).

(** A position of the matcher: the character just before it, the text
    still ahead, and the captures recorded so far. *)
Record mstate : Type := mkM {
  before : option ascii;
  ahead : text;
  captures : list (nat * text)
}.

Definition step (c : ascii) (t : text) (st : mstate) : mstate :=
  mkM (Some c) t (captures st).

Definition isWordAt (o : option ascii) : bool :=
  match o with Some c => isWord c | None => false end.

(** The text between two positions of one scan. *)
Definition consumed (from to : mstate) : text :=
  firstn (List.length (ahead from) - List.length (ahead to)) (ahead from).

(** Every way [r] matches at a position, in the order a backtracking
    matcher tries them: the head is the match JavaScript reports.  A
    repetition is greedy and gives up an iteration that consumed nothing. *)
Fixpoint run (r : regex) (st : mstate) {struct r} : list mstate :=
  match r with
  | Empty => [st]
  | Char c =>
      match ahead st with
      | x :: t => if Ascii.eqb x c then [step x t st] else []
      | [] => []
      end
  | Class p =>
      match ahead st with
      | x :: t => if p x then [step x t st] else []
      | [] => []
      end
  | Seq a b => flat_map (run b) (run a st)
  | Alt a b => (run a st ++ run b st)%list
  | Star a =>
      (fix loop (fuel : nat) (s : mstate) {struct fuel} : list mstate :=
         match fuel with
         | 0 => [s]
         | S fuel' =>
             (flat_map
                (fun s' =>
                   if Nat.ltb (List.length (ahead s')) (List.length (ahead s))
                   then loop fuel' s' else [])
                (run a s) ++ [s])%list
         end) (S (List.length (ahead st))) st
  | Group n a =>
      map (fun s' => mkM (before s') (ahead s') ((n, consumed st s') :: captures s'))
          (run a st)
  | WordBoundary =>
      if xorb (isWordAt (before st)) (isWordAt (hd_error (ahead st)))
      then [st] else []
  | EndOfInput =>
      match ahead st with
      | [] => [st]
      | _ :: _ => []
      end
  end.

(** The match at a position, if any: its text, its captures, and the
    position after it. *)
Record Match : Type := mkMatch {
  matched : text;
  groups : list (nat * text);
  after : mstate
}.

Definition matchAt (r : regex) (prev : option ascii) (s : text) : option Match :=
  let st := mkM prev s [] in
  match run r st with
  | st' :: _ => Some (mkMatch (consumed st st') (captures st') st')
  | [] => None
  end.

(** [$n] in a replacement: the last recording of group [n], or nothing. *)
Fixpoint group (n : nat) (gs : list (nat * text)) : text :=
  match gs with
  | [] => []
  | (k, t) :: rest => if Nat.eqb k n then t else group n rest
  end.

(** [RegExp.prototype.test] without flags: some position has a match. *)
Fixpoint testFrom (r : regex) (prev : option ascii) (s : text) : bool :=
  match matchAt r prev s with
  | Some _ => true
  | None =>
      match s with
      | [] => false
      | c :: t => testFrom r (Some c) t
      end
  end.

Definition test (r : regex) (s : string) : bool :=
  testFrom r None (list_ascii_of_string s).

(** [String.prototype.replace] with a global pattern: scan left to right,
    replace each match, resume after it; after an empty match copy one
    character and resume behind it. *)
Fixpoint replaceFrom (fuel : nat) (r : regex) (repl : Match -> text)
         (prev : option ascii) (s : text) : text :=
  match fuel with
  | 0 => s
  | S fuel' =>
      match matchAt r prev s with
      | Some m =>
          match matched m with
          | [] =>
              (repl m ++
                 match s with
                 | [] => []
                 | c :: t => c :: replaceFrom fuel' r repl (Some c) t
                 end)%list
          | _ :: _ =>
              (repl m ++
                 replaceFrom fuel' r repl (before (after m)) (ahead (after m)))%list
          end
      | None =>
          match s with
          | [] => []
          | c :: t => c :: replaceFrom fuel' r repl (Some c) t
          end
      end
  end.

Definition replaceAll (r : regex) (repl : Match -> text) (s : text) : text :=
  replaceFrom (S (List.length s)) r repl None s.

(** [String.prototype.replace] with a pattern that is not global: only
    the first match is replaced. *)
Fixpoint replaceFirstFrom (r : regex) (repl : Match -> text)
         (prev : option ascii) (s : text) : text :=
  match matchAt r prev s with
  | Some m => (repl m ++ ahead (after m))%list
  | None =>
      match s with
      | [] => []
      | c :: t => c :: replaceFirstFrom r repl (Some c) t
      end
  end.

Definition replaceFirst (r : regex) (repl : Match -> text) (s : text) : text :=
  replaceFirstFrom r repl None s.

End RegExp.

Import RegExp.

(* ------------------------------------------------------------------ *)
(** ** 3. Helpers: [stripTS] *)
(* ------------------------------------------------------------------ *)

Definition chars (s : string) : text := list_ascii_of_string s.

Definition ws : regex := Star (Class isSpace).
Definition ws1 : regex := Plus (Class isSpace).
Definition word1 : regex := Plus (Class isWord).

Fixpoint seq (rs : list regex) : regex :=
  match rs with
  | [] => Empty
  | [r] => r
  | r :: rest => Seq r (seq rest)
  end.

(** [/import[^;]+;?/g] *)
Definition reImport : regex :=
  seq [ Lit "import"; Plus (Class (noneOf ";")); Opt (Lit ";") ].

(** [/export default function\s+(\w+)/g] and its [class], [const] twins *)
Definition reExportDefault (keyword : string) : regex :=
  seq [ Lit "export default "; Lit keyword; ws1; Group 1 word1 ].

(** [/export default\s+/g] *)
Definition reExportDefaultBare : regex := seq [ Lit "export default"; ws1 ].

(** [/export (const|function|class|let|var) /g] *)
Definition reExportModifier : regex :=
  seq [ Lit "export ";
        Group 1 (Alt (Lit "const") (Alt (Lit "function") (Alt (Lit "class")
                   (Alt (Lit "let") (Lit "var")))));
        Lit " " ].

(** [/export \{[^}]+\};?/g] *)
Definition reExportList : regex :=
  seq [ Lit "export {"; Plus (Class (noneOf "}")); Lit "}"; Opt (Lit ";") ].

(** The generic-call pattern: a word boundary, a captured identifier
    ([A-Za-z_$] then any of [\w$]), [<], one or more characters other
    than [>], [>], optional white space and an opening parenthesis; global *)
Definition reGenericCall : regex :=
  seq [ WordBoundary;
        Group 1 (Seq (Class (fun c => inRange 65 90 c || inRange 97 122 c
                                      || oneOf "_$" c))
                     (Star (Class (fun c => isWord c || oneOf "$" c))));
        Lit "<"; Plus (Class (noneOf ">")); Lit ">"; ws; Lit "(" ].

(** [/interface\s+\w+\s*\{[^}]*\}/g] *)
Definition reInterface : regex :=
  seq [ Lit "interface"; ws1; word1; ws; Lit "{"; Star (Class (noneOf "}"));
        Lit "}" ].

(** [/type\s+\w+\s*=[^;]+;/g] *)
Definition reTypeAlias : regex :=
  seq [ Lit "type"; ws1; word1; ws; Lit "="; Plus (Class (noneOf ";")); Lit ";" ].

(** The annotation pattern: a colon, [\s*\w+], an optional [[]], any
    number of [\s*|\s*\w+], then [\s*] and one of [=], [,], [;] or a
    closing parenthesis; global *)
Definition reAnnotation : regex :=
  seq [ Lit ":"; ws; word1; Opt (Group 1 (Lit "[]"));
        Star (Group 2 (seq [ ws; Lit "|"; ws; word1 ]));
        ws; Class (oneOf "=,;)") ].

(** [/:\s*[^=,;)]+/], applied to one annotation match *)
Definition reAnnotationBody : regex :=
  seq [ Lit ":"; ws; Plus (Class (noneOf "=,;)")) ].

(** The directive pattern: a single or double quote, [use\s+], then
    [client] or [server], a quote again, an optional semicolon and
    trailing white space; global *)
Definition reDirective : regex :=
  let quote := Class (fun c => isChar 39 c || isChar 34 c) in
  seq [ quote; Lit "use"; ws1; Alt (Lit "client") (Lit "server"); quote;
        Opt (Lit ";"); ws ].

(** The replacement arguments. *)
Definition toNothing (_ : Match) : text := [].

Definition keywordAndName (keyword : string) (m : Match) : text :=
  (chars keyword ++ chars " " ++ group 1 (groups m))%list.

Definition nameAndSpace (m : Match) : text := (group 1 (groups m) ++ chars " ")%list.

Definition nameAndParen (m : Match) : text := (group 1 (groups m) ++ chars "(")%list.

Definition dropAnnotationBody (m : Match) : text :=
  replaceFirst reAnnotationBody toNothing (matched m).

(** One [.replace(pattern, replacement)] call with a global pattern. *)
Record Rewrite : Type := mkRewrite {
  pattern : regex;
  replacement : Match -> text
}.

Definition applyRewrite (rw : Rewrite) (t : text) : text :=
  replaceAll (pattern rw) (replacement rw) t.

Definition rwImport : Rewrite := mkRewrite reImport toNothing.
Definition rwExportDefaultFunction : Rewrite :=
  mkRewrite (reExportDefault "function") (keywordAndName "function").
Definition rwExportDefaultClass : Rewrite :=
  mkRewrite (reExportDefault "class") (keywordAndName "class").
Definition rwExportDefaultConst : Rewrite :=
  mkRewrite (reExportDefault "const") (keywordAndName "const").
Definition rwExportDefault : Rewrite := mkRewrite reExportDefaultBare toNothing.
Definition rwExportModifier : Rewrite := mkRewrite reExportModifier nameAndSpace.
Definition rwExportList : Rewrite := mkRewrite reExportList toNothing.
Definition rwGenericCall : Rewrite := mkRewrite reGenericCall nameAndParen.
Definition rwInterface : Rewrite := mkRewrite reInterface toNothing.
Definition rwTypeAlias : Rewrite := mkRewrite reTypeAlias toNothing.
Definition rwAnnotation : Rewrite := mkRewrite reAnnotation dropAnnotationBody.
Definition rwDirective : Rewrite := mkRewrite reDirective toNothing.

(** The rewrites of [stripTS], in the order of the method chain. *)
Definition rewrites : list Rewrite :=
  [ rwImport; rwExportDefaultFunction; rwExportDefaultClass; rwExportDefaultConst;
    rwExportDefault; rwExportModifier; rwExportList;
    rwGenericCall; rwInterface; rwTypeAlias; rwAnnotation;
    rwDirective ].

Definition stripTS (code : string) : string :=
  string_of_list_ascii (fold_left (fun t rw => applyRewrite rw t) rewrites (chars code)).

(* ------------------------------------------------------------------ *)
(** ** [buildPreview]: the generated documents *)
(* ------------------------------------------------------------------ *)

(** The document returned when no file is a script; [paths] is the
    comma-separated list of the project's paths. *)
Definition noComponentsDocument (paths : string) : string :=
  "<!DOCTYPE html><html><head><meta charset='utf-8'/></head><body>
          <div style="
  ++ dq
  ++ "padding:24px;font-family:system-ui;text-align:center;"
  ++ dq
  ++ ">
            <h2>No React Components Found</h2>
            <p>Upload files with .js, .jsx, .ts, or .tsx extensions to see a preview.</p>
            <p>Available files: "
  ++ paths
  ++ "</p>
          </div></body></html>".

(** React hooks and common utilities. *)
Definition reactSetup : string :=
  "
        const { 
          useState, useEffect, useRef, useMemo, useCallback, useReducer, 
          useContext, createContext, Fragment, Component, PureComponent,
          forwardRef, memo, lazy, Suspense
        } = React;
        
        // Common utilities that might be used
        const cn = (...classes) => classes.filter(Boolean).join(' ');
        const clsx = cn;
        const classNames = cn;
      ".

(** The preview document around the style sheet text, the set-up code
    and the stripped user code. *)
Definition previewDocument (css setup userJs : string) : string :=
  "<!DOCTYPE html><html><head>
        <meta charset='utf-8'/>
        <meta name='viewport' content='width=device-width,initial-scale=1'/>
        <title>React App Preview</title>
        <script crossorigin src='https://unpkg.com/react@18/umd/react.development.js'></script>
        <script crossorigin src='https://unpkg.com/react-dom@18/umd/react-dom.development.js'></script>
        <script src='https://unpkg.com/@babel/standalone/babel.min.js'></script>
        <script src='https://cdn.tailwindcss.com'></script>
        <style>
          body { margin: 0; font-family: system-ui, -apple-system, sans-serif; }
          .error-display { 
            background: #fee; border: 1px solid #fcc; color: #c33; 
            padding: 16px; margin: 16px; border-radius: 8px; 
            white-space: pre-wrap; font-family: monospace; font-size: 14px;
            max-height: 400px; overflow-y: auto;
          }
          .component-list {
            background: #f8f9fa; border: 1px solid #dee2e6; 
            padding: 12px; margin: 8px 0; border-radius: 6px;
            font-family: monospace; font-size: 12px;
          }
          "
  ++ css
  ++ "
        </style>
      </head><body>
        <div id='root'></div>
        <script>
          window.onerror = (msg, url, line, col, error) => {
            const errorDiv = document.createElement('div');
            errorDiv.className = 'error-display';
            errorDiv.textContent = 'Runtime Error:\n' + (error && error.stack ? error.stack : msg);
            document.getElementById('root').innerHTML = '';
            document.getElementById('root').appendChild(errorDiv);
            return true;
          };
          
          window.addEventListener('unhandledrejection', (event) => {
            const errorDiv = document.createElement('div');
            errorDiv.className = 'error-display';
            errorDiv.textContent = 'Promise Rejection:\n' + (event.reason && event.reason.stack ? event.reason.stack : event.reason);
            document.getElementById('root').innerHTML = '';
            document.getElementById('root').appendChild(errorDiv);
          });
        </script>
        <script type='text/babel' data-presets='typescript,react'>
          try {
            "
  ++ setup
  ++ "
            "
  ++ userJs
  ++ "
            
            // Auto-detect root component from common patterns
            const findRootComponent = () => {
              // Common component names in order of preference
              const candidates = [
                'App', 'HomePage', 'Home', 'Page', 'Main', 'Root', 'Index',
                'Dashboard', 'Layout', 'Component', 'MyComponent'
              ];
              
              for (const name of candidates) {
                if (typeof window[name] === 'function') {
                  return window[name];
                }
              }
              
              // Look for any function that starts with uppercase (likely a component)
              const componentNames = Object.getOwnPropertyNames(window).filter(name => 
                typeof window[name] === 'function' && 
                name[0] === name[0].toUpperCase() &&
                name !== 'Component' && name !== 'PureComponent' // Exclude React base classes
              );
              
              if (componentNames.length > 0) {
                return window[componentNames[0]];
              }
              
              return null;
            };
            
            const RootComponent = findRootComponent();
            
            if (!RootComponent) {
              // Show available components for debugging
              const allFunctions = Object.getOwnPropertyNames(window).filter(name => 
                typeof window[name] === 'function'
              );
              
              ReactDOM.createRoot(document.getElementById('root')).render(
                <div style={{fontFamily:'system-ui',padding:24,textAlign:'center'}}>
                  <h2>No Root Component Detected</h2>
                  <p>Could not find a React component to render.</p>
                  <details style={{marginTop:16,textAlign:'left'}}>
                    <summary>Looking for components named:</summary>
                    <div className="
  ++ dq
  ++ "component-list"
  ++ dq
  ++ ">
                      App, HomePage, Home, Page, Main, Root, Index, Dashboard, Layout, Component, MyComponent
                    </div>
                  </details>
                  <details style={{marginTop:8,textAlign:'left'}}>
                    <summary>Available functions ({allFunctions.length}):</summary>
                    <div className="
  ++ dq
  ++ "component-list"
  ++ dq
  ++ ">
                      {allFunctions.join(', ') || 'None found'}
                    </div>
                  </details>
                  <div style={{marginTop:16,fontSize:14,color:'#666'}}>
                    Make sure your component is exported as a function and follows React naming conventions.
                  </div>
                </div>
              );
            } else {
              class ErrorBoundary extends React.Component {
                constructor(props) {
                  super(props);
                  this.state = { hasError: false, error: null };
                }
                
                static getDerivedStateFromError(error) {
                  return { hasError: true, error };
                }
                
                componentDidCatch(error, errorInfo) {
                  console.error('React Error Boundary:', error, errorInfo);
                }
                
                render() {
                  if (this.state.hasError) {
                    return (
                      <div className="
  ++ dq
  ++ "error-display"
  ++ dq
  ++ ">
                        <strong>React Component Error:</strong>\n
                        {this.state.error && this.state.error.stack ? this.state.error.stack : this.state.error}
                        \n\n<strong>Component:</strong> {RootComponent.name || 'Unknown'}
                      </div>
                    );
                  }
                  return this.props.children;
                }
              }
              
              ReactDOM.createRoot(document.getElementById('root')).render(
                <ErrorBoundary>
                  <RootComponent />
                </ErrorBoundary>
              );
            }
          } catch (error) {
            document.getElementById('root').innerHTML = 
              '<div class="
  ++ dq
  ++ "error-display"
  ++ dq
  ++ "><strong>Compilation Error:</strong>\n' + (error.stack || error) + '</div>';
          }
        </script>
      </body></html>".

(** The document the outer [catch] returns. *)
Definition fallbackDocument (err : string) : string :=
  "<!DOCTYPE html><html><body><div class="
  ++ dq
  ++ "error-display"
  ++ dq
  ++ ">Preview Build Error: "
  ++ err
  ++ "</div></body></html>".

(* ------------------------------------------------------------------ *)
(** ** [buildPreview] *)
(* ------------------------------------------------------------------ *)

(** [try { body } catch (err) { handler }]. *)
Definition tryCatch {A : Type} (body : completion A)
           (handler : string -> completion A) : completion A :=
  match body with
  | Normal a => Normal a
  | Throw err => handler err
  end.

Fixpoint mapC {A B : Type} (f : A -> completion B) (xs : list A)
  : completion (list B) :=
  match xs with
  | [] => Normal []
  | x :: rest =>
      andThen (f x) (fun y =>
      andThen (mapC f rest) (fun ys => Normal (y :: ys)))
  end.

(** The [cssFiles] filter. *)
Definition isStyleFile (f : ProjectFile) : bool :=
  String.eqb (type f) "style"
  || includes "globals.css" (path f)
  || includes "styles.css" (path f)
  || endsWith ".css" (path f).

(** [/\.(t|j)sx?$/] *)
Definition reScriptPath : regex :=
  seq [ Lit "."; Group 1 (Alt (Lit "t") (Lit "j")); Lit "s"; Opt (Lit "x");
        EndOfInput ].

Definition isScriptFile (f : ProjectFile) : bool := test reScriptPath (path f).

(** The callback of [jsFiles.map], with its own [try]/[catch]. *)
Definition processFile (f : ProjectFile) : completion string :=
  tryCatch
    (Normal ("// File: " ++ path f ++ nl ++ stripTS (content f)))
    (fun err => Normal ("// Error processing " ++ path f ++ ": " ++ err)).

(** The body of the outer [try]. *)
Definition previewBody (p : Project) : completion string :=
  let cssFiles := filter isStyleFile (files p) in
  let css := join nl (map content cssFiles) in
  let jsFiles := filter isScriptFile (files p) in
  if Nat.eqb (List.length jsFiles) 0
  then Normal (noComponentsDocument (join ", " (map path (files p))))
  else
    andThen (mapC processFile jsFiles) (fun processed =>
    let userJs := join (nl ++ nl) processed in
    Normal (previewDocument css reactSetup userJs)).

(** The outer [try]/[catch] around a body: its document, or the fallback
    document with the preview error recorded. *)
Definition previewBoundary (body : completion string) : M string :=
  match body with
  | Normal doc => ret doc
  | Throw err =>
      (setPreviewError (Some ("Failed to build preview: " ++ err)) ;;
       ret (fallbackDocument err))%handler
  end.

Definition buildPreview : M string :=
  fun st =>
    match proj st with
    | None => ret EmptyString st
    | Some p => previewBoundary (previewBody p) st
    end.

(* ------------------------------------------------------------------ *)
(** ** [findRootComponent], as the generated document runs it *)
(* ------------------------------------------------------------------ *)

(** What a name of the global object is bound to: the [typeof] of the
    value and the value's identity. *)
Record Binding : Type := mkBinding {
  typeOf : string;
  ident : nat
}.

(** The global object: its own property names, in the order
    [Object.getOwnPropertyNames] lists them, with their bindings. *)
Definition Window : Type := list (string * Binding).

Fixpoint lookup (name : string) (w : Window) : option Binding :=
  match w with
  | [] => None
  | (n, b) :: rest => if String.eqb name n then Some b else lookup name rest
  end.

(** [typeof window[name] === 'function']. *)
Definition isFunction (w : Window) (name : string) : bool :=
  match lookup name w with
  | Some b => String.eqb (typeOf b) "function"
  | None => false
  end.

Definition candidates : list string :=
  [ "App"; "HomePage"; "Home"; "Page"; "Main"; "Root"; "Index";
    "Dashboard"; "Layout"; "Component"; "MyComponent" ].

(** The [for] loop over the candidates. *)
Fixpoint firstCandidate (w : Window) (names : list string) : option Binding :=
  match names with
  | [] => None
  | name :: rest =>
      if isFunction w name then lookup name w else firstCandidate w rest
  end.

(** Whether [toUpperCase] changes a one-character string, on 8-bit
    code units. *)
Definition hasUpperCase (c : ascii) : bool :=
  inRange 97 122 c || isChar 181 c || inRange 223 246 c || inRange 248 255 c.

(** [name[0] === name[0].toUpperCase()]; on the empty name [name[0]] is
    [undefined] and the call throws. *)
Definition startsUpperCase (name : string) : completion bool :=
  match name with
  | EmptyString =>
      Throw "TypeError: Cannot read properties of undefined (reading 'toUpperCase')"
  | String c _ => Normal (negb (hasUpperCase c))
  end.

(** The predicate of the fallback [filter]. *)
Definition looksLikeComponent (w : Window) (name : string) : completion bool :=
  if isFunction w name
  then andThen (startsUpperCase name) (fun upper =>
       Normal (upper && negb (String.eqb name "Component")
                     && negb (String.eqb name "PureComponent")))
  else Normal false.

Fixpoint filterC {A : Type} (f : A -> completion bool) (xs : list A)
  : completion (list A) :=
  match xs with
  | [] => Normal []
  | x :: rest =>
      andThen (f x) (fun keep =>
      andThen (filterC f rest) (fun ys => Normal (if keep then x :: ys else ys)))
  end.

(** The result is the callable found, or [None] for [null]. *)
Definition findRootComponent (w : Window) : completion (option Binding) :=
  match firstCandidate w candidates with
  | Some b => Normal (Some b)
  | None =>
      andThen (filterC (looksLikeComponent w) (map fst w)) (fun componentNames =>
      match componentNames with
      | name :: _ => Normal (lookup name w)
      | [] => Normal None
      end)
  end.

(* ------------------------------------------------------------------ *)
(** ** Notions the properties are stated with *)
(* ------------------------------------------------------------------ *)

(** The loops inside [parse], by name. *)
Fixpoint parseItems (element : ZodType) (path : Path) (i : nat) (xs : list value)
  : list (list ZodIssue * ParseReturn) :=
  match xs with
  | [] => []
  | x :: rest =>
      parse element (path ++ [inr i])%list x :: parseItems element path (S i) rest
  end.

Fixpoint parseShape (shape : list (string * ZodType)) (path : Path) (input : value)
  : list (list ZodIssue * ObjectPair) :=
  match shape with
  | [] => []
  | (key, keyValidator) :: rest =>
      let '(iss, r) := parse keyValidator (path ++ [inl key])%list (getProp input key)
      in (iss, (key, r, hasProp key input)) :: parseShape rest path input
  end.

Fixpoint parseOptions (options : list ZodType) (path : Path) (input : value)
  : list (list ZodIssue * ParseReturn) :=
  match options with
  | [] => []
  | option :: rest => parse option path input :: parseOptions rest path input
  end.

Definition isOK (r : ParseReturn) : bool :=
  match r with OK _ => true | _ => false end.

(** The invariants of a [Project]: at least one file, and no file with
    an empty path or an empty type tag. *)
Definition nonEmpty (s : string) : bool := negb (String.eqb s EmptyString).

Definition wellFormedFile (f : ProjectFile) : bool :=
  nonEmpty (path f) && nonEmpty (type f).

Definition wellFormed (p : Project) : bool :=
  negb (Nat.eqb (List.length (files p)) 0) && forallb wellFormedFile (files p).

(** Where a message can carry its project: under [data] (flat form) and
    under [data.output.data] (wrapped form). *)
Definition flatPayload (message : value) : value := getProp message "data".

Definition wrappedPayload (message : value) : value :=
  getProp (getProp (getProp message "data") "output") "data".

(** A file that lacks [path], [content] or [type]. *)
Definition fileMissingField (f : value) : bool :=
  isUndefined (getProp f "path") || isUndefined (getProp f "content")
  || isUndefined (getProp f "type").

(** A project payload with no [files], with an empty [files], or with a
    file that lacks a field. *)
Definition defectiveProject (p : value) : bool :=
  match getProp p "files" with
  | VUndefined => true
  | VArray [] => true
  | VArray items => existsb fileMissingField items
  | _ => false
  end.

(** The loop of [Array.prototype.join] inside [toString], by name. *)
Fixpoint toStringItems (xs : list value) : completion (list string) :=
  match xs with
  | [] => Normal []
  | x :: rest =>
      andThen
        (match x with
         | VUndefined => Normal EmptyString
         | VNull => Normal EmptyString
         | _ => toString x
         end)
        (fun s => andThen (toStringItems rest) (fun ss => Normal (s :: ss)))
  end.

(** Whether string conversion meets no object with an own [toString]
    property: in the value itself or, for an array, in its elements. *)
Fixpoint convertible (v : value) : bool :=
  match v with
  | VArray items => forallb convertible items
  | VObject props =>
      match assoc "toString" props with
      | Some _ => false
      | None => true
      end
  | _ => true
  end.

(** Whether an issue list starts with an [invalid_literal] issue whose
    [expected] or [received] string conversion cannot convert. *)
Definition unreadableLiteral (parsedIssues : list ZodIssue) : bool :=
  match parsedIssues with
  | invalid_literal expected received _ _ :: _ =>
      negb (convertible expected && convertible received)
  | _ => false
  end.

(** What string conversion throws. *)
Definition cannotConvert : string :=
  "TypeError: Cannot convert object to primitive value".

(** The summary of an issue list whose summary can be built; on the
    issue lists [schema] reports it always can
    ([getErrorSummary_on_schema]). *)
Definition summaryOf (parsedIssues : list ZodIssue) : string :=
  match getErrorSummary parsedIssues with
  | Normal text => text
  | Throw _ => EmptyString
  end.

(** The log entry the listener builds for a message it rejects. *)
Definition rejectedEntry (clock : Clock) (e : MessageEvent)
           (parsedIssues : list ZodIssue) : Rejected :=
  mkRejected (string_of_N (nowMillis clock)) (rejectedAt clock)
             (eventOrigin e) (data e) parsedIssues (summaryOf parsedIssues).

(** The state a rejected message leaves. *)
Definition afterRejection (clock : Clock) (e : MessageEvent)
           (parsedIssues : list ZodIssue) (st : State) : State :=
  mkState (proj st)
          (rejectedEntry clock e parsedIssues :: firstn 9 (rej st))
          true (previewError st)
          (countRejected (receive (receivedAt clock) (status st)))
          (S (pendingTimers st)).

(** The state an accepted message leaves. *)
Definition afterAccept (clock : Clock) (p : Project) (st : State) : State :=
  mkState (Some p) (rej st) (banner st) None
          (countValid (receive (receivedAt clock) (status st)))
          (pendingTimers st).

(** The log entry of a message, when validation fails on it. *)
Definition rejection (m : Clock * MessageEvent) : option Rejected :=
  match safeParse schema (data (snd m)) with
  | Failure parsedIssues => Some (rejectedEntry (fst m) (snd m) parsedIssues)
  | _ => None
  end.

(** The rejections of a run of messages, most recent first. *)
Definition rejections (ms : list (Clock * MessageEvent)) : list Rejected :=
  rev (flat_map (fun m => match rejection m with Some r => [r] | None => [] end) ms).

(** The braces and parentheses of a text, in order. *)
Definition isBracket (c : ascii) : bool := oneOf "{}()" c.

Definition brackets (t : text) : text := filter isBracket t.

Definition occurrences (c : string) (s : string) : nat :=
  List.length (filter (oneOf c) (chars s)).

(** How far a text is from having as many closing as opening braces,
    and as many closing as opening parentheses. *)
Definition distance (a b : nat) : nat := (a - b) + (b - a).

Definition imbalance (s : string) : nat :=
  distance (occurrences "{" s) (occurrences "}" s)
  + distance (occurrences "(" s) (occurrences ")" s).

(** A rewrite of [stripTS] on strings. *)
Definition onString (f : text -> text) (s : string) : string :=
  string_of_list_ascii (f (chars s)).

(** The rewrites that remove [export] syntax, and among them those that
    only drop the [export] and [export default] keywords. *)
Definition exportKeywordRewrites : list Rewrite :=
  [ rwExportDefaultFunction; rwExportDefaultClass; rwExportDefaultConst;
    rwExportDefault; rwExportModifier ].

Definition exportRewrites : list Rewrite :=
  (exportKeywordRewrites ++ [ rwExportList ])%list.

(** The characters a pattern can consume. *)
Fixpoint consumes (r : regex) (x : ascii) : bool :=
  match r with
  | Empty => false
  | Char c => Ascii.eqb x c
  | Class p => p x
  | Seq a b => consumes a x || consumes b x
  | Alt a b => consumes a x || consumes b x
  | Star a => consumes a x
  | Group _ a => consumes a x
  | WordBoundary => false
  | EndOfInput => false
  end.

(** Every 8-bit character. *)
Definition allAscii : list ascii := map ascii_of_nat (List.seq 0 256).

(** Whether a pattern matches somewhere in a text. *)
Definition matchesSomewhere (r : regex) (t : text) : bool := testFrom r None t.

(** A parse result reports: it is valid, or it added an issue. *)
Definition reports (x : list ZodIssue * ParseReturn) : Prop :=
  isOK (snd x) = true \/ fst x <> [].

Definition pairResult (p : ObjectPair) : ParseReturn := snd (fst p).

(** One position reaches another inside a scan: the text between them
    holds only characters of [P], and so does every capture recorded on
    the way. *)
Definition reaches (P : ascii -> bool) (st st' : mstate) : Prop :=
  (exists pre, ahead st = (pre ++ ahead st')%list /\ forallb P pre = true)
  /\ (forall n t, In (n, t) (captures st') ->
                  In (n, t) (captures st) \/ forallb P t = true).

Definition notBracket (x : ascii) : bool := negb (isBracket x).

(** The texts [reScriptPath] matches in full. *)
Definition scriptExtensions : list string := [ ".ts"; ".tsx"; ".js"; ".jsx" ].

(* ------------------------------------------------------------------ *)
(** ** 4. Component: the preview and selection effects *)
(* ------------------------------------------------------------------ *)

(** The tabs of the page: ["preview" | "files" | "info"]. *)
Inductive Tab : Type := TabPreview | TabFiles | TabInfo.

Definition sameTab (a b : Tab) : bool :=
  match a, b with
  | TabPreview, TabPreview => true
  | TabFiles, TabFiles => true
  | TabInfo, TabInfo => true
  | _, _ => false
  end.

(** The predicates of the smart file selection, in priority order. *)
Definition priorities : list (ProjectFile -> bool) :=
  [ (fun f => String.eqb (path f) "app/page.tsx");
    (fun f => String.eqb (path f) "src/App.tsx");
    (fun f => String.eqb (path f) "App.tsx");
    (fun f => includes "page." (path f) && includes ".tsx" (path f));
    (fun f => includes "App." (path f) && includes ".tsx" (path f));
    (fun f => includes "index." (path f) && includes ".tsx" (path f));
    (fun f => endsWith ".tsx" (path f));
    (fun f => endsWith ".jsx" (path f)) ].

(** The [for] loop over the priorities: the file found by the first
    priority that finds one. *)
Fixpoint firstFound (ps : list (ProjectFile -> bool)) (fs : list ProjectFile)
  : option ProjectFile :=
  match ps with
  | [] => None
  | priority :: rest =>
      match find priority fs with
      | Some found => Some found
      | None => firstFound rest fs
      end
  end.

(** [selectedFile]: [proj.files[0]] unless a priority finds a file;
    [None] stands for the [undefined] an empty array gives. *)
Definition smartSelection (fs : list ProjectFile) : option ProjectFile :=
  match firstFound priorities fs with
  | Some found => Some found
  | None => hd_error fs
  end.

(** Whether the listener accepts a message, and so replaces [proj]. *)
Definition accepted (m : Clock * MessageEvent) : bool :=
  match safeParse schema (data (snd m)) with
  | Success _ => true
  | _ => false
  end.

(** The document [buildPreview] returns for a project. *)
Definition documentOf (p : Project) : string :=
  match previewBody p with
  | Normal doc => doc
  | Throw err => fallbackDocument err
  end.

(* ------------------------------------------------------------------ *)
(** ** The code view: [getLanguage] *)
(* ------------------------------------------------------------------ *)

(** [String.prototype.split] with a one-character separator. *)
Fixpoint splitOn (sep : ascii) (s : string) : list string :=
  match s with
  | EmptyString => [ EmptyString ]
  | String c rest =>
      if Ascii.eqb c sep then EmptyString :: splitOn sep rest
      else match splitOn sep rest with
           | first :: others => String c first :: others
           | [] => [ String c EmptyString ]
           end
  end.

(** The full stop and the slash. *)
Definition dot : ascii := "."%char.
Definition slash : ascii := "/"%char.

(** Whether a text holds a character. *)
Definition holds (c : ascii) (s : string) : bool :=
  existsb (Ascii.eqb c) (list_ascii_of_string s).

(** [Array.prototype.pop] on an array of strings: its last element;
    [None] stands for the [undefined] an empty array gives. *)
Fixpoint pop (xs : list string) : option string :=
  match xs with
  | [] => None
  | [x] => Some x
  | _ :: rest => pop rest
  end.

Definition oneOfStrings (s : string) (choices : list string) : bool :=
  existsb (String.eqb s) choices.

Definition getLanguage (filePath : string) : string :=
  match pop (splitOn dot filePath) with
  | Some ext =>
      if oneOfStrings ext [ "tsx"; "ts" ] then "typescript"
      else if oneOfStrings ext [ "js"; "jsx" ] then "javascript"
      else if String.eqb ext "css" then "css"
      else if String.eqb ext "json" then "json"
      else "text"
  | None => "text"
  end.

(* ------------------------------------------------------------------ *)
(** ** The file explorer: [toggleFolder], [buildFileTree], [isFile] *)
(* ------------------------------------------------------------------ *)

(** A [Set<string>]: its elements in insertion order, each once. *)
Definition StringSet : Type := list string.

Definition has (x : string) (s : StringSet) : bool := existsb (String.eqb x) s.

Definition add (x : string) (s : StringSet) : StringSet :=
  if has x s then s else (s ++ [ x ])%list.

Definition delete (x : string) (s : StringSet) : StringSet :=
  filter (fun y => negb (String.eqb x y)) s.

(** [new Set(["app"])]. *)
Definition initialExpanded : StringSet := [ "app" ].

Definition toggleFolder (folderPath : string) (expandedFolders : StringSet)
  : StringSet :=
  if has folderPath expandedFolders then delete folderPath expandedFolders
  else add folderPath expandedFolders.

(** Truthiness of a value. *)
Definition truthy (v : value) : bool :=
  match v with
  | VUndefined => false
  | VNull => false
  | VBool b => b
  | VNumber repr => negb (oneOfStrings repr [ "0"; "-0"; "NaN" ])
  | VString s => negb (String.eqb s EmptyString)
  | VArray _ => true
  | VObject _ => true
  end.

(** [o[k] = v] on an object: an own property keeps its place, a new one
    goes last. *)
Fixpoint assign (k : string) (v : value) (props : list (string * value))
  : list (string * value) :=
  match props with
  | [] => [ (k, v) ]
  | (k', v') :: rest =>
      if String.eqb k k' then (k, v) :: rest else (k', v') :: assign k v rest
  end.

Definition setProp (o : value) (k : string) (v : value) : value :=
  match o with
  | VObject props => VObject (assign k v props)
  | other => other
  end.

(** The property names every object inherits from [Object.prototype]. *)
Definition objectPrototypeNames : list string :=
  [ "constructor"; "__defineGetter__"; "__defineSetter__"; "hasOwnProperty";
    "__lookupGetter__"; "__lookupSetter__"; "isPrototypeOf";
    "propertyIsEnumerable"; "toString"; "valueOf"; "__proto__";
    "toLocaleString" ].

Definition inherited (k : string) : bool := oneOfStrings k objectPrototypeNames.

(** How the walk of one path through the tree ends: with the tree
    updated, or outside the tree.  The walk leaves the tree when it
    reads a name that only the prototype defines, steps onto a string
    of a file object, or assigns to [__proto__]; from there the code
    writes to a built-in object or throws, which is not followed. *)
Inductive Outcome : Type :=
| Built (tree : value)
| LeftTree.

(** [parts.forEach] for one file, from the node [current] points to: the
    last part is assigned the file; a part before it is read, replaced
    by a new object when what is read is falsy, and stepped into. *)
Fixpoint place (parts : list string) (file : value) (node : value) : Outcome :=
  match node with
  | VObject props =>
      match parts with
      | [] => Built node
      | [ part ] =>
          if String.eqb part "__proto__" then LeftTree
          else Built (setProp node part file)
      | part :: rest =>
          match assoc part props with
          | Some child =>
              match place rest file (if truthy child then child else VObject []) with
              | Built child' => Built (setProp node part child')
              | LeftTree => LeftTree
              end
          | None =>
              if inherited part then LeftTree
              else match place rest file (VObject []) with
                   | Built child' => Built (setProp node part child')
                   | LeftTree => LeftTree
                   end
          end
      end
  | _ => LeftTree
  end.

(** [files.forEach] over the project's files, from the empty tree.  Each
    file enters the tree as the object the project holds, read here as
    the value of its three fields: this gives the tree the first render
    builds.  [buildFileTreeIn], further down, follows the objects
    themselves. *)
Fixpoint placeAll (fs : list ProjectFile) (tree : value) : Outcome :=
  match fs with
  | [] => Built tree
  | f :: rest =>
      match place (splitOn slash (path f)) (fileValue f) tree with
      | Built tree' => placeAll rest tree'
      | LeftTree => LeftTree
      end
  end.

Definition buildFileTree (fs : list ProjectFile) : Outcome :=
  placeAll fs (VObject []).

(** What sits in a tree under a sequence of names. *)
Fixpoint lookupPath (node : value) (names : list string) : value :=
  match names with
  | [] => node
  | name :: rest => lookupPath (getProp node name) rest
  end.

(** The [isFile] test of [renderTree]:
    [value && typeof value === "object" && "content" in value]. *)
Definition isFile (v : value) : bool :=
  match v with
  | VObject _ => hasProp "content" v
  | _ => false
  end.

(** Two sequences of names that part ways: after a common beginning
    each goes on with a name, and the two names differ. *)
Definition diverge (a b : list string) : Prop :=
  exists common x xs y ys,
    a = (common ++ x :: xs)%list /\ b = (common ++ y :: ys)%list /\ x <> y.

(** The parts of a file's path: [file.path.split("/")]. *)
Definition partsOf (f : ProjectFile) : list string := splitOn slash (path f).

(** What a walk steps into under a name: what the node has there, or a
    new empty object when that is falsy. *)
Definition stepInto (props : list (string * value)) (part : string) : value :=
  match assoc part props with
  | Some child => if truthy child then child else VObject []
  | None => VObject []
  end.

(** The names of the fields of a file object. *)
Definition isField (k : string) : bool := oneOfStrings k [ "path"; "content"; "type" ].

(** A node a walk cannot leave the tree from, as long as it reads no
    field name and no inherited name: an object whose entries, the
    fields apart, are such nodes again. *)
Fixpoint walkable (v : value) : bool :=
  match v with
  | VObject props =>
      (fix all (ps : list (string * value)) : bool :=
         match ps with
         | [] => true
         | (k, c) :: rest => (isField k || walkable c) && all rest
         end) props
  | _ => false
  end.

(** A name a walk can read anywhere: no field name, no inherited name. *)
Definition plainName (k : string) : bool := negb (isField k) && negb (inherited k).

(* ------------------------------------------------------------------ *)
(** ** The objects the page holds *)
(* ------------------------------------------------------------------ *)

(** [buildFileTree] puts the file objects of [proj.files] into its tree
    as they are, not copies of them: what a later path writes under a
    file object is written into the object the page holds, and that
    [selected] may hold too.  To follow that, objects live in a store and
    are named by their address. *)
Definition Loc : Type := nat.

(** What a property of such an object holds: text, or an object. *)
Inductive Slot : Type :=
| Text (s : string)
| Ref (l : Loc).

(** An object: its own properties, in insertion order. *)
Definition Object : Type := list (string * Slot).

(** The store: the object of an address is the one at that position. *)
Definition Store : Type := list Object.

Definition objectAt (st : Store) (l : Loc) : Object := nth l st [].

Fixpoint slotOf (k : string) (o : Object) : option Slot :=
  match o with
  | [] => None
  | (k', v) :: rest => if String.eqb k k' then Some v else slotOf k rest
  end.

(** [o[k] = v]: an own property keeps its place, a new one goes last. *)
Fixpoint assignSlot (k : string) (v : Slot) (o : Object) : Object :=
  match o with
  | [] => [ (k, v) ]
  | (k', v') :: rest =>
      if String.eqb k k' then (k, v) :: rest else (k', v') :: assignSlot k v rest
  end.

Fixpoint writeAt (st : Store) (l : Loc) (k : string) (v : Slot) : Store :=
  match st, l with
  | [], _ => []
  | o :: rest, 0 => assignSlot k v o :: rest
  | o :: rest, S l' => o :: writeAt rest l' k v
  end.

(** The object [safeParse] returns for a file: its three fields, in the
    order of the schema's keys. *)
Definition fileObject (f : ProjectFile) : Object :=
  [ ("path", Text (path f)); ("content", Text (content f)); ("type", Text (type f)) ].

(** [current[part] = {}], then [current = current[part]]: the store with
    the new object, and its address. *)
Definition newFolder (st : Store) (current : Loc) (part : string) : Store * Loc :=
  (writeAt (st ++ [ [] ])%list current part (Ref (List.length st)), List.length st).

(** [parts.forEach] for one file, on the store.  [None]: the walk reads a
    name only the prototype defines, steps onto text that is not empty,
    or assigns to [__proto__]; from there the code writes to a built-in
    object or throws, which is not followed. *)
Fixpoint placeIn (parts : list string) (file current : Loc) (st : Store)
  : option Store :=
  match parts with
  | [] => Some st
  | [ part ] =>
      if String.eqb part "__proto__" then None
      else Some (writeAt st current part (Ref file))
  | part :: rest =>
      match slotOf part (objectAt st current) with
      | Some (Ref child) => placeIn rest file child st
      | Some (Text t) =>
          if String.eqb t EmptyString
          then placeIn rest file (snd (newFolder st current part))
                       (fst (newFolder st current part))
          else None
      | None =>
          if inherited part then None
          else placeIn rest file (snd (newFolder st current part))
                       (fst (newFolder st current part))
      end
  end.

(** A property read where the code needs text. *)
Definition textOf (k : string) (o : Object) : option string :=
  match slotOf k o with
  | Some (Text t) => Some t
  | _ => None
  end.

(** [files.forEach]: [file.path.split("/")] throws when the path is text
    no longer. *)
Fixpoint placeAllIn (fileObjects : list Loc) (root : Loc) (st : Store)
  : option Store :=
  match fileObjects with
  | [] => Some st
  | file :: rest =>
      match textOf "path" (objectAt st file) with
      | Some filePath =>
          match placeIn (splitOn slash filePath) file root st with
          | Some st' => placeAllIn rest root st'
          | None => None
          end
      | None => None
      end
  end.

(** [buildFileTree] on the objects of [proj.files]: the store it leaves
    and the address of its tree. *)
Definition buildFileTreeIn (fileObjects : list Loc) (st : Store)
  : option (Store * Loc) :=
  match placeAllIn fileObjects (List.length st) (st ++ [ [] ])%list with
  | Some st' => Some (st', List.length st)
  | None => None
  end.

(** A file object read at the type the page gives it; [None] when one of
    its fields is text no longer. *)
Definition readFile (st : Store) (l : Loc) : option ProjectFile :=
  match textOf "path" (objectAt st l), textOf "content" (objectAt st l),
        textOf "type" (objectAt st l) with
  | Some p, Some c, Some t => Some (mkFile p c t)
  | _, _, _ => None
  end.

Fixpoint readFiles (st : Store) (ls : list Loc) : option (list ProjectFile) :=
  match ls with
  | [] => Some []
  | l :: rest =>
      match readFile st l, readFiles st rest with
      | Some f, Some fs => Some (f :: fs)
      | _, _ => None
      end
  end.

(* ------------------------------------------------------------------ *)
(** ** The page: renders, effects and events *)
(* ------------------------------------------------------------------ *)

(** The component's state: what the listener writes, with the project as
    it was received; the store of objects, and in it the objects of
    [proj.files] and the selected object; the tab and the document. *)
Record Page : Type := mkPage {
  core : State;
  store : Store;
  held : list Loc;
  selected : option Loc;
  tab : Tab;
  html : string
}.

(** The [useState] initial values. *)
Definition initialPage : Page := mkPage initialState [] [] None TabPreview EmptyString.

(** [CodePreview]: it splits and shows [file.path], and shows
    [file.content]; an object in either place makes the render throw. *)
Definition shows (st : Store) (file : option Loc) : bool :=
  match file with
  | None => true
  | Some l =>
      match slotOf "path" (objectAt st l), slotOf "content" (objectAt st l) with
      | Some (Text _), Some (Ref _) => false
      | Some (Text _), _ => true
      | _, _ => false
      end
  end.

(** A render of [FileExplorer]. *)
Definition renderExplorer (pg : Page) : option Page :=
  match buildFileTreeIn (held pg) (store pg) with
  | Some (st, _) => Some (mkPage (core pg) st (held pg) (selected pg) (tab pg) (html pg))
  | None => None
  end.

(** A render of the page, as far as the objects go.  Only the files tab
    touches them: it renders [FileExplorer], then [CodePreview].  [None]:
    the render throws, or the walk is not followed. *)
Definition render (pg : Page) : option Page :=
  match proj (core pg), tab pg with
  | Some _, TabFiles =>
      match renderExplorer pg with
      | Some pg' => if shows (store pg') (selected pg') then Some pg' else None
      | None => None
      end
  | _, _ => Some pg
  end.

(** The project as its file objects read now. *)
Definition liveProject (pg : Page) : option Project :=
  match proj (core pg), readFiles (store pg) (held pg) with
  | Some p, Some fs => Some (mkProject fs (description p) (instructions p))
  | _, _ => None
  end.

Definition withProj (p : option Project) (st : State) : State :=
  mkState p (rej st) (banner st) (previewError st) (status st) (pendingTimers st).

(** The effect on [[proj, tab]]: on the preview tab, [buildPreview] reads
    the file objects as they are.  [None]: a field it reads is text no
    longer; the document then carries the engine's wording of an error
    about the names of the build, and is not followed. *)
Definition previewEffect (pg : Page) : option Page :=
  match proj (core pg), tab pg with
  | Some p, TabPreview =>
      match liveProject pg with
      | Some live =>
          match buildPreview (withProj (Some live) (core pg)) with
          | (Normal doc, st) =>
              Some (mkPage (withProj (Some p) st) (store pg) (held pg) (selected pg)
                           (tab pg) doc)
          | (Throw _, _) => None
          end
      | None => None
      end
  | _, _ => Some pg
  end.

(** [Array.prototype.find], by position. *)
Fixpoint findAt {A : Type} (test : A -> bool) (xs : list A) : option nat :=
  match xs with
  | [] => None
  | x :: rest =>
      if test x then Some 0
      else match findAt test rest with
           | Some i => Some (S i)
           | None => None
           end
  end.

(** The loop of the smart selection, by position. *)
Fixpoint firstFoundAt (ps : list (ProjectFile -> bool)) (fs : list ProjectFile)
  : option nat :=
  match ps with
  | [] => None
  | priority :: rest =>
      match findAt priority fs with
      | Some i => Some i
      | None => firstFoundAt rest fs
      end
  end.

Definition smartSelectionAt (fs : list ProjectFile) : option nat :=
  match firstFoundAt priorities fs with
  | Some i => Some i
  | None => match fs with [] => None | _ :: _ => Some 0 end
  end.

(** The effect on [[proj, selected]]: with a project and nothing
    selected, the object the smart selection finds is selected.  [None]:
    a field it reads is text no longer. *)
Definition selectionEffect (pg : Page) : option Page :=
  match proj (core pg), selected pg with
  | Some _, None =>
      match readFiles (store pg) (held pg) with
      | Some fs =>
          Some (mkPage (core pg) (store pg) (held pg)
                       (match smartSelectionAt fs with
                        | Some i => nth_error (held pg) i
                        | None => None
                        end)
                       (tab pg) (html pg))
      | None => None
      end
  | _, _ => Some pg
  end.

(** The listener on a message; an accepted message brings the objects of
    its project, new ones, into the store. *)
Definition deliver (pg : Page) (m : Clock * MessageEvent) : Page :=
  match accepted m, proj (handle (core pg) m) with
  | true, Some p =>
      mkPage (handle (core pg) m) (store pg ++ map fileObject (files p))%list
             (List.seq (List.length (store pg)) (List.length (files p)))
             (selected pg) (tab pg) (html pg)
  | _, _ =>
      mkPage (handle (core pg) m) (store pg) (held pg) (selected pg) (tab pg) (html pg)
  end.

Definition andThenO {A B : Type} (o : option A) (k : A -> option B) : option B :=
  match o with
  | Some a => k a
  | None => None
  end.

(** What happens to the component.  [SelectFile] is a click on a row
    [renderTree] takes for a file: it hands over whatever object sits
    there.  [Render] is a render without a change of state, as strict
    mode and updates outside a batch bring. *)
Inductive PageEvent : Type :=
| Message (m : Clock * MessageEvent)
| ClickTab (t : Tab)
| SelectFile (l : Loc)
| ToggleFolder
| TimerFires
| Render.

(** One event, the render it brings and the effects whose dependencies
    it changes.  An accepted message changes [proj]: the page renders,
    both effects run, and the page renders again when the selection
    effect has selected.  A rejected message changes the log and the
    counters: the page renders.  A click on another tab changes [tab]:
    the page renders and the preview effect runs.  A click on a file row
    changes [selected]: the page renders; the selection effect finds
    something selected.  A click on a folder row renders the explorer.
    A timer that fires hides the banner, and the page renders if it was
    shown. *)
Definition onEvent (pg : Page) (ev : PageEvent) : option Page :=
  match ev with
  | Message m =>
      if accepted m
      then andThenO (render (deliver pg m)) (fun rendered =>
           andThenO (previewEffect rendered) (fun previewed =>
           andThenO (selectionEffect previewed) (fun chosen =>
           match selected previewed with
           | None => render chosen
           | Some _ => Some chosen
           end)))
      else render (deliver pg m)
  | ClickTab t =>
      if sameTab t (tab pg) then Some pg
      else andThenO (render (mkPage (core pg) (store pg) (held pg) (selected pg) t
                                    (html pg)))
                    previewEffect
  | SelectFile l =>
      match selected pg with
      | Some l' =>
          if Nat.eqb l l' then Some pg
          else render (mkPage (core pg) (store pg) (held pg) (Some l) (tab pg) (html pg))
      | None =>
          render (mkPage (core pg) (store pg) (held pg) (Some l) (tab pg) (html pg))
      end
  | ToggleFolder =>
      match proj (core pg), tab pg with
      | Some _, TabFiles => renderExplorer pg
      | _, _ => Some pg
      end
  | TimerFires =>
      match pendingTimers (core pg) with
      | 0 => Some pg
      | S _ =>
          if banner (core pg)
          then render (mkPage (bannerTimerFires (core pg)) (store pg) (held pg)
                              (selected pg) (tab pg) (html pg))
          else Some (mkPage (bannerTimerFires (core pg)) (store pg) (held pg)
                            (selected pg) (tab pg) (html pg))
      end
  | Render => render pg
  end.

Fixpoint onEvents (pg : Page) (evs : list PageEvent) : option Page :=
  match evs with
  | [] => Some pg
  | ev :: rest => andThenO (onEvent pg ev) (fun pg' => onEvents pg' rest)
  end.

(** Whether an event is a click on a file row. *)
Definition choosesFile (ev : PageEvent) : bool :=
  match ev with
  | SelectFile _ => true
  | _ => false
  end.



(* ------------------------------------------------------------------ *)
(** ** Notions about the page and its objects *)
(* ------------------------------------------------------------------ *)

(** What holds of the store while [buildFileTreeIn] runs over files
    whose paths keep apart: the objects older than the tree are as they
    were, and every property of an object of the tree holds an object: a
    folder one name further down, or a file already placed, which sits
    where its path says. *)
Definition treeInvariant (before : Store) (position : Loc -> list string)
           (placed : list ProjectFile) (st : Store) : Prop :=
  List.length before < List.length st
  /\ (forall l, l < List.length before -> objectAt st l = objectAt before l)
  /\ position (List.length before) = []
  /\ (forall a k v,
        List.length before <= a < List.length st ->
        slotOf k (objectAt st a) = Some v ->
        exists c,
          v = Ref c
          /\ ((List.length before <= c < List.length st
               /\ position c = (position a ++ [ k ])%list)
              \/ (c < List.length before
                  /\ exists f, In f placed /\ partsOf f = (position a ++ [ k ])%list))).

(** The project a message carries, when the listener accepts it. *)
Definition carried (m : Clock * MessageEvent) : option Project :=
  if accepted m then proj (handle initialState m) else None.





(* ------------------------------------------------------------------ *)
(** ** Further notions about messages and schemas *)
(* ------------------------------------------------------------------ *)

(** The properties of the message value that carries a [Project]. *)
Definition projectProps (p : Project) : list (string * value) :=
  ((("files", VArray (map fileValue (files p)))
      :: optionalProp "description" (description p))
     ++ optionalProp "instructions" (instructions p))%list.

(** A flat message whose [data] carries a project and, besides it, an
    [output] property. *)
Definition flatWithOutput (p : Project) (output : value) : value :=
  VObject [ ("type", VString "data");
            ("data", VObject (projectProps p ++ [ ("output", output) ])%list) ].

(** A [.min] check with bound one, or no check. *)
Definition checkIsOne (c : option MinCheck) : bool :=
  match c with
  | Some chk => Nat.eqb (fst chk) 1
  | None => true
  end.

(** Schemas without a union in which every [.min] has bound one. *)
Fixpoint plainChecks (t : ZodType) : bool :=
  match t with
  | ZString min => checkIsOne min
  | ZLiteral _ => true
  | ZArray element minLength => checkIsOne minLength && plainChecks element
  | ZObject shape =>
      (fix all (sh : list (string * ZodType)) : bool :=
         match sh with
         | [] => true
         | (_, keyValidator) :: rest => plainChecks keyValidator && all rest
         end) shape
  | ZOptional inner => plainChecks inner
  | ZUnion _ => false
  end.

Definition isTooSmallOne (i : ZodIssue) : bool :=
  match i with
  | too_small minimum _ _ _ _ _ => String.eqb minimum "1"
  | _ => false
  end.

Definition isINVALID (r : ParseReturn) : bool :=
  match r with INVALID => true | _ => false end.

(** The two summaries a rejection by [schema] can get. *)
Definition summaryTooSmall : string := "Array too small: minimum 1 items required".

Definition summaryNoMatch : string :=
  "Message format doesn't match expected structure".

(** Whether the listener holds no project, or one that meets the
    invariants of a [Project]. *)
Definition projectInvariant (st : State) : Prop :=
  match proj st with
  | Some p => wellFormed p = true
  | None => True
  end.

(* ------------------------------------------------------------------ *)
(** ** Sample data *)
(* ------------------------------------------------------------------ *)

Definition appFile : ProjectFile :=
  mkFile "App.tsx" "export default function App(){return null}" "component".

Definition styleFile : ProjectFile := mkFile "styles.css" "body{margin:0}" "style".

Definition sampleProject : Project :=
  mkProject [appFile; styleFile] (Some "optional") None.

(** A project with a document and a style sheet, and no script. *)
Definition notesProject : Project :=
  mkProject [ mkFile "README.md" "# notes" "doc"; styleFile ] None None.

Definition sampleClock : Clock :=
  mkClock "2025-01-01T00:00:00.000Z" 1735689600000%N "2025-01-01T00:00:00.001Z".

(** The message [{"type":"data","data":{"files":[]}}]. *)
Definition emptyFilesMessage : value :=
  flatEnvelope (VObject [ ("files", VArray []) ]).

(** A wrapped message whose only file has no [content]. *)
Definition fileWithoutContent : value :=
  VObject [ ("path", VString "App.tsx"); ("type", VString "component") ].

Definition messageWithoutContent : MessageEvent :=
  mkEvent (wrappedEnvelope (VObject [ ("files", VArray [ fileWithoutContent ]) ]))
          "null".

(** Rejected messages, told apart by their senders. *)
Definition rejectedFrom (sender : string) : Clock * MessageEvent :=
  (sampleClock, mkEvent emptyFilesMessage sender).

Definition tenRejected : list (Clock * MessageEvent) :=
  map rejectedFrom ["a"; "b"; "c"; "d"; "e"; "f"; "g"; "h"; "i"; "j"].

(** An environment in which [App] is bound to a value that is no
    callable, and [HomePage] and [Home] are bound to callables. *)
Definition sampleWindow : Window :=
  [ ("helper", mkBinding "function" 1);
    ("App", mkBinding "object" 2);
    ("Home", mkBinding "function" 3);
    ("HomePage", mkBinding "function" 4) ].

(** Semicolon-free source: an import, then a component. *)
Definition importExample : string :=
  "import React from 'react'" ++ nl ++ "function App() { return 1; }".

(** Files for the explorer: two files at one path, and a folder named
    [content]. *)
Definition oldApp : ProjectFile := mkFile "src/App.tsx" "old" "component".
Definition newApp : ProjectFile := mkFile "src/App.tsx" "new" "component".
Definition postFile : ProjectFile := mkFile "src/content/post.md" "# post" "doc".

(** A message that carries a project, in the flat envelope. *)
Definition projectMessage (p : Project) : PageEvent :=
  Message (sampleClock, mkEvent (flatEnvelope (projectValue p)) "null").

(** A run through the three tabs, with a rejected message on the way. *)
Definition sampleEvents : list PageEvent :=
  [ projectMessage sampleProject; ClickTab TabFiles; ToggleFolder;
    Message (sampleClock, mkEvent emptyFilesMessage "null"); TimerFires;
    ClickTab TabInfo; Render; ClickTab TabPreview ].

(** The page after [sampleEvents]: the tree of the explorer's last render
    sits behind the two file objects and the trees of earlier renders. *)
Definition samplePage : Page :=
  mkPage (bannerTimerFires
            (afterRejection sampleClock (mkEvent emptyFilesMessage "null")
               [ too_small "1" "array" true false [inl "data"; inl "files"]
                           "At least one file is required" ]
               (afterAccept sampleClock sampleProject initialState)))
         [ fileObject appFile; fileObject styleFile;
           [ ("App.tsx", Ref 0); ("styles.css", Ref 1) ];
           [ ("App.tsx", Ref 0); ("styles.css", Ref 1) ];
           [ ("App.tsx", Ref 0); ("styles.css", Ref 1) ];
           [ ("App.tsx", Ref 0); ("styles.css", Ref 1) ] ]
         [ 0; 1 ] (Some 0) TabPreview (documentOf sampleProject).

Definition oldProject : Project := mkProject [ oldApp ] None None.
Definition newProject : Project := mkProject [ newApp ] None None.

(** The page after the first of two projects. *)
Definition oldPage : Page :=
  mkPage (afterAccept sampleClock oldProject initialState) [ fileObject oldApp ] [ 0 ]
         (Some 0) TabPreview (documentOf oldProject).

(** The page after the second, seen on the files tab. *)
Definition newPage : Page :=
  mkPage (afterAccept sampleClock newProject
            (afterAccept sampleClock oldProject initialState))
         [ fileObject oldApp; fileObject newApp; [ ("src", Ref 3) ];
           [ ("App.tsx", Ref 1) ] ]
         [ 1 ] (Some 0) TabFiles (documentOf newProject).

(** Two files, the path of the second running through the first. *)
Definition libFile : ProjectFile := mkFile "lib.ts" EmptyString "lib".
Definition innerFile : ProjectFile := mkFile "lib.ts/content/x.ts" "x" "lib".

(** What [z.literal("data")] reports for an object that has a property
    named [toString]. *)
Definition ownToStringIssue : ZodIssue :=
  invalid_literal (VString "data") (VObject [ ("toString", VNumber "1") ]) []
                  (msgInvalidLiteral "data").

(* ------------------------------------------------------------------ *)
(** ** Induction on schemas *)
(* ------------------------------------------------------------------ *)

Section ZodType_induction.
Variable P : ZodType -> Prop.
Hypothesis HString : forall min, P (ZString min).
Hypothesis HLiteral : forall lit, P (ZLiteral lit).
Hypothesis HArray : forall element minLength, P element -> P (ZArray element minLength).
Hypothesis HObject : forall shape, Forall (fun kv => P (snd kv)) shape -> P (ZObject shape).
Hypothesis HOptional : forall inner, P inner -> P (ZOptional inner).
Hypothesis HUnion : forall options, Forall P options -> P (ZUnion options).

Fixpoint ZodType_nested_ind (t : ZodType) : P t :=
  match t with
  | ZString min => HString min
  | ZLiteral lit => HLiteral lit
  | ZArray element minLength => @HArray element minLength (ZodType_nested_ind element)
  | ZObject shape =>
      @HObject shape
        ((fix all (sh : list (string * ZodType)) : Forall (fun kv => P (snd kv)) sh :=
            match sh with
            | [] => Forall_nil _
            | kv :: rest => @Forall_cons _ _ kv rest (ZodType_nested_ind (snd kv)) (all rest)
            end) shape)
  | ZOptional inner => @HOptional inner (ZodType_nested_ind inner)
  | ZUnion options =>
      @HUnion options
        ((fix all (os : list ZodType) : Forall P os :=
            match os with
            | [] => Forall_nil _
            | o :: rest => @Forall_cons _ _ o rest (ZodType_nested_ind o) (all rest)
            end) options)
  end.
End ZodType_induction.

(** Induction on values through the elements of arrays. *)
Section value_induction.
Variable P : value -> Prop.
Hypothesis HArray : forall items, Forall P items -> P (VArray items).
Hypothesis HOther : forall v, (forall items, v <> VArray items) -> P v.

Fixpoint value_array_ind (v : value) : P v :=
  match v with
  | VArray items =>
      @HArray items
        ((fix all (xs : list value) : Forall P xs :=
            match xs with
            | [] => Forall_nil _
            | x :: rest => @Forall_cons _ _ x rest (value_array_ind x) (all rest)
            end) items)
  | VUndefined => @HOther VUndefined (fun items H => eq_ind VUndefined (fun w => match w with VArray _ => False | _ => True end) I _ H)
  | VNull => @HOther VNull (fun items H => eq_ind VNull (fun w => match w with VArray _ => False | _ => True end) I _ H)
  | VBool b => @HOther (VBool b) (fun items H => eq_ind (VBool b) (fun w => match w with VArray _ => False | _ => True end) I _ H)
  | VNumber r => @HOther (VNumber r) (fun items H => eq_ind (VNumber r) (fun w => match w with VArray _ => False | _ => True end) I _ H)
  | VString t => @HOther (VString t) (fun items H => eq_ind (VString t) (fun w => match w with VArray _ => False | _ => True end) I _ H)
  | VObject props => @HOther (VObject props) (fun items H => eq_ind (VObject props) (fun w => match w with VArray _ => False | _ => True end) I _ H)
  end.
End value_induction.

(* ------------------------------------------------------------------ *)
(** ** The embedding on the examples the documentation gives *)
(* ------------------------------------------------------------------ *)

Example stripTS_export_default_function :
  stripTS "export default function App(){return null}"
  = "function App(){return null}".
Proof. vm_compute. reflexivity. Qed.

Example stripTS_typed_component :
  stripTS ("import React from 'react';" ++ nl
           ++ "export const f = (a: string, b: number[] | null): void => "
           ++ "{ const x: Foo = useState<number>(0); }")
  = nl ++ "const f = (a, b)=> { const x= useState(0); }".
Proof. vm_compute. reflexivity. Qed.

Example stripTS_declarations :
  stripTS ("'use client'" ++ nl ++ "interface Props { title: string }" ++ nl
           ++ "type Id = number;" ++ nl ++ "export { a, b };done")
  = "done".
Proof. vm_compute. reflexivity. Qed.

Example isScriptFile_samples :
  map (fun p => isScriptFile (mkFile p EmptyString "component"))
      [ "App.tsx"; "main.ts"; "index.js"; "view.jsx"; "styles.css"; "notes.ts.md";
        "ts" ]
  = [ true; true; true; true; false; false; false ].
Proof. vm_compute. reflexivity. Qed.

(** The accepted message of the documentation: one component file. *)
Example listener_accepts_component :
  let st := handle initialState
              (sampleClock,
               mkEvent (flatEnvelope (projectValue (mkProject [appFile] None None)))
                       "null") in
  proj st = Some (mkProject [appFile] None None)
  /\ validMessages (status st) = 1
  /\ rejectedMessages (status st) = 0
  /\ messagesReceived (status st) = 1.
Proof. vm_compute. repeat split. Qed.

Example findRootComponent_fallback :
  findRootComponent [ ("helper", mkBinding "function" 1);
                      ("Widget", mkBinding "function" 2) ]
  = Normal (Some (mkBinding "function" 2))
  /\ findRootComponent [ ("helper", mkBinding "function" 1);
                         ("PureComponent", mkBinding "function" 2) ]
     = Normal None.
Proof. split; reflexivity. Qed.

(* ------------------------------------------------------------------ *)
(** ** Parsing: unfolding equations *)
(* ------------------------------------------------------------------ *)

Lemma parse_array (element : ZodType) (minLength : option MinCheck) (path : Path)
      (items : list value) :
  parse (ZArray element minLength) path (VArray items) =
  ((fst (checkMin "array" (List.length items) minLength path)
      ++ List.concat (map fst (parseItems element path 0 items)))%list,
   mergeArray (snd (checkMin "array" (List.length items) minLength path)) []
              (map snd (parseItems element path 0 items))).
Proof.
  simpl. destruct (checkMin "array" (List.length items) minLength path) as [iss st].
  simpl. generalize 0 as i.
  assert (E : forall xs i,
             (fix each (i : nat) (xs : list value) {struct xs} :=
                match xs with
                | [] => []
                | x :: rest => parse element (path ++ [inr i])%list x :: each (S i) rest
                end) i xs = parseItems element path i xs).
  { induction xs as [|x xs IH]; intros i; simpl; [reflexivity | now rewrite IH]. }
  intros i. now rewrite E.
Qed.

Lemma parse_object (shape : list (string * ZodType)) (path : Path)
      (props : list (string * value)) :
  parse (ZObject shape) path (VObject props) =
  (List.concat (map fst (parseShape shape path (VObject props))),
   mergeObjectSync valid [] (map snd (parseShape shape path (VObject props)))).
Proof.
  cbn [parse].
  match goal with
  | |- context [map fst (?F shape)] =>
      assert (E : forall sh, F sh = parseShape sh path (VObject props))
  end.
  { induction sh as [|[k kv] sh IH]; [reflexivity|].
    cbn [parseShape]. rewrite <- IH. reflexivity. }
  now rewrite E.
Qed.

Lemma parse_union (options : list ZodType) (path : Path) (input : value) :
  parse (ZUnion options) path input =
  unionLoop path None [] (parseOptions options path input).
Proof.
  simpl. f_equal.
  induction options as [|o os IH]; simpl; [reflexivity | now rewrite IH].
Qed.

(* ------------------------------------------------------------------ *)
(** ** Parsing: a result that is not valid comes with an issue *)
(* ------------------------------------------------------------------ *)

Lemma withStatus_OK (st : ParseStatus) (v out : value) :
  withStatus st v = OK out -> st = valid /\ out = v.
Proof. destruct st; simpl; intros H; inversion H; auto. Qed.

Lemma checkMin_cases (type : string) (len : nat) (c : option MinCheck) (path : Path) :
  checkMin type len c path = ([], valid)
  \/ exists i, checkMin type len c path = ([i], dirty).
Proof.
  unfold checkMin. destruct c as [chk|]; [|now left].
  destruct (Nat.ltb len (fst chk)); [right; eauto | now left].
Qed.

(** [mergeArray] is valid only from a valid status and valid results,
    and then returns the results' values after the ones gathered. *)
Lemma mergeArray_OK (rs : list ParseReturn) :
  forall st acc out,
    mergeArray st acc rs = OK out ->
    st = valid /\ exists vs, rs = map OK vs /\ out = VArray (rev acc ++ vs).
Proof.
  induction rs as [|r rs IH]; intros st acc out H.
  - simpl in H. apply withStatus_OK in H as [-> ->]. split; [reflexivity|].
    exists []. now rewrite app_nil_r.
  - destruct r as [|v|v]; simpl in H; [discriminate| |].
    + apply IH in H as [Hst _]. destruct st; discriminate.
    + apply IH in H as [-> (vs & -> & ->)]. split; [reflexivity|].
      exists (v :: vs). split; [reflexivity|]. simpl. now rewrite <- app_assoc.
Qed.

Lemma mergeArray_valid (vs : list value) (acc : list value) :
  mergeArray valid acc (map OK vs) = OK (VArray (rev acc ++ vs)).
Proof.
  revert acc. induction vs as [|v vs IH]; intros acc; simpl.
  - now rewrite app_nil_r.
  - rewrite IH. simpl. now rewrite <- app_assoc.
Qed.

Lemma mergeObjectSync_OK (pairs : list ObjectPair) :
  forall st acc out,
    mergeObjectSync st acc pairs = OK out ->
    st = valid /\ forallb (fun p => isOK (pairResult p)) pairs = true.
Proof.
  induction pairs as [|[[k r] a] pairs IH]; intros st acc out H.
  - simpl in H. apply withStatus_OK in H as [-> _]. auto.
  - destruct r as [|v|v]; simpl in H; [discriminate| |].
    + apply IH in H as [Hst _]. destruct st; discriminate.
    + apply IH in H as [-> Hall]. auto.
Qed.

Lemma mergeObjectSync_valid (pairs : list ObjectPair) :
  forall acc,
    forallb (fun p => isOK (pairResult p)) pairs = true ->
    exists out, mergeObjectSync valid acc pairs = OK out.
Proof.
  induction pairs as [|[[k r] a] pairs IH]; intros acc H.
  - simpl. eauto.
  - simpl in H. apply andb_true_iff in H as [Hr Hall].
    destruct r as [|v|v]; try discriminate. simpl. apply IH, Hall.
Qed.

Lemma concat_nil_Forall (A : Type) (xss : list (list A)) :
  List.concat xss = [] -> Forall (fun xs => xs = []) xss.
Proof.
  induction xss as [|xs xss IH]; simpl; intros H; [constructor|].
  apply app_eq_nil in H as [-> H]. constructor; auto.
Qed.

Lemma unionLoop_reports (path : Path) (results : list (list ZodIssue * ParseReturn)) :
  Forall reports results ->
  forall firstDirty issues,
    (forall d, firstDirty = Some d -> fst d <> []) ->
    reports (unionLoop path firstDirty issues results).
Proof.
  induction 1 as [|[iss r] results Hr _ IH]; intros firstDirty issues Hd.
  - simpl. destruct firstDirty as [d|].
    + right. now apply Hd.
    + right. discriminate.
  - destruct r as [|v|v].
    + simpl. apply IH. destruct firstDirty; exact Hd.
    + simpl. apply IH. destruct firstDirty as [d|]; [exact Hd|].
      intros d E. inversion E; subst. simpl.
      destruct Hr as [Hr|Hr]; [discriminate | exact Hr].
    + simpl. now left.
Qed.

Theorem parse_reports (t : ZodType) :
  forall path input, reports (parse t path input).
Proof.
  induction t as [min|lit|element minLength IH|shape IH|inner IH|options IH]
    using ZodType_nested_ind; intros path input.
  - destruct input; try (right; discriminate).
    simpl. destruct (checkMin_cases "string" (String.length s) min path)
      as [E|[i E]]; rewrite E; [now left | right; discriminate].
  - destruct input; try (right; discriminate).
    simpl. destruct (String.eqb s lit); [now left | right; discriminate].
  - destruct input; try (right; discriminate).
    rewrite parse_array.
    destruct (checkMin_cases "array" (List.length items) minLength path)
      as [E|[i E]]; rewrite E; [|right; discriminate].
    simpl.
    assert (Hall : forall xs i, Forall reports (parseItems element path i xs)).
    { induction xs as [|x xs IHxs]; intros i; simpl; constructor; auto. }
    specialize (Hall items 0). revert Hall.
    generalize (parseItems element path 0 items) as rs.
    intros rs Hall.
    destruct (List.concat (map fst rs)) eqn:Ec; [left | right; discriminate].
    apply concat_nil_Forall in Ec.
    assert (Hok : exists vs, map snd rs = map OK vs).
    { clear - Hall Ec. induction rs as [|[iss r] rs IHrs]; [now exists []|].
      inversion Hall as [|? ? [H1|H1] H2]; subst;
        inversion Ec as [|? ? H3 H4]; subst; simpl in *; [|congruence].
      destruct r; try discriminate.
      destruct (IHrs H2 H4) as [vs ->]. now exists (v :: vs). }
    destruct Hok as [vs ->]. now rewrite mergeArray_valid.
  - destruct input; try (right; discriminate).
    rewrite parse_object. simpl fst. simpl snd.
    assert (Hall : Forall (fun e => isOK (pairResult (snd e)) = true \/ fst e <> [])
                          (parseShape shape path (VObject props))).
    { clear - IH. induction IH as [|[k kv] sh Hkv _ IHsh]; cbn [parseShape];
        [constructor|].
      cbn [snd] in Hkv. specialize (Hkv (path ++ [inl k])%list (getProp (VObject props) k)).
      destruct (parse kv (path ++ [inl k])%list (getProp (VObject props) k))
        as [iss r].
      constructor; [exact Hkv | exact IHsh]. }
    revert Hall. generalize (parseShape shape path (VObject props)) as rs.
    intros rs Hall.
    destruct (List.concat (map fst rs)) eqn:Ec; [left | right; discriminate].
    apply concat_nil_Forall in Ec.
    assert (Hok : forallb (fun p => isOK (pairResult p)) (map snd rs) = true).
    { clear - Hall Ec. induction rs as [|[iss p] rs IHrs]; [reflexivity|].
      inversion Hall as [|? ? [H1|H1] H2]; subst;
        inversion Ec as [|? ? H3 H4]; subst; simpl in *; [|congruence].
      rewrite H1. simpl. auto. }
    destruct (mergeObjectSync_valid _ [] Hok) as [out ->]. reflexivity.
  - destruct input; try apply IH. now left.
  - rewrite parse_union. apply unionLoop_reports; [|discriminate].
    induction IH as [|o os Ho _ IHos]; simpl; constructor; auto.
Qed.

(** [safeParse] never meets the case in which Zod throws. *)
Lemma safeParse_total (t : ZodType) (input : value) :
  safeParse t input <> Throws.
Proof.
  unfold safeParse. pose proof (parse_reports t [] input) as H.
  destruct (parse t [] input) as [iss r].
  destruct r; destruct iss; try discriminate;
    destruct H as [H|H]; simpl in H; congruence.
Qed.

Lemma safeParse_Failure (t : ZodType) (input : value) (iss : list ZodIssue) :
  safeParse t input = Failure iss -> iss <> [].
Proof.
  unfold safeParse. destruct (parse t [] input) as [iss' r].
  destruct r; destruct iss'; intros H; inversion H; discriminate.
Qed.

(* ------------------------------------------------------------------ *)
(** ** What the page's schemas let through *)
(* ------------------------------------------------------------------ *)

Lemma parse_string_OK (min : option MinCheck) (path : Path) (g out : value)
      (iss : list ZodIssue) :
  parse (ZString min) path g = (iss, OK out) ->
  exists s, g = VString s /\ out = VString s.
Proof.
  destruct g; simpl; try discriminate.
  destruct (checkMin "string" (String.length s) min path) as [i st].
  intros H. inversion H as [[Hi Hw]]. apply withStatus_OK in Hw as [_ ->]. eauto.
Qed.

Lemma parse_optional_string_OK (path : Path) (g out : value) (iss : list ZodIssue) :
  parse (ZOptional (ZString None)) path g = (iss, OK out) ->
  out = g /\ (g = VUndefined \/ exists s, g = VString s).
Proof.
  destruct g; simpl; try discriminate; intros H; inversion H; eauto.
Qed.

Lemma parse_literal_OK (lit : string) (path : Path) (g out : value)
      (iss : list ZodIssue) :
  parse (ZLiteral lit) path g = (iss, OK out) ->
  g = VString lit /\ out = VString lit.
Proof.
  destruct g; simpl; try discriminate.
  destruct (String.eqb s lit) eqn:E; [|discriminate].
  apply String.eqb_eq in E. subst. intros H; inversion H. auto.
Qed.

(** Splitting the result of an object parse with a known shape. *)
Ltac split_shape H :=
  rewrite parse_object in H; cbn [parseShape] in H;
  repeat match type of H with
    | context [parse ?t ?p ?g] =>
        let i := fresh "i" in let r := fresh "r" in let E := fresh "E" in
        destruct (parse t p g) as [i r] eqn:E
    end;
  cbn [map fst snd] in H;
  apply pair_equal_spec in H; destruct H as [_ H].

Lemma file_output (path : Path) (x out : value) (iss : list ZodIssue) :
  parse file path x = (iss, OK out) -> exists f, out = fileValue f.
Proof.
  destruct x; try (simpl; discriminate).
  unfold file. intros H. split_shape H.
  destruct r as [|?|v1]; [discriminate| |];
    destruct r0 as [|?|v2]; try discriminate;
    destruct r1 as [|?|v3]; try discriminate.
  apply parse_string_OK in E as (s1 & _ & ->).
  apply parse_string_OK in E0 as (s2 & _ & ->).
  apply parse_string_OK in E1 as (s3 & _ & ->).
  simpl in H. inversion H. now exists (mkFile s1 s2 s3).
Qed.

Lemma files_output (path : Path) (xs : list value) :
  forall i vs,
    map snd (parseItems file path i xs) = map OK vs ->
    exists fs, vs = map fileValue fs.
Proof.
  induction xs as [|x xs IH]; intros i vs H.
  - destruct vs; [now exists [] | discriminate].
  - destruct vs as [|v vs]; [discriminate|]. cbn [parseItems map] in H.
    destruct (parse file (path ++ [inr i])%list x) as [iss r] eqn:E.
    cbn [snd] in H. inversion H as [[Hx Hxs]]. subst r.
    apply file_output in E as [f ->].
    apply IH in Hxs as [fs ->]. now exists (f :: fs).
Qed.

Lemma asFiles_fileValue (fs : list ProjectFile) :
  asFiles (map fileValue fs) = Some fs.
Proof.
  induction fs as [|[p c t] fs IH]; [reflexivity|].
  cbn [map asFiles]. rewrite IH. reflexivity.
Qed.

Lemma project_output (path : Path) (x out : value) (iss : list ZodIssue) :
  parse project path x = (iss, OK out) ->
  exists props p, out = VObject props /\ hasProp "files" out = true
                  /\ asProject out = Some p.
Proof.
  destruct x; try (simpl; discriminate).
  unfold project. intros H. split_shape H.
  destruct r as [|?|v1]; [discriminate| |];
    destruct r0 as [|?|v2]; try discriminate;
    destruct r1 as [|?|v3]; try discriminate.
  destruct (getProp (VObject props) "files") as [| | | | |items|] eqn:G;
    try (simpl in E; discriminate).
  rewrite parse_array in E. injection E as Hi1 Hm.
  apply mergeArray_OK in Hm as [_ (vs & Hvs & ->)].
  apply files_output in Hvs as [fs ->].
  apply parse_optional_string_OK in E0 as [-> Hd].
  apply parse_optional_string_OK in E1 as [-> Hi].
  cbn [mergeObjectSync] in H.
  destruct Hd as [Hd|[sd Hd]]; destruct Hi as [Hi|[si Hi]]; rewrite Hd, Hi in H;
    destruct (hasProp "description" (VObject props));
    destruct (hasProp "instructions" (VObject props));
    simpl in H; inversion H; eexists; eexists;
    (split; [reflexivity|]); (split; [reflexivity|]);
    cbn; rewrite asFiles_fileValue; reflexivity.
Qed.

Lemma flat_output (path : Path) (x out : value) (iss : list ZodIssue) :
  parse flat path x = (iss, OK out) ->
  exists props p,
    out = flatEnvelope (VObject props) /\ hasProp "files" (VObject props) = true
    /\ asProject (VObject props) = Some p.
Proof.
  destruct x; try (simpl; discriminate).
  unfold flat. intros H. split_shape H.
  destruct r as [|?|v1]; [discriminate| |];
    destruct r0 as [|?|v2]; try discriminate.
  apply parse_literal_OK in E as [_ ->].
  apply project_output in E0 as (ps & p & -> & Hf & Hp).
  simpl in H. inversion H. exists ps, p. auto.
Qed.

Lemma span_output (path : Path) (x out : value) (iss : list ZodIssue) :
  parse span path x = (iss, OK out) ->
  exists props p,
    out = wrappedEnvelope (VObject props) /\ hasProp "files" (VObject props) = true
    /\ asProject (VObject props) = Some p.
Proof.
  destruct x; try (simpl; discriminate).
  unfold span. intros H. split_shape H.
  destruct r as [|?|v1]; [discriminate| |];
    destruct r0 as [|?|v2]; try discriminate.
  apply parse_literal_OK in E as [_ ->].
  destruct (getProp (VObject props) "data") as [| | | | | |dprops] eqn:G;
    try (simpl in E0; discriminate).
  split_shape E0. destruct r as [|?|v3]; try discriminate.
  destruct (getProp (VObject dprops) "output") as [| | | | | |oprops] eqn:G1;
    try (simpl in E; discriminate).
  split_shape E. destruct r as [|?|v4]; try discriminate.
  apply project_output in E1 as (ps & p & -> & Hf & Hp).
  simpl in E. inversion E; subst v3.
  simpl in E0. inversion E0; subst v2.
  simpl in H. inversion H. exists ps, p. auto.
Qed.

(** What [schema] lets through is one of the two envelopes around a
    value that reads as a [Project]. *)
Lemma schema_output (input out : value) :
  safeParse schema input = Success out ->
  exists props p,
    (out = flatEnvelope (VObject props) \/ out = wrappedEnvelope (VObject props))
    /\ hasProp "files" (VObject props) = true
    /\ asProject (VObject props) = Some p.
Proof.
  unfold safeParse, schema. rewrite parse_union. cbn [parseOptions].
  destruct (parse flat [] input) as [i1 r1] eqn:E1.
  destruct (parse span [] input) as [i2 r2] eqn:E2.
  destruct r1 as [|v1|v1].
  - destruct r2 as [|v2|v2]; simpl.
    + destruct i1, i2; discriminate.
    + destruct i1, i2; discriminate.
    + intros H; inversion H; subst.
      apply span_output in E2 as (ps & p & -> & Hf & Hp). exists ps, p. auto.
  - destruct r2 as [|v2|v2]; simpl.
    + destruct i1; discriminate.
    + destruct i1; discriminate.
    + intros H; inversion H; subst.
      apply span_output in E2 as (ps & p & -> & Hf & Hp). exists ps, p. auto.
  - simpl. intros H; inversion H; subst.
    apply flat_output in E1 as (ps & p & -> & Hf & Hp). exists ps, p. auto.
Qed.

Lemma normalize_flat (props : list (string * value)) :
  hasProp "files" (VObject props) = true ->
  normalize (flatEnvelope (VObject props)) = Normal (VObject props).
Proof. intros H. unfold normalize. cbn. cbn in H. now rewrite H. Qed.

Lemma normalize_wrapped (payload : value) :
  normalize (wrappedEnvelope payload) = Normal payload.
Proof. reflexivity. Qed.

(* ------------------------------------------------------------------ *)
(** ** The summaries of what the schemas report *)
(* ------------------------------------------------------------------ *)

Lemma plainChecks_object (shape : list (string * ZodType)) :
  plainChecks (ZObject shape) = forallb (fun kv => plainChecks (snd kv)) shape.
Proof.
  cbn [plainChecks]. induction shape as [|[k t] shape IH]; [reflexivity|].
  cbn [forallb snd]. now rewrite <- IH.
Qed.

Lemma mergeArray_not_INVALID (rs : list ParseReturn) :
  forall st acc,
    isINVALID (mergeArray st acc rs) = false -> forallb (fun r => negb (isINVALID r)) rs = true.
Proof.
  induction rs as [|r rs IH]; intros st acc H; [reflexivity|].
  destruct r; cbn [mergeArray] in H; [discriminate| |]; cbn; eapply IH; exact H.
Qed.

Lemma mergeObjectSync_not_INVALID (pairs : list ObjectPair) :
  forall st acc,
    isINVALID (mergeObjectSync st acc pairs) = false ->
    forallb (fun p => negb (isINVALID (pairResult p))) pairs = true.
Proof.
  induction pairs as [|[[k r] a] pairs IH]; intros st acc H; [reflexivity|].
  destruct r; cbn [mergeObjectSync] in H; [discriminate| |]; cbn; eapply IH; exact H.
Qed.

Lemma forallb_concat (A : Type) (f : A -> bool) (xss : list (list A)) :
  forallb f (List.concat xss) = forallb (forallb f) xss.
Proof.
  induction xss as [|xs xss IH]; [reflexivity|].
  cbn [List.concat forallb]. now rewrite forallb_app, IH.
Qed.

Lemma checkMin_tooSmallOne (type : string) (len : nat) (c : option MinCheck)
      (path : Path) :
  checkIsOne c = true ->
  forallb isTooSmallOne (fst (checkMin type len c path)) = true.
Proof.
  unfold checkMin, checkIsOne. destruct c as [chk|]; [|reflexivity].
  intros H. destruct (Nat.ltb len (fst chk)); [|reflexivity].
  apply Nat.eqb_eq in H. cbn [fst forallb minIssue isTooSmallOne]. rewrite H.
  reflexivity.
Qed.

(** A result that is not [INVALID], of a schema without unions whose
    checks have bound one, carries only [too_small] issues with minimum
    one. *)
Lemma plain_issues (t : ZodType) :
  plainChecks t = true ->
  forall path input,
    isINVALID (snd (parse t path input)) = false ->
    forallb isTooSmallOne (fst (parse t path input)) = true.
Proof.
  induction t as [min|lit|element minLength IH|shape IH|inner IH|options IH]
    using ZodType_nested_ind; intros Hplain path input Hres.
  - destruct input; try discriminate. simpl in *.
    pose proof (checkMin_tooSmallOne "string" (String.length s) min path Hplain) as H.
    destruct (checkMin "string" (String.length s) min path). exact H.
  - destruct input; try discriminate. simpl in *.
    destruct (String.eqb s lit); [reflexivity | discriminate].
  - destruct input; try discriminate. rewrite parse_array in *. cbn [fst snd] in *.
    cbn [plainChecks] in Hplain. apply andb_true_iff in Hplain as [Hc He].
    rewrite forallb_app, (checkMin_tooSmallOne _ _ _ _ Hc). cbn [andb].
    apply mergeArray_not_INVALID in Hres.
    rewrite forallb_concat. revert Hres. generalize 0 as i.
    induction items as [|x xs IHxs]; intros i Hres; [reflexivity|].
    cbn [parseItems map forallb] in *. apply andb_true_iff in Hres as [Hx Hxs].
    rewrite (IH He); [now apply IHxs|]. now apply negb_true_iff.
  - destruct input; try discriminate. rewrite parse_object in *. cbn [fst snd] in *.
    rewrite plainChecks_object in Hplain.
    apply mergeObjectSync_not_INVALID in Hres. rewrite forallb_concat.
    revert Hplain Hres. induction IH as [|[k kv] sh Hkv _ IHsh]; intros Hplain Hres;
      [reflexivity|].
    cbn [parseShape] in *. cbn [forallb snd] in Hplain.
    apply andb_true_iff in Hplain as [Hk Hsh].
    cbn [snd] in Hkv. specialize (Hkv Hk (path ++ [inl k])%list (getProp (VObject props) k)).
    destruct (parse kv (path ++ [inl k])%list (getProp (VObject props) k)) as [iss r].
    cbn [map forallb fst snd] in *. apply andb_true_iff in Hres as [Hr Hrest].
    rewrite Hkv; [now apply IHsh|]. now apply negb_true_iff.
  - destruct input; try (apply IH; assumption). reflexivity.
  - discriminate.
Qed.

Lemma summary_tooSmallOne (parsedIssues : list ZodIssue) :
  parsedIssues <> [] -> forallb isTooSmallOne parsedIssues = true ->
  getErrorSummary parsedIssues = Normal summaryTooSmall.
Proof.
  destruct parsedIssues as [|i rest]; [congruence|]. intros _ H.
  cbn [forallb] in H. apply andb_true_iff in H as [H _].
  destruct i; try discriminate. cbn [isTooSmallOne] in H.
  apply String.eqb_eq in H. subst. reflexivity.
Qed.

Lemma schema_failure_summary (input : value) (parsedIssues : list ZodIssue) :
  safeParse schema input = Failure parsedIssues ->
  getErrorSummary parsedIssues = Normal summaryTooSmall
  \/ getErrorSummary parsedIssues = Normal summaryNoMatch.
Proof.
  unfold safeParse, schema. rewrite parse_union. cbn [parseOptions].
  pose proof (@plain_issues flat eq_refl [] input) as Pf.
  pose proof (@plain_issues span eq_refl [] input) as Ps.
  pose proof (parse_reports flat [] input) as Rf.
  pose proof (parse_reports span [] input) as Rs.
  destruct (parse flat [] input) as [i1 r1].
  destruct (parse span [] input) as [i2 r2].
  cbn [fst snd] in *.
  destruct r1 as [|v1|v1].
  - destruct r2 as [|v2|v2].
    + simpl. destruct i1, i2; intros H; inversion H; now right.
    + simpl. destruct i1; intros H.
      * destruct i2 as [|i i2]; inversion H. left.
        apply summary_tooSmallOne; [discriminate | now apply Ps].
      * destruct i2 as [|i i2]; inversion H. left.
        apply summary_tooSmallOne; [discriminate | now apply Ps].
    + simpl. destruct i1; discriminate.
  - assert (H1 : i1 <> []) by (destruct Rf as [Rf|Rf]; [discriminate | exact Rf]).
    destruct r2 as [|v2|v2]; simpl.
    + destruct i1 as [|i i1]; [congruence|]. intros H; inversion H. left.
      apply summary_tooSmallOne; [discriminate | now apply Pf].
    + destruct i1 as [|i i1]; [congruence|]. intros H; inversion H. left.
      apply summary_tooSmallOne; [discriminate | now apply Pf].
    + destruct i1; discriminate.
  - simpl. discriminate.
Qed.

(** On what [schema] reports the summary is always built: no issue list
    of a rejection starts with an [invalid_literal] issue. *)
Lemma getErrorSummary_on_schema (input : value) (parsedIssues : list ZodIssue) :
  safeParse schema input = Failure parsedIssues ->
  getErrorSummary parsedIssues = Normal (summaryOf parsedIssues).
Proof.
  intros H. unfold summaryOf.
  destruct (schema_failure_summary _ H) as [-> | ->]; reflexivity.
Qed.

Lemma summaryOf_on_schema (input : value) (parsedIssues : list ZodIssue) :
  safeParse schema input = Failure parsedIssues ->
  summaryOf parsedIssues = summaryTooSmall \/ summaryOf parsedIssues = summaryNoMatch.
Proof.
  intros H. unfold summaryOf.
  destruct (schema_failure_summary _ H) as [-> | ->]; auto.
Qed.

(* ------------------------------------------------------------------ *)
(** ** The listener, case by case *)
(* ------------------------------------------------------------------ *)

Lemma listener_Failure (clock : Clock) (e : MessageEvent) (st : State)
      (parsedIssues : list ZodIssue) :
  safeParse schema (data e) = Failure parsedIssues ->
  listener clock e st = (Normal tt, afterRejection clock e parsedIssues st).
Proof.
  intros H. unfold listener, bind, safeParseM. cbn [setStatus].
  rewrite H. unfold ret, lift. rewrite (getErrorSummary_on_schema _ H). reflexivity.
Qed.

Lemma listener_Success (clock : Clock) (e : MessageEvent) (st : State)
      (parsedData : value) :
  safeParse schema (data e) = Success parsedData ->
  exists d p,
    normalize parsedData = Normal d /\ asProject d = Some p
    /\ listener clock e st = (Normal tt, afterAccept clock p st).
Proof.
  intros H. destruct (schema_output _ H) as (props & p & Hout & Hf & Hp).
  exists (VObject props), p.
  assert (Hn : normalize parsedData = Normal (VObject props)).
  { destruct Hout as [-> | ->];
      [now apply normalize_flat | apply normalize_wrapped]. }
  split; [exact Hn|]. split; [exact Hp|].
  unfold listener, bind, safeParseM. cbn [setStatus].
  rewrite H. unfold ret, lift. rewrite Hn. unfold typed. rewrite Hp. reflexivity.
Qed.

(** Every message is handled to the end: the listener does not throw. *)
Lemma listener_completes (clock : Clock) (e : MessageEvent) (st : State) :
  fst (listener clock e st) = Normal tt.
Proof.
  destruct (safeParse schema (data e)) as [d|iss|] eqn:H.
  - destruct (listener_Success clock e st H) as (d' & p & _ & _ & ->). reflexivity.
  - now rewrite (listener_Failure clock e st H).
  - now apply safeParse_total in H.
Qed.

Lemma handle_cases (clock : Clock) (e : MessageEvent) (st : State) :
  (exists parsedData d p,
      safeParse schema (data e) = Success parsedData
      /\ normalize parsedData = Normal d /\ asProject d = Some p
      /\ handle st (clock, e) = afterAccept clock p st)
  \/ (exists parsedIssues,
         safeParse schema (data e) = Failure parsedIssues
         /\ parsedIssues <> []
         /\ handle st (clock, e) = afterRejection clock e parsedIssues st).
Proof.
  unfold handle. cbn [fst snd].
  destruct (safeParse schema (data e)) as [d|iss|] eqn:H.
  - left. destruct (listener_Success clock e st H) as (d' & p & Hn & Hp & ->).
    exists d, d', p. auto.
  - right. exists iss. rewrite (listener_Failure clock e st H).
    split; [reflexivity|]. split; [|reflexivity]. eapply safeParse_Failure; eauto.
  - now apply safeParse_total in H.
Qed.

(* ------------------------------------------------------------------ *)
(** ** Payloads the schemas turn down *)
(* ------------------------------------------------------------------ *)

Lemma file_OK_fields (path : Path) (x out : value) (iss : list ZodIssue) :
  parse file path x = (iss, OK out) -> fileMissingField x = false.
Proof.
  destruct x; try (simpl; discriminate).
  unfold file. intros H. split_shape H.
  destruct r as [|?|v1]; [discriminate| |];
    destruct r0 as [|?|v2]; try discriminate;
    destruct r1 as [|?|v3]; try discriminate.
  apply parse_string_OK in E as (s1 & G1 & _).
  apply parse_string_OK in E0 as (s2 & G2 & _).
  apply parse_string_OK in E1 as (s3 & G3 & _).
  unfold fileMissingField. now rewrite G1, G2, G3.
Qed.

Lemma files_OK_fields (path : Path) (xs : list value) :
  forall i vs,
    map snd (parseItems file path i xs) = map OK vs ->
    existsb fileMissingField xs = false.
Proof.
  induction xs as [|x xs IH]; intros i vs H; [reflexivity|].
  destruct vs as [|v vs]; [discriminate|]. cbn [parseItems map] in H.
  destruct (parse file (path ++ [inr i])%list x) as [iss r] eqn:E.
  cbn [snd] in H. inversion H as [[Hx Hxs]]. subst r.
  cbn [existsb]. rewrite (file_OK_fields _ _ E). simpl. eapply IH; exact Hxs.
Qed.

Lemma project_OK_sound (path : Path) (x out : value) (iss : list ZodIssue) :
  parse project path x = (iss, OK out) -> defectiveProject x = false.
Proof.
  destruct x; try (simpl; discriminate).
  unfold project. intros H. split_shape H.
  destruct r as [|?|v1]; [discriminate| |]; [destruct r0, r1; discriminate|].
  unfold defectiveProject.
  destruct (getProp (VObject props) "files") as [| | | | |items|] eqn:G;
    try (simpl in E; discriminate).
  rewrite parse_array in E. injection E as Hi1 Hm.
  apply mergeArray_OK in Hm as [Hst (vs & Hvs & _)].
  destruct items as [|x xs]; [simpl in Hst; discriminate|].
  eapply files_OK_fields; exact Hvs.
Qed.

Lemma flat_OK_sound (path : Path) (x out : value) (iss : list ZodIssue) :
  parse flat path x = (iss, OK out) -> defectiveProject (flatPayload x) = false.
Proof.
  destruct x; try (simpl; discriminate).
  unfold flat. intros H. split_shape H.
  destruct r as [|?|v1]; [discriminate| |]; [destruct r0; discriminate|].
  destruct r0 as [|?|v2]; try discriminate.
  eapply project_OK_sound; eassumption.
Qed.

Lemma span_OK_sound (path : Path) (x out : value) (iss : list ZodIssue) :
  parse span path x = (iss, OK out) -> defectiveProject (wrappedPayload x) = false.
Proof.
  destruct x; try (simpl; discriminate).
  unfold span. intros H. split_shape H.
  destruct r as [|?|v1]; [discriminate| |]; [destruct r0; discriminate|].
  destruct r0 as [|?|v2]; try discriminate.
  unfold wrappedPayload.
  destruct (getProp (VObject props) "data") as [| | | | | |dprops] eqn:G;
    try (simpl in E0; discriminate).
  split_shape E0. destruct r as [|?|v3]; try discriminate.
  destruct (getProp (VObject dprops) "output") as [| | | | | |oprops] eqn:G1;
    try (simpl in E1; discriminate).
  split_shape E1. destruct r as [|?|v4]; try discriminate.
  eapply project_OK_sound; eassumption.
Qed.

Lemma schema_Success_sound (input out : value) :
  safeParse schema input = Success out ->
  defectiveProject (flatPayload input) = false
  \/ defectiveProject (wrappedPayload input) = false.
Proof.
  unfold safeParse, schema. rewrite parse_union. cbn [parseOptions].
  destruct (parse flat [] input) as [i1 r1] eqn:E1.
  destruct (parse span [] input) as [i2 r2] eqn:E2.
  destruct r1 as [|v1|v1].
  - destruct r2 as [|v2|v2]; simpl; try (destruct i1, i2; discriminate).
    intros _. right. eapply span_OK_sound; eauto.
  - destruct r2 as [|v2|v2]; simpl; try (destruct i1; discriminate).
    intros _. right. eapply span_OK_sound; eauto.
  - intros _. left. eapply flat_OK_sound; eauto.
Qed.

(* ------------------------------------------------------------------ *)
(** ** Payloads the schemas accept *)
(* ------------------------------------------------------------------ *)

Lemma file_accepts (here : Path) (f : ProjectFile) :
  wellFormedFile f = true ->
  parse file here (fileValue f) = ([], OK (fileValue f)).
Proof.
  destruct f as [p c t]. unfold wellFormedFile, nonEmpty. cbn [path type].
  destruct p; [discriminate|]. destruct t; [simpl; discriminate|]. reflexivity.
Qed.

Lemma files_accept (path : Path) (fs : list ProjectFile) :
  forallb wellFormedFile fs = true ->
  forall i,
    parseItems file path i (map fileValue fs)
    = map (fun f => ([], OK (fileValue f))) fs.
Proof.
  induction fs as [|f fs IH]; intros H i; [reflexivity|].
  cbn [forallb] in H. apply andb_true_iff in H as [Hf Hfs].
  cbn [map parseItems]. rewrite (file_accepts _ _ Hf), IH by exact Hfs.
  reflexivity.
Qed.

Lemma concat_map_nil (A B : Type) (xs : list A) :
  List.concat (map (fun _ : A => @nil B) xs) = [].
Proof. induction xs; simpl; auto. Qed.

Lemma files_array_accepts (path : Path) (fs : list ProjectFile) (message : string) :
  wellFormed (mkProject fs None None) = true ->
  parse (ZArray file (Some (1, Some message))) path (VArray (map fileValue fs))
  = ([], OK (VArray (map fileValue fs))).
Proof.
  unfold wellFormed. cbn [files]. intros H. apply andb_true_iff in H as [Hn Hall].
  rewrite parse_array, (files_accept _ _ Hall).
  rewrite length_map. destruct fs as [|f fs]; [discriminate|].
  cbn [checkMin List.length Nat.ltb Nat.leb fst snd app].
  rewrite !map_map. cbn [fst snd].
  rewrite concat_map_nil.
  change (map (fun x : ProjectFile => OK (fileValue x)) (f :: fs))
    with (map (fun x => OK (fileValue x)) (f :: fs)).
  rewrite <- (map_map fileValue OK). now rewrite mergeArray_valid.
Qed.

Lemma project_accepts (path : Path) (p : Project) :
  wellFormed p = true ->
  parse project path (projectValue p) = ([], OK (projectValue p)).
Proof.
  destruct p as [fs d i]. intros H.
  assert (Hfs : wellFormed (mkProject fs None None) = true) by exact H.
  unfold project, projectValue. rewrite parse_object. cbn [parseShape].
  cbn [files description instructions].
  replace (getProp (VObject ((("files", VArray (map fileValue fs))
                                :: optionalProp "description" d)
                               ++ optionalProp "instructions" i)) "files")
    with (VArray (map fileValue fs)) by reflexivity.
  rewrite (files_array_accepts _ _ _ Hfs).
  destruct d as [sd|], i as [si|]; reflexivity.
Qed.

Lemma asProject_projectValue (p : Project) : asProject (projectValue p) = Some p.
Proof.
  destruct p as [fs d i]. unfold asProject, projectValue.
  cbn [files description instructions].
  replace (getProp (VObject ((("files", VArray (map fileValue fs))
                                :: optionalProp "description" d)
                               ++ optionalProp "instructions" i)) "files")
    with (VArray (map fileValue fs)) by reflexivity.
  rewrite asFiles_fileValue. destruct d, i; reflexivity.
Qed.

Lemma flat_accepts (payload : value) (props : list (string * value)) :
  payload = VObject props ->
  (forall path, parse project path payload = ([], OK payload)) ->
  safeParse schema (flatEnvelope payload) = Success (flatEnvelope payload).
Proof.
  intros -> H. unfold safeParse, schema. rewrite parse_union. cbn [parseOptions].
  assert (E : parse flat [] (flatEnvelope (VObject props))
              = ([], OK (flatEnvelope (VObject props)))).
  { unfold flat, flatEnvelope. rewrite parse_object. cbn [parseShape].
    change (getProp (VObject [("type", VString "data"); ("data", VObject props)])
                    "data") with (VObject props).
    rewrite H. reflexivity. }
  rewrite E. reflexivity.
Qed.

Lemma wrapped_accepts (payload : value) (props : list (string * value)) :
  payload = VObject props ->
  (forall path, parse project path payload = ([], OK payload)) ->
  safeParse schema (wrappedEnvelope payload) = Success (wrappedEnvelope payload).
Proof.
  intros -> H. unfold safeParse, schema. rewrite parse_union. cbn [parseOptions].
  assert (E1 : snd (parse flat [] (wrappedEnvelope (VObject props))) = INVALID)
    by reflexivity.
  assert (E2 : parse span [] (wrappedEnvelope (VObject props))
               = ([], OK (wrappedEnvelope (VObject props)))).
  { unfold span, wrappedEnvelope. rewrite parse_object. cbn [parseShape].
    match goal with
    | |- context [parse (ZObject ?sh) ?p (getProp ?o "data")] =>
        change (getProp o "data") with (VObject [("output", VObject [("data", VObject props)])])
    end.
    rewrite (parse_object [("output", ZObject [("data", project)])]).
    cbn [parseShape].
    match goal with
    | |- context [parse (ZObject ?sh) ?p (getProp ?o "output")] =>
        change (getProp o "output") with (VObject [("data", VObject props)])
    end.
    rewrite (parse_object [("data", project)]). cbn [parseShape].
    match goal with
    | |- context [parse project ?p (getProp ?o "data")] =>
        change (getProp o "data") with (VObject props)
    end.
    rewrite H. reflexivity. }
  destruct (parse flat [] (wrappedEnvelope (VObject props))) as [i1 r1].
  cbn [snd] in E1. subst r1. rewrite E2. reflexivity.
Qed.

(* ------------------------------------------------------------------ *)
(** ** Validation and normalisation *)
(* ------------------------------------------------------------------ *)

(** C1: for every project that meets the [Project] invariants, the flat
    envelope around it and the wrapped envelope around it both pass
    [schema], the project extracted from either parsed message is the
    project itself, and the listener stores that same project whichever
    envelope arrived. *)
Theorem envelope_shape_invariance (p : Project) (st : State) (clock : Clock)
        (sender : string) (Hwf : wellFormed p = true) :
  let payload := projectValue p in
  safeParse schema (flatEnvelope payload) = Success (flatEnvelope payload)
  /\ safeParse schema (wrappedEnvelope payload) = Success (wrappedEnvelope payload)
  /\ normalize (flatEnvelope payload) = Normal payload
  /\ normalize (wrappedEnvelope payload) = Normal payload
  /\ typed payload = Normal p
  /\ proj (handle st (clock, mkEvent (flatEnvelope payload) sender)) = Some p
  /\ proj (handle st (clock, mkEvent (wrappedEnvelope payload) sender)) = Some p.
Proof.
  intros payload.
  assert (Hobj : exists props, payload = VObject props)
    by (unfold payload, projectValue; eauto).
  destruct Hobj as [props Hobj].
  assert (Hp : forall path, parse project path payload = ([], OK payload))
    by (intros path; now apply project_accepts).
  assert (Hflat := flat_accepts Hobj Hp).
  assert (Hwrapped := wrapped_accepts Hobj Hp).
  assert (Hfiles : hasProp "files" payload = true) by reflexivity.
  assert (Hnf : normalize (flatEnvelope payload) = Normal payload).
  { rewrite Hobj in *. now apply normalize_flat. }
  assert (Has : asProject payload = Some p) by apply asProject_projectValue.
  repeat split; auto.
  - unfold typed. now rewrite Has.
  - destruct (handle_cases clock (mkEvent (flatEnvelope payload) sender) st)
      as [(d & d' & p' & Hs & Hn & Hp' & ->) | (iss & Hs & _)];
      cbn [data] in Hs; rewrite Hflat in Hs; [|discriminate].
    inversion Hs; subst d. rewrite Hnf in Hn. inversion Hn; subst d'.
    rewrite Has in Hp'. inversion Hp'. reflexivity.
  - destruct (handle_cases clock (mkEvent (wrappedEnvelope payload) sender) st)
      as [(d & d' & p' & Hs & Hn & Hp' & ->) | (iss & Hs & _)];
      cbn [data] in Hs; rewrite Hwrapped in Hs; [|discriminate].
    inversion Hs; subst d. rewrite normalize_wrapped in Hn. inversion Hn; subst d'.
    rewrite Has in Hp'. inversion Hp'. reflexivity.
Qed.

Lemma envelope_shape_invariance_witness :
  proj (handle initialState
          (sampleClock, mkEvent (flatEnvelope (projectValue sampleProject)) "null"))
  = Some sampleProject
  /\ proj (handle initialState
             (sampleClock, mkEvent (wrappedEnvelope (projectValue sampleProject)) "null"))
     = Some sampleProject.
Proof.
  pose proof (@envelope_shape_invariance sampleProject initialState sampleClock
                "null" eq_refl) as H.
  cbv zeta in H. split; apply H.
Defined.

(** C2: when the project payload of a message, under [data] and under
    [data.output.data] alike, has no [files], an empty [files], or a file
    that lacks [path], [content] or [type], validation fails with at
    least one issue, and handling the message leaves the current project
    as it was: only the rejection log, the counters, the banner and its
    timer change. *)
Theorem defective_payload_rejected (st : State) (clock : Clock) (e : MessageEvent)
        (Hflat : defectiveProject (flatPayload (data e)) = true)
        (Hwrapped : defectiveProject (wrappedPayload (data e)) = true) :
  exists parsedIssues,
    safeParse schema (data e) = Failure parsedIssues
    /\ parsedIssues <> []
    /\ proj (handle st (clock, e)) = proj st
    /\ previewError (handle st (clock, e)) = previewError st
    /\ handle st (clock, e) = afterRejection clock e parsedIssues st.
Proof.
  destruct (handle_cases clock e st)
    as [(d & d' & p' & Hs & _) | (iss & Hs & Hne & Hh)].
  - apply schema_Success_sound in Hs as [Hs|Hs]; congruence.
  - exists iss. rewrite Hh. repeat split; auto.
Qed.

Lemma defective_payload_rejected_witness :
  exists parsedIssues,
    safeParse schema (data messageWithoutContent) = Failure parsedIssues
    /\ parsedIssues <> []
    /\ proj (handle (afterAccept sampleClock sampleProject initialState)
                    (sampleClock, messageWithoutContent)) = Some sampleProject.
Proof.
  destruct (@defective_payload_rejected
              (afterAccept sampleClock sampleProject initialState) sampleClock
              messageWithoutContent eq_refl eq_refl)
    as (iss & Hs & Hne & Hp & _).
  exists iss. repeat split; assumption.
Defined.

(** Both positions matter: fields besides the ones a schema names are
    dropped, so a wrapped message may carry anything else under [data],
    an empty [files] included, and still be accepted for the project
    under [data.output.data]. *)
Example wrapped_message_with_extra_files :
  safeParse schema
    (VObject [ ("type", VString "data");
               ("data", VObject [ ("files", VArray []);
                                  ("output",
                                   VObject [ ("data", projectValue sampleProject) ]) ]) ])
  = Success (wrappedEnvelope (projectValue sampleProject)).
Proof. reflexivity. Qed.

(** C8: the message [{"type":"data","data":{"files":[]}}] is rejected; the
    entry logged for it holds a [too_small] issue, its summary is
    "Array too small: minimum 1 items required", which names the minimum
    item count, and the current project stays what it was, absent
    included. *)
Theorem empty_files_rejected (st : State) (clock : Clock) (sender : string) :
  let st' := handle st (clock, mkEvent emptyFilesMessage sender) in
  exists entry,
    rej st' = entry :: firstn 9 (rej st)
    /\ issues entry = [ too_small "1" "array" true false [inl "data"; inl "files"]
                                  "At least one file is required" ]
    /\ Exists (fun i => issueCode i = "too_small") (issues entry)
    /\ summary entry = "Array too small: minimum 1 items required"
    /\ includes ("minimum " ++ string_of_nat 1 ++ " items") (summary entry) = true
    /\ msg entry = emptyFilesMessage
    /\ proj st' = proj st
    /\ (proj st = None -> proj st' = None)
    /\ rejectedMessages (status st') = rejectedMessages (status st) + 1
    /\ validMessages (status st') = validMessages (status st).
Proof.
  intros st'.
  assert (Hs : safeParse schema emptyFilesMessage
               = Failure [ too_small "1" "array" true false [inl "data"; inl "files"]
                                     "At least one file is required" ])
    by reflexivity.
  assert (Hh : st' = afterRejection clock (mkEvent emptyFilesMessage sender)
                       [ too_small "1" "array" true false [inl "data"; inl "files"]
                                   "At least one file is required" ] st).
  { unfold st', handle. cbn [fst snd].
    now rewrite (@listener_Failure clock (mkEvent emptyFilesMessage sender) st _ Hs). }
  rewrite Hh. eexists. split; [reflexivity|].
  repeat split; try reflexivity; auto.
  constructor. reflexivity.
Qed.

(* ------------------------------------------------------------------ *)
(** ** The error summary *)
(* ------------------------------------------------------------------ *)

Lemma toString_array (items : list value) :
  toString (VArray items)
  = andThen (toStringItems items) (fun parts => Normal (join "," parts)).
Proof.
  reflexivity.
Qed.

(** String conversion returns exactly on the convertible values, and
    throws one error on the others. *)
Lemma toString_cases (v : value) :
  (convertible v = true /\ exists text, toString v = Normal text)
  \/ (convertible v = false /\ toString v = Throw cannotConvert).
Proof.
  induction v as [items IH|v Hother] using value_array_ind.
  - rewrite toString_array. cbn [convertible].
    induction IH as [|x xs Hx _ IHxs]; [left; split; [reflexivity | eexists; reflexivity]|].
    cbn [toStringItems forallb].
    assert (Hx' : (convertible x = true
                   /\ exists text, match x with
                                   | VUndefined => Normal EmptyString
                                   | VNull => Normal EmptyString
                                   | _ => toString x
                                   end = Normal text)
                  \/ (convertible x = false
                      /\ match x with
                         | VUndefined => Normal EmptyString
                         | VNull => Normal EmptyString
                         | _ => toString x
                         end = Throw cannotConvert)).
    { destruct x; try exact Hx; left; split; try reflexivity; eexists; reflexivity. }
    destruct Hx' as [[Hc [t ->]]|[Hc ->]]; rewrite Hc; cbn [andThen andb].
    + destruct IHxs as [[Hcs [ts Hts]]|[Hcs Hts]]; rewrite Hcs.
      * left. split; [reflexivity|].
        destruct (toStringItems xs) as [ss|err]; [|discriminate].
        cbn [andThen]. eexists. reflexivity.
      * right. split; [reflexivity|].
        destruct (toStringItems xs) as [ss|err]; [discriminate|].
        cbn [andThen] in *. exact Hts.
    + right. split; reflexivity.
  - destruct v as [| | | | |items|props];
      try (left; split; [reflexivity | eexists; reflexivity]).
    + exfalso. now apply (Hother items).
    + cbn [convertible toString]. destruct (assoc "toString" props).
      * right. split; reflexivity.
      * left. split; [reflexivity | eexists; reflexivity].
Qed.

(** C10, amended: on the empty list [getErrorSummary] returns "Unknown
    validation error"; on a list with a first issue the outcome, a
    string or a throw, is that of the first issue alone.  It returns a
    string unless the first issue is an [invalid_literal] issue whose
    [expected] or [received] holds an object with a property of its own
    named [toString]: there the template literal throws a [TypeError].
    No issue list [schema] reports is of that kind, so in the listener a
    string is always returned. *)
Theorem getErrorSummary_first_issue_only :
  getErrorSummary [] = Normal "Unknown validation error"
  /\ (forall mainIssue rest,
         getErrorSummary (mainIssue :: rest) = getErrorSummary [mainIssue])
  /\ (forall mainIssue rest rest',
         getErrorSummary (mainIssue :: rest) = getErrorSummary (mainIssue :: rest'))
  /\ (forall parsedIssues,
         unreadableLiteral parsedIssues = false ->
         exists text, getErrorSummary parsedIssues = Normal text)
  /\ (forall parsedIssues,
         unreadableLiteral parsedIssues = true ->
         getErrorSummary parsedIssues = Throw cannotConvert)
  /\ (forall input parsedIssues,
         safeParse schema input = Failure parsedIssues ->
         unreadableLiteral parsedIssues = false
         /\ exists text, getErrorSummary parsedIssues = Normal text).
Proof.
  split; [reflexivity|]. split; [reflexivity|]. split; [reflexivity|].
  split; [|split].
  - intros [|i rest] H; [eexists; reflexivity|].
    destruct i as [e r q m|e r q m|n t a b q m|u q m|c q m];
      try (eexists; reflexivity).
    cbn [unreadableLiteral] in H. apply negb_false_iff, andb_true_iff in H as [He Hr].
    cbn [getErrorSummary].
    destruct (toString_cases e) as [[_ [te ->]]|[He' _]]; [|congruence].
    destruct (toString_cases r) as [[_ [tr ->]]|[Hr' _]]; [|congruence].
    eexists. reflexivity.
  - intros [|i rest] H; [discriminate|].
    destruct i as [e r q m|e r q m|n t a b q m|u q m|c q m]; try discriminate.
    cbn [unreadableLiteral] in H. apply negb_true_iff, andb_false_iff in H.
    cbn [getErrorSummary].
    destruct (toString_cases e) as [[He [te ->]]|[He ->]]; [|reflexivity].
    destruct (toString_cases r) as [[Hr [tr ->]]|[Hr ->]]; [|reflexivity].
    destruct H; congruence.
  - intros input parsedIssues H.
    assert (Hn : getErrorSummary parsedIssues = Normal (summaryOf parsedIssues))
      by exact (getErrorSummary_on_schema _ H).
    split; [|eauto].
    destruct parsedIssues as [|i rest]; [reflexivity|].
    destruct i as [e r q m|e r q m|n t a b q m|u q m|c q m]; try reflexivity.
    destruct (schema_failure_summary _ H) as [Hs|Hs]; cbn [getErrorSummary] in Hs;
      cbn [unreadableLiteral]; apply negb_false_iff, andb_true_iff;
      destruct (toString_cases e) as [[He [te Hte]]|[He Hte]];
      destruct (toString_cases r) as [[Hr [tr Htr]]|[Hr Htr]];
      rewrite ?Hte, ?Htr in Hs; cbn [andThen] in Hs; try discriminate; auto.
Qed.

Lemma getErrorSummary_first_issue_only_witness :
  exists text,
    getErrorSummary
      [ invalid_literal (VString "data") (VArray [ VNumber "1"; VNull; VString "a" ])
                        [inl "type"] (msgInvalidLiteral "data") ]
    = Normal text.
Proof.
  destruct getErrorSummary_first_issue_only as (_ & _ & _ & H & _).
  apply H. vm_compute. reflexivity.
Defined.

(** The claim as first stated fails: the summary of a wrong literal
    cannot be built when the value received is an object with a
    property named [toString]. *)
Lemma getErrorSummary_not_total :
  getErrorSummary [ ownToStringIssue ] = Throw cannotConvert
  /\ ~ (forall parsedIssues, exists text, getErrorSummary parsedIssues = Normal text).
Proof.
  split; [reflexivity|]. intros H.
  destruct (H [ ownToStringIssue ]) as [text Ht]. discriminate Ht.
Qed.

(* ------------------------------------------------------------------ *)
(** ** Counters and the rejection log *)
(* ------------------------------------------------------------------ *)

(** C9: the listener handles every message to the end; it adds one to
    [messagesReceived] and one to exactly one of [validMessages] and
    [rejectedMessages], so that [messagesReceived = validMessages +
    rejectedMessages] still holds after the message when it held
    before. *)
Theorem counters_add_up (st : State) (clock : Clock) (e : MessageEvent)
        (Hbefore : messagesReceived (status st)
                   = validMessages (status st) + rejectedMessages (status st)) :
  let st' := handle st (clock, e) in
  fst (listener clock e st) = Normal tt
  /\ messagesReceived (status st') = messagesReceived (status st) + 1
  /\ ((validMessages (status st') = validMessages (status st) + 1
       /\ rejectedMessages (status st') = rejectedMessages (status st))
      \/ (validMessages (status st') = validMessages (status st)
          /\ rejectedMessages (status st') = rejectedMessages (status st) + 1))
  /\ messagesReceived (status st')
     = validMessages (status st') + rejectedMessages (status st').
Proof.
  intros st'. split; [apply listener_completes|].
  unfold st'.
  destruct (handle_cases clock e st)
    as [(d & d' & p' & _ & _ & _ & ->) | (iss & _ & _ & ->)];
    cbn [afterAccept afterRejection status countValid countRejected receive
         messagesReceived validMessages rejectedMessages];
    repeat split; auto; lia.
Qed.

Lemma counters_add_up_witness :
  messagesReceived
    (status (handle initialState (sampleClock, mkEvent emptyFilesMessage "null")))
  = validMessages
      (status (handle initialState (sampleClock, mkEvent emptyFilesMessage "null")))
    + rejectedMessages
        (status (handle initialState (sampleClock, mkEvent emptyFilesMessage "null"))).
Proof.
  apply (@counters_add_up initialState sampleClock
           (mkEvent emptyFilesMessage "null") eq_refl).
Defined.

Lemma handle_rej (st : State) (m : Clock * MessageEvent) :
  rej (handle st m)
  = match rejection m with
    | Some r => r :: firstn 9 (rej st)
    | None => rej st
    end.
Proof.
  destruct m as [clock e]. unfold rejection. cbn [fst snd].
  destruct (handle_cases clock e st)
    as [(d & d' & p' & Hs & _ & _ & ->) | (iss & Hs & _ & ->)];
    rewrite Hs; reflexivity.
Qed.

Lemma firstn_app_firstn (A : Type) (n k : nat) (xs ys : list A) :
  n <= k + List.length xs ->
  firstn n (xs ++ firstn k ys)%list = firstn n (xs ++ ys)%list.
Proof.
  intros H. rewrite !firstn_app, firstn_firstn.
  replace (Nat.min (n - List.length xs) k) with (n - List.length xs) by lia.
  reflexivity.
Qed.

Lemma rejections_cons (m : Clock * MessageEvent) (ms : list (Clock * MessageEvent)) :
  rejections (m :: ms)
  = (rejections ms ++ match rejection m with Some r => [r] | None => [] end)%list.
Proof.
  unfold rejections. cbn [flat_map]. rewrite rev_app_distr.
  destruct (rejection m); reflexivity.
Qed.

Lemma rejections_snoc (ms : list (Clock * MessageEvent)) (m : Clock * MessageEvent) :
  rejections (ms ++ [m])%list
  = (match rejection m with Some r => [r] | None => [] end ++ rejections ms)%list.
Proof.
  unfold rejections. rewrite flat_map_app, rev_app_distr. cbn [flat_map].
  rewrite app_nil_r. destruct (rejection m); reflexivity.
Qed.

(** The log after a run: the run's rejections, most recent first, in
    front of the earlier log, cut to ten entries. *)
Lemma handleAll_rej (ms : list (Clock * MessageEvent)) :
  forall st,
    List.length (rej st) <= 10 ->
    rej (handleAll st ms) = firstn 10 (rejections ms ++ rej st)%list.
Proof.
  induction ms as [|m ms IH]; intros st Hlen.
  - unfold handleAll, rejections. cbn [fold_left flat_map rev app].
    now rewrite firstn_all2.
  - unfold handleAll in *. cbn [fold_left].
    assert (Hlen' : List.length (rej (handle st m)) <= 10).
    { rewrite handle_rej. destruct (rejection m); [|exact Hlen].
      cbn [List.length]. rewrite length_firstn. lia. }
    rewrite (IH _ Hlen'), handle_rej, rejections_cons.
    destruct (rejection m) as [r|].
    + rewrite <- app_assoc. cbn [app].
      change (r :: firstn 9 (rej st)) with ([r] ++ firstn 9 (rej st))%list.
      change (r :: rej st) with ([r] ++ rej st)%list.
      rewrite !app_assoc. apply firstn_app_firstn.
      rewrite length_app. cbn [List.length]. lia.
    + now rewrite app_nil_r.
Qed.

Lemma firstn_removelast (A : Type) (xs : list A) (n : nat) :
  List.length xs = S n -> firstn n xs = removelast xs.
Proof.
  intros H. rewrite removelast_firstn_len. f_equal. lia.
Qed.

(** C4: after any run of messages from the initial state the rejection
    log holds the run's rejections most recent first, cut to ten entries;
    it never holds more than ten; a further rejected message is put in
    front of the first nine, and when the log already held ten entries
    that is the log without its last, oldest, entry. *)
Theorem rejection_log_capped (ms : list (Clock * MessageEvent))
        (m : Clock * MessageEvent) (entry : Rejected)
        (Hrejected : rejection m = Some entry) :
  let log := rej (handleAll initialState ms) in
  let log' := rej (handleAll initialState (ms ++ [m])%list) in
  log = firstn 10 (rejections ms)
  /\ List.length log <= 10
  /\ log' = entry :: firstn 9 log
  /\ log' = firstn 10 (entry :: rejections ms)
  /\ List.length log' <= 10
  /\ (List.length log = 10 -> log' = entry :: removelast log).
Proof.
  intros log log'.
  assert (Hlog : log = firstn 10 (rejections ms)).
  { unfold log. rewrite handleAll_rej by (cbn; lia). cbn [rej initialState].
    now rewrite app_nil_r. }
  assert (Hlen : List.length log <= 10).
  { rewrite Hlog, length_firstn. lia. }
  assert (Hlog' : log' = entry :: firstn 9 log).
  { unfold log', handleAll. rewrite fold_left_app. cbn [fold_left].
    rewrite handle_rej, Hrejected. reflexivity. }
  repeat split; auto.
  - unfold log'. rewrite handleAll_rej by (cbn; lia). cbn [rej initialState].
    rewrite app_nil_r, rejections_snoc, Hrejected. reflexivity.
  - rewrite Hlog'. cbn [List.length]. rewrite length_firstn. lia.
  - intros H10. rewrite Hlog'. f_equal. now apply firstn_removelast.
Qed.

Lemma rejection_log_capped_witness :
  map origin (rej (handleAll initialState tenRejected))
  = ["j"; "i"; "h"; "g"; "f"; "e"; "d"; "c"; "b"; "a"]
  /\ map origin (rej (handleAll initialState (tenRejected ++ [rejectedFrom "k"])%list))
     = ["k"; "j"; "i"; "h"; "g"; "f"; "e"; "d"; "c"; "b"].
Proof.
  destruct (@rejection_log_capped tenRejected (rejectedFrom "k")
              (rejectedEntry sampleClock (mkEvent emptyFilesMessage "k")
                 [ too_small "1" "array" true false [inl "data"; inl "files"]
                             "At least one file is required" ])
              eq_refl)
    as (Hlog & _ & _ & Hlog' & _).
  split; [rewrite Hlog | rewrite Hlog']; reflexivity.
Defined.

(* ------------------------------------------------------------------ *)
(** ** The script pattern *)
(* ------------------------------------------------------------------ *)

Lemma reScriptPath_matchAt (prev : option ascii) (s : text) :
  matchAt reScriptPath prev s <> None <-> In s (map chars scriptExtensions).
Proof.
  split.
  - intros H. unfold matchAt in H.
    destruct s as [|c1 [|c2 [|c3 [|c4 [|c5 rest]]]]]; cbn in H;
      repeat match type of H with
        | context [Ascii.eqb ?c ?k] =>
            destruct (Ascii.eqb_spec c k); [subst c|]; cbn in H
        end;
      try congruence; cbn; auto 10.
  - intros H. cbn in H.
    destruct H as [<-|[<-|[<-|[<-|[]]]]]; destruct prev; discriminate.
Qed.

Lemma reScriptPath_testFrom (s : text) :
  forall prev,
    testFrom reScriptPath prev s = true
    <-> exists stem ext, In ext (map chars scriptExtensions) /\ s = (stem ++ ext)%list.
Proof.
  induction s as [|c t IH]; intros prev; cbn [testFrom].
  - destruct (matchAt reScriptPath prev []) eqn:E.
    + assert (H : matchAt reScriptPath prev [] <> None) by congruence.
      apply reScriptPath_matchAt in H. cbn in H. intuition discriminate.
    + split; [discriminate|]. intros (stem & ext & Hext & Hs).
      symmetry in Hs. apply app_eq_nil in Hs as [_ ->].
      cbn in Hext. intuition discriminate.
  - destruct (matchAt reScriptPath prev (c :: t)) eqn:E.
    + split; [|reflexivity]. intros _. exists [], (c :: t). split; [|reflexivity].
      apply (reScriptPath_matchAt prev). congruence.
    + rewrite IH. split.
      * intros (stem & ext & Hext & ->). now exists (c :: stem), ext.
      * intros (stem & ext & Hext & Hs). destruct stem as [|c' stem].
        -- cbn in Hs. subst ext.
           apply (reScriptPath_matchAt prev) in Hext. congruence.
        -- inversion Hs; subst. now exists stem, ext.
Qed.

Lemma chars_append (a b : string) : chars (a ++ b) = (chars a ++ chars b)%list.
Proof.
  induction a as [|c a IH]; [reflexivity|].
  unfold chars in *. cbn [append list_ascii_of_string app]. now rewrite IH.
Qed.

Lemma chars_injective (a b : string) : chars a = chars b -> a = b.
Proof.
  intros H. rewrite <- (string_of_list_ascii_of_string a),
              <- (string_of_list_ascii_of_string b).
  unfold chars in H. now rewrite H.
Qed.

(** The script pattern matches a path exactly when the path ends with
    [.ts], [.tsx], [.js] or [.jsx]. *)
Lemma isScriptFile_extension (f : ProjectFile) :
  isScriptFile f = true
  <-> exists stem ext, In ext scriptExtensions /\ path f = stem ++ ext.
Proof.
  unfold isScriptFile, test. rewrite reScriptPath_testFrom. split.
  - intros (stem & ext & Hext & Hs). apply in_map_iff in Hext as (e & <- & He).
    exists (string_of_list_ascii stem), e. split; [exact He|].
    apply chars_injective. rewrite chars_append. unfold chars at 2.
    now rewrite list_ascii_of_string_of_list_ascii.
  - intros (stem & ext & Hext & Hs). exists (chars stem), (chars ext).
    split; [now apply in_map|]. fold (chars (path f)).
    now rewrite Hs, chars_append.
Qed.

(* ------------------------------------------------------------------ *)
(** ** The preview document builder *)
(* ------------------------------------------------------------------ *)

Lemma prefix_append (n rest : string) : prefix n (n ++ rest) = true.
Proof.
  induction n as [|c n IH]; simpl; [now destruct rest|].
  destruct (ascii_dec c c); [exact IH | congruence].
Qed.

Lemma prefix_grow (n a b : string) : prefix n a = true -> prefix n (a ++ b) = true.
Proof.
  revert a. induction n as [|c n IH]; intros a; [now destruct (a ++ b)|].
  destruct a as [|c' a]; simpl; [discriminate|].
  destruct (ascii_dec c c'); [apply IH | discriminate].
Qed.

Lemma includes_here (n rest : string) : includes n (n ++ rest) = true.
Proof.
  destruct (n ++ rest) eqn:E; cbn [includes]; rewrite <- E, prefix_append;
    reflexivity.
Qed.

Lemma includes_skip (n a rest : string) :
  includes n rest = true -> includes n (a ++ rest) = true.
Proof.
  intros H. induction a as [|c a IH]; [exact H|].
  cbn [append includes]. rewrite IH. now destruct (prefix n _).
Qed.

Lemma includes_left (n a b : string) :
  includes n a = true -> includes n (a ++ b) = true.
Proof.
  induction a as [|c a IH]; intros H.
  - destruct n; [|discriminate]. now destruct b.
  - cbn [includes] in H. cbn [append includes].
    destruct (prefix n (String c a)) eqn:E.
    + change (String c (a ++ b)) with (String c a ++ b).
      now rewrite (prefix_grow _ _ b E).
    + rewrite (IH H). destruct (prefix n (String c (a ++ b))); reflexivity.
Qed.

Lemma append_assoc (a b c : string) : (a ++ b) ++ c = a ++ b ++ c.
Proof. induction a as [|x a IH]; [reflexivity|]. cbn [append]. now rewrite IH. Qed.

(** Looking for a needle in a concatenation, piece by piece. *)
Ltac find_included :=
  first [ apply includes_here
        | apply includes_left; reflexivity
        | apply includes_skip; find_included ].


(** The per-file [try] never reaches its [catch]: stripping is a total
    rewrite. *)
Lemma mapC_processFile (fs : list ProjectFile) :
  mapC processFile fs
  = Normal (map (fun f => "// File: " ++ path f ++ nl ++ stripTS (content f)) fs).
Proof.
  induction fs as [|f fs IH]; [reflexivity|].
  cbn [mapC map]. rewrite IH. reflexivity.
Qed.

Lemma previewBody_completes (p : Project) : exists doc, previewBody p = Normal doc.
Proof.
  unfold previewBody.
  destruct (Nat.eqb (List.length (filter isScriptFile (files p))) 0); [eauto|].
  rewrite mapC_processFile. cbn [andThen]. eauto.
Qed.



(** C5: when no file of the project has a path that matches the script
    pattern, the builder returns the "No React Components Found"
    document, whose file list is the paths of all the project's files,
    in order, separated by ", "; it returns it as a normal result and
    records no preview error. *)
Theorem no_components_document (st : State) (p : Project)
        (Hproj : proj st = Some p)
        (Hnone : forallb (fun f => negb (isScriptFile f)) (files p) = true) :
  buildPreview st
  = (Normal (noComponentsDocument (join ", " (map path (files p)))), st)
  /\ includes "No React Components Found"
              (noComponentsDocument (join ", " (map path (files p)))) = true
  /\ includes ("Available files: " ++ join ", " (map path (files p)) ++ "</p>")
              (noComponentsDocument (join ", " (map path (files p)))) = true.
Proof.
  assert (Hjs : filter isScriptFile (files p) = []).
  { clear Hproj. induction (files p) as [|f fs IH]; [reflexivity|].
    cbn [forallb] in Hnone. apply andb_true_iff in Hnone as [Hf Hfs].
    cbn [filter]. apply negb_true_iff in Hf. rewrite Hf. auto. }
  split; [|split].
  - unfold buildPreview. rewrite Hproj. unfold previewBody. rewrite Hjs. reflexivity.
  - unfold noComponentsDocument. find_included.
  - unfold noComponentsDocument.
    repeat (apply includes_skip;
            match goal with |- includes _ (dq ++ _) = true => idtac
                          | |- includes _ (String _ _ ++ _) = true => idtac end).
    match goal with
    | |- includes _ (?s3 ++ ?paths ++ ?s4) = true =>
        replace s3 with (substring 0 (String.length s3 - 17) s3 ++ "Available files: ")
          by reflexivity;
        replace s4 with ("</p>" ++ substring 4 (String.length s4) s4) by reflexivity
    end.
    rewrite append_assoc. apply includes_skip.
    rewrite <- !append_assoc. rewrite !append_assoc.
    rewrite <- (append_assoc _ "</p>"). rewrite <- (append_assoc "Available files: ").
    rewrite <- append_assoc.
    apply includes_here.
Qed.

Lemma no_components_document_witness :
  fst (buildPreview (afterAccept sampleClock notesProject initialState))
  = Normal (noComponentsDocument "README.md, styles.css").
Proof.
  destruct (@no_components_document
              (afterAccept sampleClock notesProject initialState) notesProject
              eq_refl eq_refl) as [H _].
  rewrite H. reflexivity.
Defined.

(* ------------------------------------------------------------------ *)
(** ** Root-component discovery *)
(* ------------------------------------------------------------------ *)

Lemma firstCandidate_earliest (w : Window) (earlier later : list string)
      (name : string) :
  forallb (fun n => negb (isFunction w n)) earlier = true ->
  isFunction w name = true ->
  firstCandidate w (earlier ++ name :: later)%list = lookup name w.
Proof.
  intros Hearlier Hname. induction earlier as [|n earlier IH].
  - cbn [app firstCandidate]. now rewrite Hname.
  - cbn [forallb] in Hearlier. apply andb_true_iff in Hearlier as [Hn Hrest].
    apply negb_true_iff in Hn. cbn [app firstCandidate]. rewrite Hn. auto.
Qed.

(** C7: when a candidate name is bound to a callable and no name before
    it in the candidate list is, discovery returns the callable bound to
    that name, whatever the names after it are bound to; in particular,
    with callables bound to both [HomePage] and [App], it returns the one
    bound to [App]. *)
Theorem root_component_priority (w : Window) (earlier later : list string)
        (name : string)
        (Hsplit : candidates = (earlier ++ name :: later)%list)
        (Hearlier : forallb (fun n => negb (isFunction w n)) earlier = true)
        (Hcallable : isFunction w name = true) :
  (exists b, lookup name w = Some b /\ typeOf b = "function"
             /\ findRootComponent w = Normal (Some b))
  /\ (forall w' app home,
         lookup "App" w' = Some app -> typeOf app = "function" ->
         lookup "HomePage" w' = Some home -> typeOf home = "function" ->
         findRootComponent w' = Normal (Some app)).
Proof.
  split.
  - unfold isFunction in Hcallable.
    destruct (lookup name w) as [b|] eqn:Hb; [|discriminate].
    apply String.eqb_eq in Hcallable. exists b. repeat split; auto.
    unfold findRootComponent. rewrite Hsplit.
    rewrite (firstCandidate_earliest w earlier later name Hearlier);
      [now rewrite Hb|].
    unfold isFunction. rewrite Hb. now apply String.eqb_eq.
  - intros w' app home Happ Hfun _ _. unfold findRootComponent, candidates.
    cbn [firstCandidate]. unfold isFunction. rewrite Happ, Hfun. reflexivity.
Qed.

Lemma root_component_priority_witness :
  findRootComponent sampleWindow = Normal (Some (mkBinding "function" 4)).
Proof.
  destruct (@root_component_priority sampleWindow ["App"] (tl (tl candidates))
              "HomePage" eq_refl eq_refl eq_refl) as [(b & Hb & _ & H) _].
  rewrite H. f_equal. f_equal. inversion Hb. reflexivity.
Defined.

(* ------------------------------------------------------------------ *)
(** ** The matcher: what a match is made of *)
(* ------------------------------------------------------------------ *)

Lemma reaches_refl (P : ascii -> bool) (st : mstate) : reaches P st st.
Proof. split; [now exists [] | auto]. Qed.

Lemma reaches_trans (P : ascii -> bool) (a b c : mstate) :
  reaches P a b -> reaches P b c -> reaches P a c.
Proof.
  intros [(p1 & E1 & H1) C1] [(p2 & E2 & H2) C2]. split.
  - exists (p1 ++ p2)%list. rewrite E1, E2, app_assoc, forallb_app, H1, H2. auto.
  - intros n t H. destruct (C2 n t H) as [H'|H']; auto.
Qed.

Lemma reaches_step (P : ascii -> bool) (st : mstate) (x : ascii) (t : text) :
  ahead st = x :: t -> P x = true -> reaches P st (step x t st).
Proof.
  intros E Hx. split; [|auto]. exists [x]. cbn. now rewrite E, Hx.
Qed.

Lemma consumed_prefix (st st' : mstate) (pre : text) :
  ahead st = (pre ++ ahead st')%list -> consumed st st' = pre.
Proof.
  intros E. unfold consumed. rewrite E, length_app.
  replace (List.length pre + List.length (ahead st') - List.length (ahead st'))
    with (List.length pre) by lia.
  rewrite firstn_app, firstn_all, Nat.sub_diag. cbn. apply app_nil_r.
Qed.

Theorem run_reaches (r : regex) :
  forall (P : ascii -> bool),
    (forall x, consumes r x = true -> P x = true) ->
    forall st st', In st' (run r st) -> reaches P st st'.
Proof.
  induction r as [|c|p|a IHa b IHb|a IHa b IHb|a IHa|n a IHa| |];
    intros P HP st st' Hin; cbn [run] in Hin.
  - destruct Hin as [<-|[]]. apply reaches_refl.
  - destruct (ahead st) as [|x t] eqn:E; [destruct Hin|].
    destruct (Ascii.eqb x c) eqn:Ex; [|destruct Hin].
    destruct Hin as [<-|[]]. apply reaches_step; [exact E|]. apply HP. exact Ex.
  - destruct (ahead st) as [|x t] eqn:E; [destruct Hin|].
    destruct (p x) eqn:Ex; [|destruct Hin].
    destruct Hin as [<-|[]]. apply reaches_step; [exact E|]. apply HP. exact Ex.
  - apply in_flat_map in Hin as (mid & Hmid & Hin).
    apply reaches_trans with mid.
    + apply IHa; [|exact Hmid]. intros x Hx. apply HP. cbn. now rewrite Hx.
    + apply IHb; [|exact Hin]. intros x Hx. apply HP. cbn. rewrite Hx. apply orb_true_r.
  - apply in_app_or in Hin as [Hin|Hin].
    + apply IHa; [|exact Hin]. intros x Hx. apply HP. cbn. now rewrite Hx.
    + apply IHb; [|exact Hin]. intros x Hx. apply HP. cbn. rewrite Hx. apply orb_true_r.
  - assert (Hloop : forall fuel s s',
               In s' ((fix loop (fuel : nat) (s : mstate) {struct fuel} : list mstate :=
                         match fuel with
                         | 0 => [s]
                         | S fuel' =>
                             (flat_map
                                (fun s'0 =>
                                   if Nat.ltb (List.length (ahead s'0))
                                              (List.length (ahead s))
                                   then loop fuel' s'0 else [])
                                (run a s) ++ [s])%list
                         end) fuel s) ->
               reaches P s s').
    { induction fuel as [|fuel IHf]; intros s s' H.
      - destruct H as [<-|[]]. apply reaches_refl.
      - apply in_app_or in H as [H|[<-|[]]]; [|apply reaches_refl].
        apply in_flat_map in H as (mid & Hmid & H).
        destruct (Nat.ltb (List.length (ahead mid)) (List.length (ahead s)));
          [|destruct H].
        apply reaches_trans with mid; [|now apply IHf].
        apply IHa; [exact HP | exact Hmid]. }
    apply (Hloop (S (List.length (ahead st)))). exact Hin.
  - apply in_map_iff in Hin as (s' & <- & Hs').
    specialize (IHa P HP st s' Hs'). destruct IHa as [(pre & E & Hpre) C].
    split; cbn [ahead captures].
    + now exists pre.
    + intros k t [Hk|Hk]; [|now apply C].
      inversion Hk; subst. right. now rewrite (consumed_prefix _ _ _ E).
  - destruct (xorb _ _); [|destruct Hin]. destruct Hin as [<-|[]]. apply reaches_refl.
  - destruct (ahead st); [|destruct Hin]. destruct Hin as [<-|[]]. apply reaches_refl.
Qed.

Lemma group_forallb (P : ascii -> bool) (n : nat) (gs : list (nat * text)) :
  (forall k t, In (k, t) gs -> forallb P t = true) ->
  forallb P (group n gs) = true.
Proof.
  induction gs as [|[k t] gs IH]; intros H; [reflexivity|].
  cbn [group]. destruct (Nat.eqb k n).
  - apply (H k t). now left.
  - apply IH. intros k' t' Hin. apply (H k' t'). now right.
Qed.

(** A match splits the text it was found in; its characters, and those
    of its captures, are characters the pattern can consume. *)
Lemma matchAt_split (r : regex) (P : ascii -> bool) (prev : option ascii)
      (s : text) (m : Match) :
  (forall x, consumes r x = true -> P x = true) ->
  matchAt r prev s = Some m ->
  s = (matched m ++ ahead (after m))%list
  /\ forallb P (matched m) = true
  /\ forall n, forallb P (group n (groups m)) = true.
Proof.
  intros HP. unfold matchAt.
  destruct (run r (mkM prev s [])) as [|st' rest] eqn:E; [discriminate|].
  intros H. inversion H; subst m. clear H. cbn [matched groups after].
  assert (Hin : In st' (run r (mkM prev s []))) by (rewrite E; now left).
  destruct (run_reaches r P HP _ _ Hin) as [(pre & Hs & Hpre) C].
  cbn [ahead captures] in *.
  rewrite (@consumed_prefix (mkM prev s []) st' pre Hs).
  split; [exact Hs|]. split; [exact Hpre|].
  intros n. apply group_forallb. intros k t Hk.
  destruct (C k t Hk) as [[]|Ht]. exact Ht.
Qed.

(* ------------------------------------------------------------------ *)
(** ** Rewrites: text without a match, and the brackets of a text *)
(* ------------------------------------------------------------------ *)

Lemma replaceFrom_no_match (r : regex) (repl : Match -> text) :
  forall fuel prev s,
    testFrom r prev s = false -> replaceFrom fuel r repl prev s = s.
Proof.
  induction fuel as [|fuel IH]; intros prev s H; [reflexivity|].
  destruct s as [|c t]; cbn [testFrom] in H; cbn [replaceFrom];
    destruct (matchAt r prev _); try discriminate; [reflexivity|].
  now rewrite IH.
Qed.

Lemma rewrite_no_match (rw : Rewrite) (t : text) :
  matchesSomewhere (pattern rw) t = false -> applyRewrite rw t = t.
Proof. apply replaceFrom_no_match. Qed.

Lemma brackets_app (a b : text) :
  brackets (a ++ b)%list = (brackets a ++ brackets b)%list.
Proof. apply filter_app. Qed.

Lemma brackets_none (t : text) : forallb notBracket t = true -> brackets t = [].
Proof.
  induction t as [|x t IH]; [reflexivity|]. cbn [forallb brackets filter].
  unfold notBracket at 1. intros H. apply andb_true_iff in H as [Hx Ht].
  apply negb_true_iff in Hx. rewrite Hx. now apply IH.
Qed.

Lemma replaceFrom_brackets (r : regex) (repl : Match -> text) :
  (forall prev s m, matchAt r prev s = Some m ->
                    brackets (repl m) = brackets (matched m)) ->
  forall fuel prev s, brackets (replaceFrom fuel r repl prev s) = brackets s.
Proof.
  intros Hrepl. induction fuel as [|fuel IH]; intros prev s; [reflexivity|].
  cbn [replaceFrom]. destruct (matchAt r prev s) as [m|] eqn:E.
  - pose proof (Hrepl _ _ _ E) as Hb.
    destruct (@matchAt_split r (consumes r) prev s m (fun _ H => H) E) as [Hs _].
    destruct (matched m) as [|x xs] eqn:Em.
    + rewrite brackets_app, Hb. cbn [brackets filter app].
      destruct s as [|c t]; [reflexivity|].
      
      change (c :: replaceFrom fuel r repl (Some c) t)
        with ([c] ++ replaceFrom fuel r repl (Some c) t)%list.
      change (c :: t) with ([c] ++ t)%list.
      now rewrite !brackets_app, IH.
    + rewrite brackets_app, Hb, IH. rewrite Hs. now rewrite brackets_app.
  - destruct s as [|c t]; [reflexivity|].
    change (c :: replaceFrom fuel r repl (Some c) t)
      with ([c] ++ replaceFrom fuel r repl (Some c) t)%list.
    change (c :: t) with ([c] ++ t)%list.
    now rewrite !brackets_app, IH.
Qed.

(** Every character is in [allAscii], so a check on all of [allAscii]
    is a check on every character. *)
Lemma allAscii_complete (f : ascii -> bool) :
  forallb f allAscii = true -> forall x, f x = true.
Proof.
  intros H x. rewrite forallb_forall in H. apply H.
  unfold allAscii. apply in_map_iff. exists (nat_of_ascii x).
  split; [apply ascii_nat_embedding|].
  apply in_seq. pose proof (nat_ascii_bounded x). lia.
Qed.

Lemma consumes_within (r : regex) (P : ascii -> bool) :
  forallb (fun x => implb (consumes r x) (P x)) allAscii = true ->
  forall x, consumes r x = true -> P x = true.
Proof.
  intros H x Hx. pose proof (allAscii_complete _ H x) as Hi. cbv beta in Hi.
  now rewrite Hx in Hi.
Qed.

(** A rewrite whose pattern consumes no bracket and whose replacement is
    made of bracket-free text and captures keeps the brackets. *)
Lemma rewrite_brackets_kept (rw : Rewrite) :
  forallb (fun x => implb (consumes (pattern rw) x) (notBracket x)) allAscii = true ->
  (forall m, (forall n, forallb notBracket (group n (groups m)) = true) ->
             forallb notBracket (replacement rw m) = true) ->
  forall t, brackets (applyRewrite rw t) = brackets t.
Proof.
  intros Hc Hrepl t. unfold applyRewrite, replaceAll. apply replaceFrom_brackets.
  intros prev s m E.
  destruct (@matchAt_split (pattern rw) notBracket prev s m (consumes_within _ _ Hc) E)
    as (_ & Hm & Hg).
  rewrite (brackets_none _ Hm). apply brackets_none. now apply Hrepl.
Qed.

Lemma replaceFirstFrom_brackets (r : regex) (Q : ascii -> bool) :
  (forall x, consumes r x = true -> Q x = true -> notBracket x = true) ->
  forall s prev,
    forallb Q s = true ->
    brackets (replaceFirstFrom r toNothing prev s) = brackets s.
Proof.
  intros HQ. induction s as [|c t IH]; intros prev Hs.
  - cbn [replaceFirstFrom]. destruct (matchAt r prev []) as [m|] eqn:E; [|reflexivity].
    destruct (@matchAt_split r (consumes r) prev [] m (fun _ H => H) E) as (Hsplit & _).
    symmetry in Hsplit. apply app_eq_nil in Hsplit as [_ ->]. reflexivity.
  - cbn [replaceFirstFrom]. destruct (matchAt r prev (c :: t)) as [m|] eqn:E.
    + destruct (@matchAt_split r (consumes r) prev (c :: t) m (fun _ H => H) E)
        as (Hsplit & Hm & _).
      cbn [toNothing app]. rewrite Hsplit at 1. rewrite brackets_app.
      rewrite Hsplit, forallb_app in Hs. apply andb_true_iff in Hs as [HsQ _].
      assert (Hnb : brackets (matched m) = []).
      { apply brackets_none. rewrite forallb_forall in *.
        intros x Hx. apply HQ; auto. }
      now rewrite Hnb.
    + cbn [forallb] in Hs. apply andb_true_iff in Hs as [_ Ht].
      change (c :: replaceFirstFrom r toNothing (Some c) t)
        with ([c] ++ replaceFirstFrom r toNothing (Some c) t)%list.
      change (c :: t) with ([c] ++ t)%list.
      now rewrite !brackets_app, IH.
Qed.

Lemma annotation_brackets_kept (t : text) :
  brackets (applyRewrite rwAnnotation t) = brackets t.
Proof.
  unfold applyRewrite, replaceAll. apply replaceFrom_brackets.
  intros prev s m E. cbn [replacement rwAnnotation].
  unfold dropAnnotationBody, replaceFirst.
  destruct (@matchAt_split _ (consumes reAnnotation) prev s m (fun _ H => H) E)
    as (_ & Hm & _).
  apply replaceFirstFrom_brackets with (Q := consumes reAnnotation); [|exact Hm].
  intros x H1 H2.
  assert (H : forallb (fun x => implb (consumes reAnnotationBody x
                                       && consumes reAnnotation x)
                                      (notBracket x)) allAscii = true)
    by (vm_compute; reflexivity).
  pose proof (allAscii_complete _ H x) as Hi. cbv beta in Hi.
  now rewrite H1, H2 in Hi.
Qed.

Lemma toNothing_notBracket (m : Match) : forallb notBracket (toNothing m) = true.
Proof. reflexivity. Qed.

Lemma keywordAndName_notBracket (keyword : string) (m : Match) :
  forallb notBracket (chars keyword) = true ->
  (forall n, forallb notBracket (group n (groups m)) = true) ->
  forallb notBracket (keywordAndName keyword m) = true.
Proof.
  intros Hk Hg. unfold keywordAndName. rewrite !forallb_app, Hk, Hg. reflexivity.
Qed.

Lemma nameAndSpace_notBracket (m : Match) :
  (forall n, forallb notBracket (group n (groups m)) = true) ->
  forallb notBracket (nameAndSpace m) = true.
Proof. intros Hg. unfold nameAndSpace. rewrite forallb_app, Hg. reflexivity. Qed.

Lemma export_keyword_brackets_kept (rw : Rewrite) (t : text) :
  In rw exportKeywordRewrites -> brackets (applyRewrite rw t) = brackets t.
Proof.
  intros Hin. apply rewrite_brackets_kept;
    cbn [exportKeywordRewrites In] in Hin;
    destruct Hin as [<-|[<-|[<-|[<-|[<-|[]]]]]];
    try (vm_compute; reflexivity); intros m Hg; cbn [replacement
      rwExportDefaultFunction rwExportDefaultClass rwExportDefaultConst
      rwExportDefault rwExportModifier];
    first [ apply toNothing_notBracket
          | apply nameAndSpace_notBracket; exact Hg
          | apply keywordAndName_notBracket; [reflexivity | exact Hg] ].
Qed.

Lemma filter_brackets (c : string) (t : text) :
  forallb (fun x => implb (oneOf c x) (isBracket x)) allAscii = true ->
  filter (oneOf c) (brackets t) = filter (oneOf c) t.
Proof.
  intros H. induction t as [|x t IH]; [reflexivity|].
  cbn [brackets filter]. fold (brackets t).
  pose proof (allAscii_complete _ H x) as Hx. cbv beta in Hx.
  destruct (isBracket x) eqn:Eb; cbn [filter].
  - now rewrite IH.
  - destruct (oneOf c x); [discriminate | exact IH].
Qed.

Lemma occurrences_brackets (c : string) (t : text) :
  forallb (fun x => implb (oneOf c x) (isBracket x)) allAscii = true ->
  occurrences c (string_of_list_ascii t)
  = List.length (filter (oneOf c) (brackets t)).
Proof.
  intros H. unfold occurrences, chars.
  now rewrite list_ascii_of_string_of_list_ascii, filter_brackets.
Qed.

(** Texts with the same brackets are as far from balance as each
    other. *)
Lemma imbalance_brackets (t u : text) :
  brackets t = brackets u ->
  imbalance (string_of_list_ascii t) = imbalance (string_of_list_ascii u).
Proof.
  intros H. unfold imbalance.
  rewrite !occurrences_brackets by (vm_compute; reflexivity).
  now rewrite H.
Qed.

(* ------------------------------------------------------------------ *)
(** ** The syntax stripper *)
(* ------------------------------------------------------------------ *)

(** C6, as stated, fails: a second pass of the annotation rewrite, of
    the export-modifier rewrite, or of [stripTS] as a whole can change
    what the first pass returned; and [stripTS] turns balanced source
    into unbalanced text when an import has no semicolon. *)
Lemma stripping_not_idempotent_not_balanced :
  (onString (applyRewrite rwAnnotation) "x: a: b;" = "x: a;"
   /\ onString (applyRewrite rwAnnotation) "x: a;" = "x;"
   /\ onString (applyRewrite rwAnnotation)
                (onString (applyRewrite rwAnnotation) "x: a: b;")
      <> onString (applyRewrite rwAnnotation) "x: a: b;")
  /\ (onString (applyRewrite rwExportModifier) "export export const x"
      = "export const x"
      /\ onString (applyRewrite rwExportModifier) "export const x" = "const x"
      /\ onString (applyRewrite rwExportModifier)
                   (onString (applyRewrite rwExportModifier) "export export const x")
         <> onString (applyRewrite rwExportModifier) "export export const x")
  /\ stripTS (stripTS "x: a: b;") <> stripTS "x: a: b;"
  /\ (imbalance importExample = 0
      /\ stripTS importExample = " }"
      /\ imbalance (stripTS importExample) = 1
      /\ ~ imbalance (stripTS importExample) <= imbalance importExample).
Proof.
  repeat split; try (vm_compute; reflexivity);
    try (vm_compute; discriminate).
  vm_compute. lia.
Qed.

(** C6, amended: each of the annotation and export rewrites leaves text
    without a match of its pattern unchanged, so a second pass changes
    nothing whenever the first pass left no match behind; and the
    annotation rewrite and the rewrites that drop the [export] and
    [export default] keywords keep every brace and parenthesis of the
    text, in order, so the text is exactly as far from balance after
    them as before. *)
Theorem stripping_fixed_points_and_brackets (rw : Rewrite) (s : string)
        (Hrule : In rw (rwAnnotation :: exportRewrites)) :
  (matchesSomewhere (pattern rw) (chars s) = false ->
   onString (applyRewrite rw) s = s)
  /\ (matchesSomewhere (pattern rw) (applyRewrite rw (chars s)) = false ->
      onString (applyRewrite rw) (onString (applyRewrite rw) s) = onString (applyRewrite rw) s)
  /\ (In rw (rwAnnotation :: exportKeywordRewrites) ->
      brackets (applyRewrite rw (chars s)) = brackets (chars s)
      /\ imbalance (onString (applyRewrite rw) s) = imbalance s).
Proof.
  split; [|split].
  - intros H. unfold onString. rewrite (rewrite_no_match _ _ H).
    apply string_of_list_ascii_of_string.
  - intros H. unfold onString.
    replace (chars (string_of_list_ascii (applyRewrite rw (chars s))))
      with (applyRewrite rw (chars s))
      by (unfold chars; now rewrite list_ascii_of_string_of_list_ascii).
    now rewrite (rewrite_no_match _ _ H).
  - intros Hkeep.
    assert (Hb : brackets (applyRewrite rw (chars s)) = brackets (chars s)).
    { destruct Hkeep as [<-|Hkeep];
        [apply annotation_brackets_kept | now apply export_keyword_brackets_kept]. }
    split; [exact Hb|]. unfold onString.
    rewrite (imbalance_brackets _ _ Hb). unfold chars.
    now rewrite string_of_list_ascii_of_string.
Qed.

Lemma stripping_fixed_points_and_brackets_witness :
  onString (applyRewrite rwAnnotation) "const f = (a: string, b: number[]) => {}"
  = "const f = (a, b) => {}"
  /\ brackets (applyRewrite rwAnnotation
                 (chars "const f = (a: string, b: number[]) => {}"))
     = chars "(){}"
  /\ onString (applyRewrite rwAnnotation) "const f = (a, b) => {}"
     = "const f = (a, b) => {}".
Proof.
  destruct (@stripping_fixed_points_and_brackets rwAnnotation
              "const f = (a: string, b: number[]) => {}" (or_introl eq_refl))
    as (_ & _ & Hkeep).
  destruct (Hkeep (or_introl eq_refl)) as [Hb _].
  destruct (@stripping_fixed_points_and_brackets rwAnnotation
              "const f = (a, b) => {}" (or_introl eq_refl))
    as (Hfix & _ & _).
  split; [reflexivity|]. split; [rewrite Hb; reflexivity|].
  apply Hfix. reflexivity.
Defined.


(* ------------------------------------------------------------------ *)
(** ** The smart file selection *)
(* ------------------------------------------------------------------ *)

Lemma substring_includes (t s : string) :
  forall k, substring k (String.length t) s = t -> includes t s = true.
Proof.
  induction s as [|c s IH]; intros k H.
  - destruct k, t; simpl in H; try discriminate; reflexivity.
  - cbn [includes]. destruct k as [|k].
    + apply prefix_correct in H. now rewrite H.
    + cbn [substring] in H. rewrite (IH k H). now destruct (prefix t (String c s)).
Qed.

Lemma endsWith_includes (suffix s : string) :
  endsWith suffix s = true -> includes suffix s = true.
Proof.
  unfold endsWith. intros H. apply andb_true_iff in H as [_ H].
  apply String.eqb_eq in H. eapply substring_includes. exact H.
Qed.

Lemma firstFound_found (ps : list (ProjectFile -> bool)) (fs : list ProjectFile)
      (f : ProjectFile) :
  firstFound ps fs = Some f ->
  In f fs /\ exists priority, In priority ps /\ priority f = true.
Proof.
  induction ps as [|p ps IH]; [discriminate|]. cbn [firstFound].
  destruct (find p fs) as [found|] eqn:E.
  - intros H. inversion H; subst found. apply find_some in E as [Hin Hp].
    split; [exact Hin|]. exists p. split; [now left | exact Hp].
  - intros H. destruct (IH H) as [Hin (q & Hq & Hqf)].
    split; [exact Hin|]. exists q. split; [now right | exact Hqf].
Qed.

Lemma firstFound_none (ps : list (ProjectFile -> bool)) (fs : list ProjectFile) :
  (forall priority f, In priority ps -> In f fs -> priority f = false) ->
  firstFound ps fs = None.
Proof.
  induction ps as [|p ps IH]; intros H; [reflexivity|]. cbn [firstFound].
  destruct (find p fs) as [found|] eqn:E.
  - apply find_some in E as [Hin Hp]. rewrite (H p found) in Hp; [discriminate| |];
      [now left | exact Hin].
  - apply IH. intros q f Hq Hf. apply H; [now right | exact Hf].
Qed.

(** Every priority asks for [.tsx] somewhere in the path, or for
    [.jsx] at its end. *)
Lemma priorities_need_tsx_or_jsx (priority : ProjectFile -> bool) (f : ProjectFile) :
  In priority priorities -> priority f = true ->
  includes ".tsx" (path f) = true \/ endsWith ".jsx" (path f) = true.
Proof.
  unfold priorities. cbn [In].
  intros [<-|[<-|[<-|[<-|[<-|[<-|[<-|[<-|[]]]]]]]]] H.
  - apply String.eqb_eq in H. rewrite H. now left.
  - apply String.eqb_eq in H. rewrite H. now left.
  - apply String.eqb_eq in H. rewrite H. now left.
  - apply andb_true_iff in H as [_ H]. now left.
  - apply andb_true_iff in H as [_ H]. now left.
  - apply andb_true_iff in H as [_ H]. now left.
  - left. now apply endsWith_includes.
  - now right.
Qed.

Lemma find_nothing (priority : ProjectFile -> bool) (fs : list ProjectFile) :
  (forall g, In g fs -> priority g = false) -> find priority fs = None.
Proof.
  induction fs as [|f fs IH]; intros H; [reflexivity|]. cbn [find].
  rewrite (H f (or_introl eq_refl)). apply IH. intros g Hg. apply H. now right.
Qed.

(** The loop stops at the first priority that finds a file. *)
Lemma firstFound_earliest (before after : list (ProjectFile -> bool))
      (priority : ProjectFile -> bool) (fs : list ProjectFile) (f : ProjectFile) :
  (forall earlier g, In earlier before -> In g fs -> earlier g = false) ->
  find priority fs = Some f ->
  firstFound (before ++ priority :: after) fs = Some f.
Proof.
  induction before as [|q before IH]; intros Hnone Hfind.
  - cbn [app firstFound]. now rewrite Hfind.
  - cbn [app firstFound]. rewrite find_nothing.
    + apply IH; [|exact Hfind]. intros earlier g He Hg. apply Hnone; [now right | exact Hg].
    + intros g Hg. apply Hnone; [now left | exact Hg].
Qed.

Lemma firstFound_finds (ps : list (ProjectFile -> bool)) (fs : list ProjectFile)
      (priority : ProjectFile -> bool) (g : ProjectFile) :
  In priority ps -> In g fs -> priority g = true ->
  exists f, firstFound ps fs = Some f.
Proof.
  induction ps as [|q ps IH]; intros Hp Hg Hpg; [destruct Hp|]. cbn [firstFound].
  destruct (find q fs) as [found|] eqn:E; [eauto|].
  destruct Hp as [->|Hp]; [|now apply IH].
  apply (find_none _ _ E) in Hg. congruence.
Qed.

(** X1: the selection made for a project with at least one file is one
    of its files.  It is the first file, in the order of the files, that
    satisfies the earliest of the eight priorities any file satisfies,
    and the first file of the project when no file satisfies any.  So
    [app/page.tsx] is selected wherever it stands among the files; and
    whenever some path ends with [.tsx] or [.jsx], the file selected has
    [.tsx] in its path or [.jsx] at its end. *)
Theorem smartSelection_spec (fs : list ProjectFile) (Hfiles : fs <> []) :
  (exists f, smartSelection fs = Some f /\ In f fs)
  /\ (forall before priority after f,
         priorities = (before ++ priority :: after)%list ->
         (forall earlier g, In earlier before -> In g fs -> earlier g = false) ->
         find priority fs = Some f ->
         smartSelection fs = Some f)
  /\ ((forall priority g, In priority priorities -> In g fs -> priority g = false) ->
      smartSelection fs = hd_error fs)
  /\ (forall f, find (fun g => String.eqb (path g) "app/page.tsx") fs = Some f ->
                smartSelection fs = Some f)
  /\ (forall g, In g fs ->
                endsWith ".tsx" (path g) || endsWith ".jsx" (path g) = true ->
                exists f, smartSelection fs = Some f
                          /\ (includes ".tsx" (path f) = true
                              \/ endsWith ".jsx" (path f) = true)).
Proof.
  split; [|split; [|split; [|split]]].
  - unfold smartSelection. destruct (firstFound priorities fs) as [f|] eqn:E.
    + exists f. split; [reflexivity|]. now apply firstFound_found in E.
    + destruct fs as [|f fs]; [congruence|]. exists f. split; [reflexivity | now left].
  - intros before priority after f Hps Hnone Hfind. unfold smartSelection.
    rewrite Hps, (firstFound_earliest before after priority fs Hnone Hfind).
    reflexivity.
  - intros H. unfold smartSelection. now rewrite (firstFound_none _ _ H).
  - intros f H. unfold smartSelection, priorities. cbn [firstFound]. now rewrite H.
  - intros g Hg Hends.
    assert (Hp : exists priority, In priority priorities /\ priority g = true).
    { apply orb_true_iff in Hends as [H|H].
      - exists (fun f => endsWith ".tsx" (path f)). split; [|exact H].
        unfold priorities. cbn [In]. do 6 right. now left.
      - exists (fun f => endsWith ".jsx" (path f)). split; [|exact H].
        unfold priorities. cbn [In]. do 7 right. now left. }
    destruct Hp as (priority & Hp & Hpg).
    destruct (firstFound_finds priorities fs priority g Hp Hg Hpg) as [f Hf].
    exists f. unfold smartSelection. rewrite Hf. split; [reflexivity|].
    apply firstFound_found in Hf as [_ (q & Hq & Hqf)].
    exact (@priorities_need_tsx_or_jsx q f Hq Hqf).
Qed.

Lemma smartSelection_spec_witness :
  smartSelection [ mkFile "notes.md" "n" "doc"; mkFile "src/Button.tsx" "b" "component";
                   mkFile "src/Card.tsx" "c" "component" ]
  = Some (mkFile "src/Button.tsx" "b" "component").
Proof.
  destruct (@smartSelection_spec
              [ mkFile "notes.md" "n" "doc"; mkFile "src/Button.tsx" "b" "component";
                mkFile "src/Card.tsx" "c" "component" ])
    as (_ & H & _); [discriminate|].
  apply (H (firstn 6 priorities) (fun f => endsWith ".tsx" (path f))
           (skipn 7 priorities)); [reflexivity | | reflexivity].
  intros earlier g Hearlier Hg. cbn [firstn priorities In] in Hearlier, Hg.
  destruct Hg as [<-|[<-|[<-|[]]]];
    destruct Hearlier as [<-|[<-|[<-|[<-|[<-|[<-|[]]]]]]]; reflexivity.
Defined.

(* ------------------------------------------------------------------ *)
(** ** The code view *)
(* ------------------------------------------------------------------ *)

Lemma splitOn_not_nil (sep : ascii) (s : string) : splitOn sep s <> [].
Proof.
  induction s as [|c s IH]; cbn [splitOn]; [discriminate|].
  destruct (Ascii.eqb c sep); [discriminate|].
  destruct (splitOn sep s); discriminate.
Qed.

Lemma pop_cons (x : string) (xs : list string) : xs <> [] -> pop (x :: xs) = pop xs.
Proof. destruct xs; [congruence | reflexivity]. Qed.

Lemma splitOn_without (sep : ascii) (s : string) :
  holds sep s = false -> splitOn sep s = [ s ].
Proof.
  induction s as [|c s IH]; [reflexivity|]. unfold holds. cbn.
  intros H. apply orb_false_iff in H as [Hc Hs].
  rewrite Ascii.eqb_sym, Hc. now rewrite (IH Hs).
Qed.

Lemma splitOn_two (sep : ascii) (a b : string) :
  exists x y rest, splitOn sep (a ++ String sep b) = x :: y :: rest.
Proof.
  induction a as [|c a (x & y & rest & IH)]; cbn [append splitOn].
  - rewrite Ascii.eqb_refl. destruct (splitOn sep b) as [|y rest] eqn:E;
      [now apply splitOn_not_nil in E|]. eauto.
  - rewrite IH. destruct (Ascii.eqb c sep); eauto.
Qed.

(** [split] then [pop] gives what follows the last separator. *)
Lemma pop_splitOn_append (sep : ascii) (a b : string) :
  pop (splitOn sep (a ++ String sep b)) = pop (splitOn sep b).
Proof.
  induction a as [|c a IH]; cbn [append splitOn].
  - rewrite Ascii.eqb_refl. apply pop_cons, splitOn_not_nil.
  - destruct (splitOn_two sep a b) as (x & y & rest & E).
    destruct (Ascii.eqb c sep).
    + rewrite pop_cons by apply splitOn_not_nil. exact IH.
    + rewrite <- IH, E. reflexivity.
Qed.

Lemma getLanguage_after_dot (stem ext : string) :
  holds dot ext = false ->
  pop (splitOn dot (stem ++ String dot ext)) = Some ext
  /\ pop (splitOn dot ext) = Some ext
  /\ getLanguage (stem ++ String dot ext) = getLanguage ext.
Proof.
  intros Hext.
  assert (H : pop (splitOn dot ext) = Some ext)
    by now rewrite (splitOn_without dot ext Hext).
  assert (H' : pop (splitOn dot (stem ++ String dot ext)) = Some ext)
    by now rewrite pop_splitOn_append.
  repeat split; auto. unfold getLanguage. now rewrite H, H'.
Qed.

(** X2: [getLanguage] looks only at what follows the last full stop: for
    a text [ext] without a full stop, a path [stem.ext] gets the language
    of [ext], whatever [stem] is, and a path without any full stop is
    taken as its own extension. *)
Theorem getLanguage_last_segment (stem ext : string)
        (Hext : holds dot ext = false) :
  pop (splitOn dot (stem ++ String dot ext)) = Some ext
  /\ pop (splitOn dot ext) = Some ext
  /\ getLanguage (stem ++ String dot ext) = getLanguage ext.
Proof. now apply getLanguage_after_dot. Qed.

Lemma getLanguage_last_segment_witness :
  getLanguage "src/components/Button.test.tsx" = getLanguage "tsx"
  /\ getLanguage "tsx" = "typescript".
Proof.
  split; [|reflexivity].
  apply (@getLanguage_last_segment "src/components/Button.test" "tsx" eq_refl).
Defined.

(** X3: the files [buildPreview] takes for scripts are shown as code of
    the matching language: a path ending in [.ts] or [.tsx] gets
    "typescript", one ending in [.js] or [.jsx] gets "javascript". *)
Theorem script_files_language (f : ProjectFile) (Hscript : isScriptFile f = true) :
  exists stem ext,
    path f = stem ++ ext
    /\ ((In ext [ ".ts"; ".tsx" ] /\ getLanguage (path f) = "typescript")
        \/ (In ext [ ".js"; ".jsx" ] /\ getLanguage (path f) = "javascript")).
Proof.
  apply isScriptFile_extension in Hscript as (stem & ext & Hext & Hpath).
  exists stem, ext. split; [exact Hpath|]. rewrite Hpath.
  cbn [scriptExtensions In] in Hext.
  destruct Hext as [<-|[<-|[<-|[<-|[]]]]].
  - left. split; [now left|].
    now destruct (@getLanguage_after_dot stem "ts" eq_refl) as (_ & _ & H).
  - left. split; [right; now left|].
    now destruct (@getLanguage_after_dot stem "tsx" eq_refl) as (_ & _ & H).
  - right. split; [now left|].
    now destruct (@getLanguage_after_dot stem "js" eq_refl) as (_ & _ & H).
  - right. split; [right; now left|].
    now destruct (@getLanguage_after_dot stem "jsx" eq_refl) as (_ & _ & H).
Qed.

Lemma script_files_language_witness :
  getLanguage (path appFile) = "typescript".
Proof.
  destruct (@script_files_language appFile eq_refl)
    as (stem & ext & _ & [[_ H]|[_ H]]); [exact H | reflexivity].
Defined.

(* ------------------------------------------------------------------ *)
(** ** The file explorer *)
(* ------------------------------------------------------------------ *)

Lemma has_app (x : string) (s t : StringSet) :
  has x (s ++ t)%list = has x s || has x t.
Proof. apply existsb_app. Qed.

Lemma has_delete (x y : string) (s : StringSet) :
  has y (delete x s) = negb (String.eqb x y) && has y s.
Proof.
  unfold has, delete. induction s as [|z s IH]; [now rewrite andb_false_r|].
  cbn [filter existsb].
  destruct (String.eqb_spec x z) as [Hxz|Hxz]; cbn [negb existsb]; rewrite IH;
    destruct (String.eqb_spec y z) as [Hyz|Hyz];
    destruct (String.eqb_spec x y) as [Hxy|Hxy];
    cbn [negb andb orb]; try congruence; try reflexivity.
Qed.

Lemma has_toggleFolder (x y : string) (s : StringSet) :
  has y (toggleFolder x s) = if String.eqb x y then negb (has y s) else has y s.
Proof.
  unfold toggleFolder, add. destruct (has x s) eqn:E.
  - rewrite has_delete. destruct (String.eqb_spec x y) as [->|Hxy]; cbn [negb andb].
    + now rewrite E.
    + reflexivity.
  - rewrite has_app. unfold has at 2. cbn [existsb]. rewrite orb_false_r.
    destruct (String.eqb_spec x y) as [->|Hxy].
    + rewrite E, String.eqb_refl. reflexivity.
    + destruct (String.eqb_spec y x); [congruence|]. apply orb_false_r.
Qed.

(** X4: toggling a folder flips whether it is expanded and leaves every
    other folder as it was; toggling it twice leaves every folder as it
    was. *)
Theorem toggleFolder_flips_one (folderPath other : string)
        (expandedFolders : StringSet) :
  has folderPath (toggleFolder folderPath expandedFolders)
  = negb (has folderPath expandedFolders)
  /\ (other <> folderPath ->
      has other (toggleFolder folderPath expandedFolders) = has other expandedFolders)
  /\ has other (toggleFolder folderPath (toggleFolder folderPath expandedFolders))
     = has other expandedFolders.
Proof.
  split; [|split].
  - now rewrite has_toggleFolder, String.eqb_refl.
  - intros H. rewrite has_toggleFolder.
    destruct (String.eqb_spec folderPath other); [congruence | reflexivity].
  - rewrite !has_toggleFolder.
    destruct (String.eqb folderPath other); [apply negb_involutive | reflexivity].
Qed.

Lemma toggleFolder_flips_one_witness :
  has "app" (toggleFolder "app" initialExpanded) = false
  /\ has "src" (toggleFolder "app" initialExpanded) = has "src" initialExpanded.
Proof.
  destruct (@toggleFolder_flips_one "app" "src" initialExpanded) as (H1 & H2 & _).
  split; [exact H1 | apply H2; discriminate].
Defined.

(** *** The tree *)

Lemma assoc_assign_same (k : string) (v : value) (props : list (string * value)) :
  assoc k (assign k v props) = Some v.
Proof.
  induction props as [|[k' v'] props IH]; cbn [assign assoc].
  - now rewrite String.eqb_refl.
  - destruct (String.eqb k k') eqn:E; cbn [assoc].
    + now rewrite String.eqb_refl.
    + now rewrite E.
Qed.

Lemma assoc_assign_other (k k' : string) (v : value) (props : list (string * value)) :
  k <> k' -> assoc k' (assign k v props) = assoc k' props.
Proof.
  intros H. induction props as [|[j w] props IH]; cbn [assign assoc].
  - destruct (String.eqb_spec k' k); [congruence | reflexivity].
  - destruct (String.eqb_spec k j) as [->|Hkj]; cbn [assoc].
    + destruct (String.eqb_spec k' j); [congruence | reflexivity].
    + now rewrite IH.
Qed.

Lemma getProp_setProp_same (props : list (string * value)) (k : string) (v : value) :
  getProp (VObject (assign k v props)) k = v.
Proof. cbn [getProp]. now rewrite assoc_assign_same. Qed.

Lemma getProp_setProp_other (props : list (string * value)) (k k' : string)
      (v : value) :
  k <> k' ->
  getProp (VObject (assign k v props)) k' = getProp (VObject props) k'.
Proof. intros H. cbn [getProp]. now rewrite assoc_assign_other. Qed.

Lemma lookupPath_undefined (names : list string) :
  names <> [] -> lookupPath (VObject []) names = VUndefined.
Proof.
  destruct names as [|n names]; [congruence|]. intros _. cbn [lookupPath].
  change (getProp (VObject []) n) with VUndefined.
  induction names as [|m names IH]; [reflexivity | exact IH].
Qed.

Lemma lookupPath_not_object (v : value) (names : list string) :
  names <> [] -> (forall props, v <> VObject props) -> lookupPath v names = VUndefined.
Proof.
  destruct names as [|n names]; [congruence|]. intros _ Hv. cbn [lookupPath].
  replace (getProp v n) with VUndefined
    by (destruct v; try reflexivity; now destruct (Hv props)).
  induction names as [|m names IH]; [reflexivity | exact IH].
Qed.

Lemma lookupPath_app (v : value) (a b : list string) :
  lookupPath v (a ++ b)%list = lookupPath (lookupPath v a) b.
Proof.
  revert v. induction a as [|n a IH]; intros v; [reflexivity|]. cbn. apply IH.
Qed.

Lemma place_unfold (part next : string) (rest : list string) (file : value)
      (props : list (string * value)) :
  place (part :: next :: rest) file (VObject props)
  = match assoc part props with
    | Some child =>
        match place (next :: rest) file (if truthy child then child else VObject []) with
        | Built child' => Built (setProp (VObject props) part child')
        | LeftTree => LeftTree
        end
    | None =>
        if inherited part then LeftTree
        else match place (next :: rest) file (VObject []) with
             | Built child' => Built (setProp (VObject props) part child')
             | LeftTree => LeftTree
             end
    end.
Proof. reflexivity. Qed.

Lemma place_last (part : string) (file : value) (props : list (string * value)) :
  place [ part ] file (VObject props)
  = if String.eqb part "__proto__" then LeftTree
    else Built (setProp (VObject props) part file).
Proof. reflexivity. Qed.

Lemma place_step (part next : string) (rest : list string) (file : value)
      (props : list (string * value)) (tree : value) :
  place (part :: next :: rest) file (VObject props) = Built tree ->
  exists child',
    place (next :: rest) file (stepInto props part) = Built child'
    /\ tree = setProp (VObject props) part child'.
Proof.
  rewrite place_unfold. unfold stepInto. destruct (assoc part props) as [child|].
  - destruct (place (next :: rest) file (if truthy child then child else VObject []))
      as [child'|]; [|discriminate].
    intros H. inversion H. eauto.
  - destruct (inherited part); [discriminate|].
    destruct (place (next :: rest) file (VObject [])) as [child'|]; [|discriminate].
    intros H. inversion H. eauto.
Qed.

Lemma place_object (parts : list string) (file node tree : value) :
  place parts file node = Built tree -> exists props, node = VObject props.
Proof. destruct node, parts; cbn [place]; try discriminate; eauto. Qed.

(** The file a walk places is found under the path walked. *)
Lemma place_found (parts : list string) (file : value) :
  parts <> [] ->
  forall node tree,
    place parts file node = Built tree -> lookupPath tree parts = file.
Proof.
  induction parts as [|part rest IH]; [congruence|]. intros _ node tree H.
  destruct (place_object _ _ _ H) as [props ->].
  destruct rest as [|next rest].
  - rewrite place_last in H. destruct (String.eqb part "__proto__"); [discriminate|].
    injection H as <-. cbn [lookupPath setProp]. apply getProp_setProp_same.
  - apply place_step in H as (child' & Hc & ->).
    cbn [lookupPath setProp]. rewrite getProp_setProp_same.
    eapply IH; [discriminate | exact Hc].
Qed.

(** What is under a path that parts ways with the path walked stays
    what it was. *)
Lemma place_elsewhere (common : list string) :
  forall (x y : string) (xs ys : list string) (file node tree : value),
    x <> y ->
    place (common ++ x :: xs) file node = Built tree ->
    lookupPath tree (common ++ y :: ys) = lookupPath node (common ++ y :: ys).
Proof.
  induction common as [|part common IH]; intros x y xs ys file node tree Hxy H;
    destruct (place_object _ _ _ H) as [props ->].
  - cbn [app] in *. cbn [lookupPath]. destruct xs as [|next xs].
    + rewrite place_last in H. destruct (String.eqb x "__proto__"); [discriminate|].
      injection H as <-. cbn [setProp]. now rewrite getProp_setProp_other.
    + apply place_step in H as (child' & _ & ->).
      cbn [setProp]. now rewrite getProp_setProp_other.
  - cbn [app] in *.
    assert (Hne : exists next rest, (common ++ x :: xs)%list = next :: rest)
      by (destruct common; cbn; eauto).
    destruct Hne as (next & rest & Hne). rewrite Hne in H.
    apply place_step in H as (child' & Hc & ->). rewrite <- Hne in Hc.
    cbn [lookupPath setProp]. rewrite getProp_setProp_same.
    rewrite (IH x y xs ys file _ child' Hxy Hc).
    unfold stepInto. cbn [getProp].
    destruct (assoc part props) as [child|].
    + destruct (truthy child) eqn:Et; [reflexivity|].
      rewrite lookupPath_undefined by (destruct common; discriminate).
      symmetry. apply lookupPath_not_object; [destruct common; discriminate|].
      intros ps ->. discriminate.
    + rewrite lookupPath_undefined by (destruct common; discriminate).
      symmetry. apply lookupPath_not_object; [destruct common; discriminate|].
      discriminate.
Qed.

Lemma place_diverge (a b : list string) (file node tree : value) :
  diverge a b ->
  place a file node = Built tree -> lookupPath tree b = lookupPath node b.
Proof.
  intros (common & x & xs & y & ys & -> & -> & Hxy). now apply place_elsewhere.
Qed.

Lemma partsOf_not_nil (f : ProjectFile) : partsOf f <> [].
Proof. apply splitOn_not_nil. Qed.

Lemma placeAll_app (fs gs : list ProjectFile) (tree : value) :
  placeAll (fs ++ gs)%list tree
  = match placeAll fs tree with
    | Built tree' => placeAll gs tree'
    | LeftTree => LeftTree
    end.
Proof.
  revert tree. induction fs as [|f fs IH]; intros tree; [reflexivity|].
  cbn [app placeAll]. destruct (place _ _ tree); [apply IH | reflexivity].
Qed.

(** Files placed later leave a file where it is when their paths part
    ways with its path. *)
Lemma placeAll_keeps (fs : list ProjectFile) (names : list string) :
  Forall (fun g => diverge (partsOf g) names) fs ->
  forall node tree,
    placeAll fs node = Built tree -> lookupPath tree names = lookupPath node names.
Proof.
  induction 1 as [|g fs Hg _ IH]; intros node tree H; cbn [placeAll] in H.
  - now inversion H.
  - destruct (place (splitOn slash (path g)) (fileValue g) node) as [node'|] eqn:E;
      [|discriminate].
    rewrite (IH _ _ H). eapply place_diverge; eauto.
Qed.

Lemma walkable_object (props : list (string * value)) :
  walkable (VObject props)
  = forallb (fun kc => isField (fst kc) || walkable (snd kc)) props.
Proof.
  cbn [walkable]. induction props as [|[k c] props IH]; [reflexivity|].
  cbn [forallb fst snd]. now rewrite <- IH.
Qed.

Lemma walkable_assign (k : string) (v : value) (props : list (string * value)) :
  walkable v = true -> walkable (VObject props) = true ->
  walkable (VObject (assign k v props)) = true.
Proof.
  rewrite !walkable_object. intros Hv.
  induction props as [|[j w] props IH]; cbn [assign forallb fst snd].
  - intros _. now rewrite Hv, orb_true_r.
  - intros H. apply andb_true_iff in H as [Hj Hrest].
    destruct (String.eqb k j); cbn [forallb fst snd].
    + now rewrite Hv, orb_true_r, Hrest.
    + now rewrite Hj, IH.
Qed.

Lemma walkable_child (k : string) (child : value) (props : list (string * value)) :
  walkable (VObject props) = true -> isField k = false ->
  assoc k props = Some child -> walkable child = true.
Proof.
  rewrite walkable_object. induction props as [|[j w] props IH]; [discriminate|].
  cbn [forallb fst snd assoc]. intros H Hk. apply andb_true_iff in H as [Hj Hrest].
  destruct (String.eqb_spec k j) as [->|Hkj].
  - intros E. inversion E; subst. now rewrite Hk in Hj.
  - now apply IH.
Qed.

Lemma walkable_truthy (v : value) : walkable v = true -> truthy v = true.
Proof. destruct v; try discriminate. reflexivity. Qed.

Lemma walkable_fileValue (f : ProjectFile) : walkable (fileValue f) = true.
Proof. reflexivity. Qed.

(** A walk along plain names through a walkable node stays in the tree
    and leaves a walkable node. *)
Lemma place_walkable (parts : list string) (file : value) :
  forallb plainName parts = true -> walkable file = true ->
  forall node,
    walkable node = true ->
    exists tree, place parts file node = Built tree /\ walkable tree = true.
Proof.
  intros Hparts Hfile. induction parts as [|part rest IH]; intros node Hnode.
  - destruct node; try discriminate. cbn. eauto.
  - cbn [forallb] in Hparts. apply andb_true_iff in Hparts as [Hpart Hrest].
    unfold plainName in Hpart. apply andb_true_iff in Hpart as [Hf Hi].
    apply negb_true_iff in Hf, Hi.
    destruct node as [| | | | | |props]; try discriminate.
    destruct rest as [|next rest].
    + rewrite place_last.
      assert (Hp : String.eqb part "__proto__" = false).
      { destruct (String.eqb_spec part "__proto__") as [->|]; [discriminate|reflexivity]. }
      rewrite Hp. eexists. split; [reflexivity|]. cbn [setProp].
      now apply walkable_assign.
    + rewrite place_unfold. destruct (assoc part props) as [child|] eqn:E.
      * pose proof (walkable_child _ _ Hnode Hf E) as Hchild.
        rewrite (walkable_truthy _ Hchild).
        destruct (IH Hrest child Hchild) as (child' & -> & Hc').
        eexists. split; [reflexivity|]. cbn [setProp]. now apply walkable_assign.
      * rewrite Hi. destruct (IH Hrest (VObject []) eq_refl) as (child' & -> & Hc').
        eexists. split; [reflexivity|]. cbn [setProp]. now apply walkable_assign.
Qed.

Lemma placeAll_walkable (fs : list ProjectFile) :
  forallb (fun f => forallb plainName (partsOf f)) fs = true ->
  forall node,
    walkable node = true ->
    exists tree, placeAll fs node = Built tree /\ walkable tree = true.
Proof.
  induction fs as [|f fs IH]; intros H node Hnode; cbn [placeAll]; [eauto|].
  cbn [forallb] in H. apply andb_true_iff in H as [Hf Hfs].
  destruct (place_walkable _ (fileValue f) Hf (walkable_fileValue f) node Hnode)
    as (tree' & E & Htree').
  unfold partsOf in E. rewrite E. now apply IH.
Qed.

(** X5: when no part of any path is named like a field of a file object
    ([path], [content], [type]) or like a property every object
    inherits, [buildFileTree] returns a tree for the files of a project
    as received, whatever the files, their order and the overlaps of
    their paths are: the walk does not throw, steps onto no text and
    reaches no object of the prototype chain.  Which objects it writes
    into is another matter, taken up with [buildFileTreeIn]. *)
Theorem buildFileTree_builds (fs : list ProjectFile)
        (Hnames : forallb (fun f => forallb plainName (partsOf f)) fs = true) :
  exists tree, buildFileTree fs = Built tree.
Proof.
  destruct (placeAll_walkable fs Hnames (VObject []) eq_refl) as (tree & H & _).
  now exists tree.
Qed.


Lemma lookupPath_of_undefined (names : list string) :
  lookupPath VUndefined names = VUndefined.
Proof. induction names as [|n names IH]; [reflexivity | exact IH]. Qed.

Lemma lookupPath_defined (v : value) (k : string) (rest : list string) :
  lookupPath v (k :: rest) <> VUndefined ->
  exists props, v = VObject props /\ hasProp k v = true.
Proof.
  cbn [lookupPath]. intros H.
  destruct v as [| | | | | |props];
    try (exfalso; apply H; apply lookupPath_of_undefined).
  exists props. split; [reflexivity|]. cbn [hasProp]. cbn [getProp] in H.
  destruct (assoc k props); [reflexivity|].
  exfalso. apply H. apply lookupPath_of_undefined.
Qed.

(** X7: a folder with an entry named [content] passes the [isFile] test:
    when a file is found in the tree and [content] is a part of its
    path, what sits under the parts before that one is taken for a
    file. *)
Theorem content_folder_taken_for_file (before after : list ProjectFile)
        (f : ProjectFile) (tree : value) (folder rest : list string)
        (Hbuilt : buildFileTree (before ++ f :: after) = Built tree)
        (Hafter : Forall (fun g => diverge (partsOf g) (partsOf f)) after)
        (Hparts : partsOf f = (folder ++ "content" :: rest)%list) :
  isFile (lookupPath tree folder) = true.
Proof.
  assert (H : lookupPath tree (partsOf f) = fileValue f).
  { unfold buildFileTree in Hbuilt. rewrite placeAll_app in Hbuilt.
    destruct (placeAll before (VObject [])) as [t0|]; [|discriminate].
    cbn [placeAll] in Hbuilt.
    destruct (place (splitOn slash (path f)) (fileValue f) t0) as [t1|] eqn:E;
      [|discriminate].
    rewrite (placeAll_keeps Hafter _ Hbuilt).
    eapply place_found; [apply partsOf_not_nil | exact E]. }
  rewrite Hparts, lookupPath_app in H.
  destruct (@lookupPath_defined (lookupPath tree folder) "content" rest)
    as (props & E & Hc).
  { rewrite H. discriminate. }
  rewrite E in *. exact Hc.
Qed.

Lemma buildFileTree_builds_witness :
  exists tree, buildFileTree [ oldApp; styleFile; newApp ] = Built tree.
Proof. apply (@buildFileTree_builds [ oldApp; styleFile; newApp ] eq_refl). Defined.


Lemma content_folder_taken_for_file_witness :
  isFile (lookupPath
            (VObject [ ("src", VObject [ ("App.tsx", fileValue newApp);
                                         ("content",
                                          VObject [ ("post.md", fileValue postFile) ]) ]) ])
            [ "src" ]) = true.
Proof.
  apply (@content_folder_taken_for_file [ newApp ] [] postFile _ [ "src" ]
           [ "post.md" ] eq_refl (Forall_nil _) eq_refl).
Defined.

(* ------------------------------------------------------------------ *)
(** ** The listener over runs of messages *)
(* ------------------------------------------------------------------ *)

Lemma parse_string_min_OK (n : nat) (m : option string) (path : Path)
      (g out : value) (iss : list ZodIssue) :
  parse (ZString (Some (n, m))) path g = (iss, OK out) ->
  exists s, g = VString s /\ out = VString s /\ n <= String.length s.
Proof.
  destruct g; simpl; try discriminate.
  destruct (Nat.ltb (String.length s) n) eqn:E; simpl; [discriminate|].
  intros H. inversion H. apply Nat.ltb_ge in E. eauto.
Qed.

Lemma nonEmpty_length (s : string) : 1 <= String.length s -> nonEmpty s = true.
Proof. destruct s; simpl; [lia | reflexivity]. Qed.

Lemma file_output_wf (path : Path) (x out : value) (iss : list ZodIssue) :
  parse file path x = (iss, OK out) ->
  exists f, out = fileValue f /\ wellFormedFile f = true.
Proof.
  destruct x; try (simpl; discriminate).
  unfold file. intros H. split_shape H.
  destruct r as [|?|v1]; [discriminate| |];
    destruct r0 as [|?|v2]; try discriminate;
    destruct r1 as [|?|v3]; try discriminate.
  apply parse_string_min_OK in E as (s1 & _ & -> & L1).
  apply parse_string_OK in E0 as (s2 & _ & ->).
  apply parse_string_min_OK in E1 as (s3 & _ & -> & L3).
  simpl in H. inversion H. exists (mkFile s1 s2 s3). split; [reflexivity|].
  unfold wellFormedFile. cbn. now rewrite !nonEmpty_length.
Qed.

Lemma files_output_wf (path : Path) (xs : list value) :
  forall i vs,
    map snd (parseItems file path i xs) = map OK vs ->
    exists fs, vs = map fileValue fs /\ forallb wellFormedFile fs = true
               /\ List.length fs = List.length xs.
Proof.
  induction xs as [|x xs IH]; intros i vs H.
  - destruct vs; [now exists [] | discriminate].
  - destruct vs as [|v vs]; [discriminate|]. cbn [parseItems map] in H.
    destruct (parse file (path ++ [inr i])%list x) as [iss r] eqn:E.
    cbn [snd] in H. inversion H as [[Hx Hxs]]. subst r.
    apply file_output_wf in E as (f & -> & Hf).
    apply IH in Hxs as (fs & -> & Hfs & Hlen). exists (f :: fs).
    cbn. now rewrite Hf, Hfs, Hlen.
Qed.

Lemma project_output_wf (path : Path) (x out : value) (iss : list ZodIssue) :
  parse project path x = (iss, OK out) ->
  exists props p, out = VObject props /\ hasProp "files" out = true
                  /\ asProject out = Some p /\ wellFormed p = true.
Proof.
  destruct x; try (simpl; discriminate).
  unfold project. intros H. split_shape H.
  destruct r as [|?|v1]; [discriminate| |];
    destruct r0 as [|?|v2]; try discriminate;
    destruct r1 as [|?|v3]; try discriminate.
  destruct (getProp (VObject props) "files") as [| | | | |items|] eqn:G;
    try (simpl in E; discriminate).
  rewrite parse_array in E. injection E as Hi1 Hm.
  apply mergeArray_OK in Hm as [Hst (vs & Hvs & ->)].
  apply files_output_wf in Hvs as (fs & -> & Hfs & Hlen).
  assert (Hne : negb (Nat.eqb (List.length fs) 0) = true).
  { rewrite Hlen. destruct items; [simpl in Hst; discriminate | reflexivity]. }
  apply parse_optional_string_OK in E0 as [-> Hd].
  apply parse_optional_string_OK in E1 as [-> Hi].
  cbn [mergeObjectSync] in H.
  destruct Hd as [Hd|[sd Hd]]; destruct Hi as [Hi|[si Hi]]; rewrite Hd, Hi in H;
    destruct (hasProp "description" (VObject props));
    destruct (hasProp "instructions" (VObject props));
    simpl in H; inversion H; eexists; eexists;
    (split; [reflexivity|]); (split; [reflexivity|]);
    (split; [cbn; rewrite asFiles_fileValue; reflexivity|]);
    unfold wellFormed; cbn [files]; now rewrite Hne, Hfs.
Qed.

Lemma flat_output_wf (path : Path) (x out : value) (iss : list ZodIssue) :
  parse flat path x = (iss, OK out) ->
  exists props p,
    out = flatEnvelope (VObject props) /\ hasProp "files" (VObject props) = true
    /\ asProject (VObject props) = Some p /\ wellFormed p = true.
Proof.
  destruct x; try (simpl; discriminate).
  unfold flat. intros H. split_shape H.
  destruct r as [|?|v1]; [discriminate| |];
    destruct r0 as [|?|v2]; try discriminate.
  apply parse_literal_OK in E as [_ ->].
  apply project_output_wf in E0 as (ps & p & -> & Hf & Hp & Hw).
  simpl in H. inversion H. exists ps, p. auto.
Qed.

Lemma span_output_wf (path : Path) (x out : value) (iss : list ZodIssue) :
  parse span path x = (iss, OK out) ->
  exists props p,
    out = wrappedEnvelope (VObject props) /\ hasProp "files" (VObject props) = true
    /\ asProject (VObject props) = Some p /\ wellFormed p = true.
Proof.
  destruct x; try (simpl; discriminate).
  unfold span. intros H. split_shape H.
  destruct r as [|?|v1]; [discriminate| |];
    destruct r0 as [|?|v2]; try discriminate.
  apply parse_literal_OK in E as [_ ->].
  destruct (getProp (VObject props) "data") as [| | | | | |dprops] eqn:G;
    try (simpl in E0; discriminate).
  split_shape E0. destruct r as [|?|v3]; try discriminate.
  destruct (getProp (VObject dprops) "output") as [| | | | | |oprops] eqn:G1;
    try (simpl in E; discriminate).
  split_shape E. destruct r as [|?|v4]; try discriminate.
  apply project_output_wf in E1 as (ps & p & -> & Hf & Hp & Hw).
  simpl in E. inversion E; subst v3.
  simpl in E0. inversion E0; subst v2.
  simpl in H. inversion H. exists ps, p. auto.
Qed.

(** What the listener stores for an accepted message meets the
    invariants of a [Project]. *)
Lemma handle_accepted_wf (st : State) (clock : Clock) (e : MessageEvent)
      (parsedData : value) :
  safeParse schema (data e) = Success parsedData ->
  exists p, handle st (clock, e) = afterAccept clock p st /\ wellFormed p = true.
Proof.
  intros Hs.
  destruct (handle_cases clock e st)
    as [(d & d' & p & Hs' & Hn & Hp & Hh) | (iss & Hs' & _)]; [|congruence].
  exists p. split; [exact Hh|].
  rewrite Hs in Hs'. inversion Hs'; subst d. clear Hs'.
  revert Hs. unfold safeParse, schema. rewrite parse_union. cbn [parseOptions].
  destruct (parse flat [] (data e)) as [i1 r1] eqn:E1.
  destruct (parse span [] (data e)) as [i2 r2] eqn:E2.
  assert (Hflat : forall v, r1 = OK v -> v = parsedData -> wellFormed p = true).
  { intros v -> ->. apply flat_output_wf in E1 as (ps & q & -> & Hf & Hq & Hw).
    rewrite (normalize_flat _ Hf) in Hn. inversion Hn; subst d'. congruence. }
  assert (Hspan : forall v, r2 = OK v -> v = parsedData -> wellFormed p = true).
  { intros v -> ->. apply span_output_wf in E2 as (ps & q & -> & Hf & Hq & Hw).
    rewrite normalize_wrapped in Hn. inversion Hn; subst d'. congruence. }
  destruct r1 as [|v1|v1].
  - destruct r2 as [|v2|v2]; simpl; try (destruct i1, i2; discriminate).
    intros H; inversion H. eauto.
  - destruct r2 as [|v2|v2]; simpl; try (destruct i1; discriminate).
    intros H; inversion H. eauto.
  - simpl. intros H; inversion H. eauto.
Qed.

Lemma accepted_or_rejected (m : Clock * MessageEvent) :
  (accepted m = true /\ rejection m = None)
  \/ (accepted m = false /\ exists entry, rejection m = Some entry).
Proof.
  unfold accepted, rejection.
  destruct (safeParse schema (data (snd m))) eqn:E;
    [left; auto | right; eauto | now apply safeParse_total in E].
Qed.

Lemma handle_accepted (st : State) (m : Clock * MessageEvent) :
  accepted m = true ->
  exists p, handle st m = afterAccept (fst m) p st /\ wellFormed p = true.
Proof.
  destruct m as [clock e]. unfold accepted. cbn [fst snd].
  destruct (safeParse schema (data e)) as [d| |] eqn:E; try discriminate.
  intros _. eapply handle_accepted_wf; eauto.
Qed.

Lemma handle_rejected (st : State) (m : Clock * MessageEvent) :
  accepted m = false ->
  exists parsedIssues,
    safeParse schema (data (snd m)) = Failure parsedIssues
    /\ handle st m = afterRejection (fst m) (snd m) parsedIssues st.
Proof.
  destruct m as [clock e]. unfold accepted. cbn [fst snd].
  destruct (handle_cases clock e st)
    as [(d & d' & p & Hs & _) | (iss & Hs & _ & Hh)]; rewrite Hs;
    [discriminate | eauto].
Qed.

Lemma handle_projectInvariant (st : State) (m : Clock * MessageEvent) :
  projectInvariant st -> projectInvariant (handle st m).
Proof.
  intros H. destruct (accepted m) eqn:E.
  - destruct (handle_accepted st m E) as (p & -> & Hw). exact Hw.
  - destruct (handle_rejected st m E) as (iss & _ & ->). exact H.
Qed.

Lemma handleAll_projectInvariant (ms : list (Clock * MessageEvent)) :
  forall st, projectInvariant st -> projectInvariant (handleAll st ms).
Proof.
  unfold handleAll. induction ms as [|m ms IH]; intros st H; [exact H|].
  cbn [fold_left]. apply IH. now apply handle_projectInvariant.
Qed.

(** X8: whatever messages arrive, a project the listener holds has at
    least one file, and none of its files has an empty path or an empty
    type tag. *)
Theorem held_project_well_formed (ms : list (Clock * MessageEvent)) (p : Project)
        (Hheld : proj (handleAll initialState ms) = Some p) :
  files p <> []
  /\ forall f, In f (files p) -> path f <> EmptyString /\ type f <> EmptyString.
Proof.
  pose proof (handleAll_projectInvariant ms initialState I) as H.
  unfold projectInvariant in H. rewrite Hheld in H.
  unfold wellFormed in H. apply andb_true_iff in H as [Hne Hall]. split.
  - intros E. rewrite E in Hne. discriminate.
  - intros f Hf. rewrite forallb_forall in Hall. specialize (Hall f Hf).
    unfold wellFormedFile, nonEmpty in Hall.
    apply andb_true_iff in Hall as [Hp Ht].
    apply negb_true_iff in Hp, Ht.
    split; intros E; rewrite E in *; discriminate.
Qed.

Lemma held_project_well_formed_witness :
  files sampleProject <> [].
Proof.
  apply (@held_project_well_formed
           [ rejectedFrom "a";
             (sampleClock, mkEvent (wrappedEnvelope (projectValue sampleProject)) "b") ]
           sampleProject eq_refl).
Defined.

Lemma handleAll_counters (ms : list (Clock * MessageEvent)) :
  forall st,
    let st' := handleAll st ms in
    messagesReceived (status st') = messagesReceived (status st) + List.length ms
    /\ validMessages (status st')
       = validMessages (status st) + List.length (filter accepted ms)
    /\ rejectedMessages (status st')
       = rejectedMessages (status st) + List.length (rejections ms)
    /\ listening (status st') = listening (status st)
    /\ (proj st' = None <-> proj st = None /\ filter accepted ms = []).
Proof.
  unfold handleAll. induction ms as [|m ms IH]; intros st; cbn [fold_left].
  - cbn. split; [lia|]. split; [lia|]. split; [lia|]. split; [reflexivity|]. tauto.
  - specialize (IH (handle st m)). cbv zeta in IH.
    destruct IH as (H1 & H2 & H3 & H4 & H5).
    rewrite rejections_cons, length_app. cbn [filter List.length].
    destruct (accepted_or_rejected m) as [[Ha Hr]|[Ha (entry & Hr)]];
      rewrite Ha, Hr in *.
    + destruct (handle_accepted st m Ha) as (p & Hh & _). rewrite Hh in *.
      cbn [afterAccept status countValid receive messagesReceived validMessages
           rejectedMessages listening proj List.length] in *.
      split; [lia|]. split; [lia|]. split; [lia|]. split; [exact H4|]. split.
      * intros Hn. apply H5 in Hn as [Hn' _]. discriminate.
      * intros [_ Hn]. discriminate.
    + destruct (handle_rejected st m Ha) as (iss & _ & Hh). rewrite Hh in *.
      cbn [afterRejection status countRejected receive messagesReceived
           validMessages rejectedMessages listening proj List.length] in *.
      split; [lia|]. split; [lia|]. split; [lia|]. split; [exact H4 | exact H5].
Qed.

(** X9: after any run of messages from the initial state,
    [messagesReceived] is the number of messages, [validMessages] the
    number of accepted ones, [rejectedMessages] the number of rejected
    ones; the log holds as many entries as there were rejections, up to
    ten; and a project is held exactly when a message was accepted. *)
Theorem counters_count_the_run (ms : list (Clock * MessageEvent)) :
  let st := handleAll initialState ms in
  messagesReceived (status st) = List.length ms
  /\ validMessages (status st) = List.length (filter accepted ms)
  /\ rejectedMessages (status st) = List.length (rejections ms)
  /\ List.length (rej st) = Nat.min 10 (rejectedMessages (status st))
  /\ (proj st = None <-> validMessages (status st) = 0)
  /\ listening (status st) = true.
Proof.
  cbv zeta. destruct (handleAll_counters ms initialState) as (H1 & H2 & H3 & H4 & H5).
  cbn in H1, H2, H3, H4.
  split; [exact H1|]. split; [exact H2|]. split; [exact H3|].
  split; [|split; [split|exact H4]].
  - rewrite handleAll_rej by (cbn; lia). cbn [rej initialState].
    rewrite app_nil_r, length_firstn, H3. reflexivity.
  - intros Hn. apply H5 in Hn as [_ Hn']. rewrite H2, Hn'. reflexivity.
  - intros Hn. apply H5. split; [reflexivity|]. rewrite H2 in Hn.
    now apply length_zero_iff_nil.
Qed.

(* ------------------------------------------------------------------ *)
(** ** The summary of a rejection *)
(* ------------------------------------------------------------------ *)

(** X10: the summary logged for a rejected message is one of two texts:
    "Array too small: minimum 1 items required", when one of the two
    shapes matched but for a [.min(1)] check (an empty [files], an empty
    path, an empty type tag), and "Message format doesn't match expected
    structure" otherwise.  The summaries of a wrong type and of a wrong
    literal are never logged. *)
Theorem rejection_summaries (m : Clock * MessageEvent) (entry : Rejected)
        (Hrejected : rejection m = Some entry) :
  summary entry = summaryTooSmall \/ summary entry = summaryNoMatch.
Proof.
  unfold rejection in Hrejected.
  destruct (safeParse schema (data (snd m))) as [|iss|] eqn:E; try discriminate.
  inversion Hrejected. cbn [rejectedEntry summary].
  now apply summaryOf_on_schema in E.
Qed.

Lemma rejection_summaries_witness :
  summaryOf
    match safeParse schema
            (flatEnvelope (VObject [ ("files",
                                      VArray [ VObject [ ("path", VString EmptyString);
                                                         ("content", VString "x");
                                                         ("type", VString "t") ] ]) ]))
    with
    | Failure parsedIssues => parsedIssues
    | _ => []
    end
  = summaryTooSmall.
Proof.
  destruct (@rejection_summaries
              (sampleClock,
               mkEvent (flatEnvelope
                          (VObject [ ("files",
                                      VArray [ VObject [ ("path", VString EmptyString);
                                                         ("content", VString "x");
                                                         ("type", VString "t") ] ]) ]))
                       "null")
              _ eq_refl) as [H|H]; [exact H | discriminate H].
Defined.

(* ------------------------------------------------------------------ *)
(** ** A message that fits both shapes *)
(* ------------------------------------------------------------------ *)

Lemma project_accepts_with_output (path : Path) (p : Project) (output : value) :
  wellFormed p = true ->
  parse project path (VObject (projectProps p ++ [ ("output", output) ])%list)
  = ([], OK (projectValue p)).
Proof.
  destruct p as [fs d i]. intros H.
  assert (Hfs : wellFormed (mkProject fs None None) = true) by exact H.
  unfold project, projectValue, projectProps. rewrite parse_object. cbn [parseShape].
  cbn [files description instructions].
  match goal with
  | |- context [getProp ?o "files"] =>
      replace (getProp o "files") with (VArray (map fileValue fs)) by reflexivity
  end.
  rewrite (files_array_accepts _ _ _ Hfs).
  destruct d as [sd|], i as [si|]; reflexivity.
Qed.

Lemma flatWithOutput_parsed (p : Project) (output : value) :
  wellFormed p = true ->
  safeParse schema (flatWithOutput p output) = Success (flatEnvelope (projectValue p)).
Proof.
  intros H. unfold safeParse, schema. rewrite parse_union. cbn [parseOptions].
  assert (E : parse flat [] (flatWithOutput p output)
              = ([], OK (flatEnvelope (projectValue p)))).
  { unfold flat, flatWithOutput. rewrite parse_object. cbn [parseShape].
    match goal with
    | |- context [parse project ?q (getProp ?o "data")] =>
        change (getProp o "data")
          with (VObject (projectProps p ++ [ ("output", output) ])%list)
    end.
    rewrite (project_accepts_with_output _ _ output H). reflexivity. }
  rewrite E. reflexivity.
Qed.

(** X11: the flat shape is tried first.  When [data] itself carries a
    project that meets the invariants, that project is the one stored,
    whatever [data.output] holds, a different project under
    [data.output.data] included. *)
Theorem flat_shape_first (p : Project) (output : value) (st : State)
        (clock : Clock) (sender : string) (Hwf : wellFormed p = true) :
  proj (handle st (clock, mkEvent (flatWithOutput p output) sender)) = Some p
  /\ safeParse schema (flatWithOutput p output)
     = Success (flatEnvelope (projectValue p)).
Proof.
  pose proof (flatWithOutput_parsed p output Hwf) as Hs. split; [|exact Hs].
  destruct (handle_cases clock (mkEvent (flatWithOutput p output) sender) st)
    as [(d & d' & q & Hs' & Hn & Hq & ->) | (iss & Hs' & _)];
    cbn [data] in Hs'; rewrite Hs in Hs'; [|discriminate].
  inversion Hs'; subst d.
  assert (Hnf : normalize (flatEnvelope (projectValue p)) = Normal (projectValue p))
    by (apply normalize_flat; reflexivity).
  rewrite Hnf in Hn. inversion Hn; subst d'.
  rewrite asProject_projectValue in Hq. inversion Hq. reflexivity.
Qed.

Lemma flat_shape_first_witness :
  proj (handle initialState
          (sampleClock,
           mkEvent (flatWithOutput sampleProject
                      (VObject [ ("data", projectValue notesProject) ])) "null"))
  = Some sampleProject.
Proof.
  apply (@flat_shape_first sampleProject
           (VObject [ ("data", projectValue notesProject) ]) initialState
           sampleClock "null" eq_refl).
Defined.

(* ------------------------------------------------------------------ *)
(** ** Root-component discovery: what it returns *)
(* ------------------------------------------------------------------ *)

Lemma firstCandidate_callable (w : Window) (names : list string) (b : Binding) :
  firstCandidate w names = Some b -> String.eqb (typeOf b) "function" = true.
Proof.
  induction names as [|n names IH]; [discriminate|]. cbn [firstCandidate].
  unfold isFunction. destruct (lookup n w) as [c|] eqn:E; [|exact IH].
  destruct (String.eqb (typeOf c) "function") eqn:Ec; [|exact IH].
  intros H. inversion H; subst. exact Ec.
Qed.

Lemma firstCandidate_named (w : Window) (names : list string) (b : Binding) :
  firstCandidate w names = Some b ->
  exists name, In name names /\ lookup name w = Some b.
Proof.
  induction names as [|n names IH]; [discriminate|]. cbn [firstCandidate].
  destruct (isFunction w n).
  - intros H. exists n. split; [now left | exact H].
  - intros H. destruct (IH H) as (name & Hin & Hl).
    exists name. split; [now right | exact Hl].
Qed.

Lemma firstCandidate_none (w : Window) (names : list string) :
  firstCandidate w names = None <-> forallb (fun n => negb (isFunction w n)) names = true.
Proof.
  induction names as [|n names IH]; [cbn; tauto|]. cbn [firstCandidate forallb].
  destruct (isFunction w n) eqn:E; cbn [negb andb].
  - unfold isFunction in E. destruct (lookup n w); [|discriminate].
    split; discriminate.
  - exact IH.
Qed.

Lemma filterC_Normal (w : Window) (names kept : list string) :
  filterC (looksLikeComponent w) names = Normal kept ->
  forall name, In name kept ->
    In name names /\ isFunction w name = true
    /\ name <> "Component" /\ name <> "PureComponent"
    /\ exists c rest, name = String c rest /\ hasUpperCase c = false.
Proof.
  revert kept. induction names as [|n names IH]; intros kept H name Hin.
  - inversion H; subst. destruct Hin.
  - cbn [filterC] in H.
    destruct (looksLikeComponent w n) as [keep|] eqn:En; [|discriminate].
    cbn [andThen] in H.
    destruct (filterC (looksLikeComponent w) names) as [ys|] eqn:Ey; [|discriminate].
    cbn [andThen] in H. inversion H; subst kept. clear H.
    assert (Hrest : In name ys ->
                    In name (n :: names) /\ isFunction w name = true
                    /\ name <> "Component" /\ name <> "PureComponent"
                    /\ exists c rest, name = String c rest /\ hasUpperCase c = false).
    { intros Hy. destruct (IH ys eq_refl name Hy) as (H1 & H2). split; [now right | exact H2]. }
    destruct keep; [|now apply Hrest].
    destruct Hin as [<-|Hin]; [|now apply Hrest].
    unfold looksLikeComponent in En.
    destruct (isFunction w n) eqn:Ef; [|discriminate].
    destruct n as [|c rest]; [discriminate|].
    assert (Hk : negb (hasUpperCase c)
                 && negb (String.eqb (String c rest) "Component")
                 && negb (String.eqb (String c rest) "PureComponent") = true)
      by (cbn [startsUpperCase andThen] in En; congruence).
    clear En.
    apply andb_true_iff in Hk as [Hk Hp]. apply andb_true_iff in Hk as [Hu Hc].
    apply negb_true_iff in Hu, Hc, Hp.
    apply String.eqb_neq in Hc, Hp.
    split; [now left|]. split; [reflexivity|].
    split; [exact Hc|]. split; [exact Hp|]. eauto.
Qed.

Lemma lookup_callable (w : Window) (name : string) :
  isFunction w name = true ->
  exists b, lookup name w = Some b /\ String.eqb (typeOf b) "function" = true.
Proof.
  unfold isFunction. destruct (lookup name w) as [b|]; [eauto | discriminate].
Qed.

(** X12: what discovery returns is bound to a callable.  It is bound
    either to a candidate name, or, when no candidate name is bound to a
    callable, to an own property name that starts with a character
    upper-casing leaves alone and is neither [Component] nor
    [PureComponent]. *)
Theorem findRootComponent_returns_component (w : Window) (b : Binding)
        (Hfound : findRootComponent w = Normal (Some b)) :
  typeOf b = "function"
  /\ exists name,
       lookup name w = Some b
       /\ (In name candidates
           \/ (forallb (fun n => negb (isFunction w n)) candidates = true
               /\ In name (map fst w) /\ name <> "PureComponent"
               /\ exists c rest, name = String c rest /\ hasUpperCase c = false)).
Proof.
  unfold findRootComponent in Hfound.
  destruct (firstCandidate w candidates) as [c|] eqn:E.
  - inversion Hfound; subst c. split.
    + apply String.eqb_eq. eapply firstCandidate_callable; eauto.
    + destruct (firstCandidate_named w candidates E) as (name & Hin & Hl).
      exists name. split; [exact Hl | now left].
  - destruct (filterC (looksLikeComponent w) (map fst w)) as [kept|] eqn:Ek;
      [|discriminate].
    cbn [andThen] in Hfound. destruct kept as [|name kept]; [discriminate|].
    injection Hfound as Hl.
    destruct (@filterC_Normal w (map fst w) (name :: kept) Ek name (or_introl eq_refl))
      as (Hin & Hf & _ & Hp & Hu).
    destruct (lookup_callable w name Hf) as (b' & Hb' & Hc).
    rewrite Hb' in Hl. injection Hl as Hl. subst b'. split.
    + now apply String.eqb_eq.
    + exists name. split; [exact Hb'|]. right.
      split; [now apply firstCandidate_none|]. auto.
Qed.

Lemma findRootComponent_returns_component_witness :
  typeOf (mkBinding "function" 4) = "function".
Proof.
  apply (@findRootComponent_returns_component sampleWindow (mkBinding "function" 4)
           eq_refl).
Defined.

(* ------------------------------------------------------------------ *)
(** ** The document of a project *)
(* ------------------------------------------------------------------ *)


Lemma smartSelection_some (fs : list ProjectFile) :
  fs <> [] -> exists f, smartSelection fs = Some f /\ In f fs.
Proof.
  intros H. unfold smartSelection. destruct (firstFound priorities fs) as [f|] eqn:E.
  - exists f. split; [reflexivity|]. now apply firstFound_found in E.
  - destruct fs as [|f fs]; [congruence|]. exists f. split; [reflexivity | now left].
Qed.

Lemma buildPreview_document (st : State) (p : Project) :
  proj st = Some p -> buildPreview st = (Normal (documentOf p), st).
Proof.
  intros H. unfold buildPreview, documentOf. rewrite H.
  destruct (previewBody_completes p) as (doc & ->). reflexivity.
Qed.

(* ------------------------------------------------------------------ *)
(** ** The store *)
(* ------------------------------------------------------------------ *)









(* ------------------------------------------------------------------ *)
(** ** The explorer and the objects of the project *)
(* ------------------------------------------------------------------ *)



Lemma treeInvariant_placed (before : Store) (position : Loc -> list string)
      (placed : list ProjectFile) (g : ProjectFile) (st : Store) :
  treeInvariant before position placed st ->
  treeInvariant before position (g :: placed) st.
Proof.
  intros (H1 & H2 & H3 & H4). split; [exact H1|]. split; [exact H2|].
  split; [exact H3|]. intros a k v Ha Hs.
  destruct (H4 a k v Ha Hs) as (c & -> & [Hc|(Hc & f & Hf & Hp)]).
  - exists c. split; [reflexivity | now left].
  - exists c. split; [reflexivity|]. right. split; [exact Hc|].
    exists f. split; [now right | exact Hp].
Qed.









(* ------------------------------------------------------------------ *)
(** ** The page: what renders and effects keep *)
(* ------------------------------------------------------------------ *)

Lemma renderExplorer_keeps (pg pg' : Page) :
  renderExplorer pg = Some pg' ->
  core pg' = core pg /\ held pg' = held pg /\ selected pg' = selected pg
  /\ tab pg' = tab pg /\ html pg' = html pg.
Proof.
  unfold renderExplorer. destruct (buildFileTreeIn (held pg) (store pg)) as [[st root]|];
    [|discriminate].
  intros H. injection H as <-. repeat split.
Qed.

Lemma render_keeps (pg pg' : Page) :
  render pg = Some pg' ->
  core pg' = core pg /\ held pg' = held pg /\ selected pg' = selected pg
  /\ tab pg' = tab pg /\ html pg' = html pg
  /\ (tab pg <> TabFiles -> store pg' = store pg).
Proof.
  unfold render. destruct (proj (core pg)) as [p|].
  - destruct (tab pg) eqn:Et;
      try (intros H; injection H as <-; repeat split; auto; fail).
    destruct (renderExplorer pg) as [pg1|] eqn:E; [|discriminate].
    destruct (shows (store pg1) (selected pg1)); [|discriminate].
    intros H. injection H as <-.
    destruct (renderExplorer_keeps _ E) as (H1 & H2 & H3 & H4 & H5).
    rewrite Et in H4. repeat split; auto; congruence.
  - destruct (tab pg) eqn:Et; intros H; injection H as <-; repeat split; auto.
Qed.

Lemma withProj_same (st : State) : withProj (proj st) st = st.
Proof. now destruct st. Qed.

Lemma withProj_twice (p q : option Project) (st : State) :
  withProj p (withProj q st) = withProj p st.
Proof. reflexivity. Qed.

Lemma previewEffect_keeps (pg pg' : Page) :
  previewEffect pg = Some pg' ->
  core pg' = core pg /\ store pg' = store pg /\ held pg' = held pg
  /\ selected pg' = selected pg /\ tab pg' = tab pg
  /\ (forall p, proj (core pg) = Some p -> tab pg = TabPreview ->
        exists fs, readFiles (store pg) (held pg) = Some fs
                   /\ html pg' = documentOf (mkProject fs (description p)
                                                       (instructions p))).
Proof.
  unfold previewEffect. destruct (proj (core pg)) as [p|] eqn:Ep.
  - destruct (tab pg) eqn:Et;
      try (intros H; injection H as <-; repeat split; auto; intros q _; discriminate).
    unfold liveProject. rewrite Ep.
    destruct (readFiles (store pg) (held pg)) as [fs|] eqn:Er; [|discriminate].
    rewrite (@buildPreview_document
               (withProj (Some (mkProject fs (description p) (instructions p))) (core pg))
               (mkProject fs (description p) (instructions p)) eq_refl).
    intros H. injection H as <-. cbn [core store held selected tab html].
    rewrite withProj_twice, <- Ep, withProj_same. repeat split; auto.
    intros q Hq _. rewrite Ep in Hq. injection Hq as <-. exists fs. auto.
  - intros H. injection H as <-. repeat split; auto. intros q Hq. discriminate.
Qed.

Lemma readFiles_length (st : Store) (ls : list Loc) :
  forall fs, readFiles st ls = Some fs -> List.length fs = List.length ls.
Proof.
  induction ls as [|l ls IH]; intros fs H; cbn [readFiles] in H.
  - injection H as <-. reflexivity.
  - destruct (readFile st l); [|discriminate].
    destruct (readFiles st ls) as [fs'|]; [|discriminate].
    injection H as <-. cbn. now rewrite (IH fs').
Qed.

Lemma findAt_bound {A : Type} (test : A -> bool) (xs : list A) :
  forall i, findAt test xs = Some i -> i < List.length xs.
Proof.
  induction xs as [|x xs IH]; intros i H; cbn [findAt] in H; [discriminate|].
  destruct (test x).
  - injection H as <-. cbn. lia.
  - destruct (findAt test xs) as [j|]; [|discriminate].
    injection H as <-. cbn. specialize (IH j eq_refl). lia.
Qed.

Lemma firstFoundAt_bound (ps : list (ProjectFile -> bool)) (fs : list ProjectFile) :
  forall i, firstFoundAt ps fs = Some i -> i < List.length fs.
Proof.
  induction ps as [|p ps IH]; intros i H; cbn [firstFoundAt] in H; [discriminate|].
  destruct (findAt p fs) as [j|] eqn:E; [|now apply IH].
  injection H as <-. now apply findAt_bound in E.
Qed.

Lemma smartSelectionAt_bound (fs : list ProjectFile) :
  fs <> [] -> exists i, smartSelectionAt fs = Some i /\ i < List.length fs.
Proof.
  intros H. unfold smartSelectionAt.
  destruct (firstFoundAt priorities fs) as [i|] eqn:E.
  - exists i. split; [reflexivity | now apply firstFoundAt_bound in E].
  - destruct fs; [congruence|]. exists 0. split; [reflexivity | cbn; lia].
Qed.

(** The position found is that of the file the smart selection gives. *)
Lemma findAt_find {A : Type} (test : A -> bool) (xs : list A) :
  match findAt test xs with
  | Some i => nth_error xs i = find test xs
  | None => find test xs = None
  end.
Proof.
  induction xs as [|x xs IH]; [reflexivity|]. cbn [findAt find].
  destruct (test x); [reflexivity|].
  destruct (findAt test xs); exact IH.
Qed.

Lemma firstFoundAt_firstFound (ps : list (ProjectFile -> bool)) (fs : list ProjectFile) :
  match firstFoundAt ps fs with
  | Some i => nth_error fs i = firstFound ps fs /\ firstFound ps fs <> None
  | None => firstFound ps fs = None
  end.
Proof.
  induction ps as [|p ps IH]; [reflexivity|]. cbn [firstFoundAt firstFound].
  pose proof (findAt_find p fs) as H.
  destruct (findAt p fs) as [i|] eqn:E.
  - destruct (find p fs) as [f|] eqn:Ef; [split; [exact H | discriminate]|].
    apply findAt_bound in E. apply nth_error_None in H. lia.
  - rewrite H. exact IH.
Qed.

Lemma smartSelectionAt_smartSelection (fs : list ProjectFile) (i : nat) :
  smartSelectionAt fs = Some i -> nth_error fs i = smartSelection fs.
Proof.
  unfold smartSelectionAt, smartSelection.
  pose proof (firstFoundAt_firstFound priorities fs) as H.
  destruct (firstFoundAt priorities fs) as [j|].
  - destruct H as [H Hn]. intros E. injection E as <-.
    destruct (firstFound priorities fs); [exact H | congruence].
  - rewrite H. destruct fs; [discriminate|]. intros E. injection E as <-. reflexivity.
Qed.

Lemma selectionEffect_keeps (pg pg' : Page) :
  selectionEffect pg = Some pg' ->
  core pg' = core pg /\ store pg' = store pg /\ held pg' = held pg
  /\ tab pg' = tab pg /\ html pg' = html pg
  /\ (forall l, selected pg = Some l -> selected pg' = Some l)
  /\ (forall p, proj (core pg) = Some p -> held pg <> [] ->
        exists l, selected pg' = Some l /\ (selected pg = None -> In l (held pg))).
Proof.
  unfold selectionEffect. destruct (proj (core pg)) as [p|] eqn:Ep.
  - destruct (selected pg) as [l|] eqn:Es.
    + intros H. injection H as <-.
      do 5 (split; [reflexivity|]). split; [intros l0 Hl0; congruence|].
      intros q _ _. exists l. split; [exact Es | congruence].
    + destruct (readFiles (store pg) (held pg)) as [fs|] eqn:Er; [|discriminate].
      intros H. injection H as <-. cbn [core store held selected tab html].
      do 5 (split; [reflexivity|]). split; [intros l Hl; congruence|].
      intros q _ Hheld. pose proof (readFiles_length _ _ Er) as Hlen.
      destruct (@smartSelectionAt_bound fs) as (i & -> & Hi).
      { intros ->. destruct (held pg); [congruence | discriminate]. }
      destruct (nth_error (held pg) i) as [l|] eqn:En.
      * exists l. split; [reflexivity|]. intros _. eapply nth_error_In; eauto.
      * apply nth_error_None in En. lia.
  - intros H. injection H as <-.
    do 5 (split; [reflexivity|]). split; [auto|]. intros q Hq. discriminate.
Qed.


Lemma carried_wellFormed (m : Clock * MessageEvent) (p : Project) :
  carried m = Some p -> accepted m = true /\ wellFormed p = true.
Proof.
  unfold carried. destruct (accepted m) eqn:Ha; [|discriminate].
  destruct (handle_accepted initialState m Ha) as (q & -> & Hw).
  cbn [afterAccept proj]. intros H. injection H as <-. auto.
Qed.



Lemma deliver_keeps (pg : Page) (m : Clock * MessageEvent) :
  core (deliver pg m) = handle (core pg) m
  /\ selected (deliver pg m) = selected pg /\ tab (deliver pg m) = tab pg
  /\ html (deliver pg m) = html pg.
Proof.
  unfold deliver. destruct (accepted m); [|repeat split].
  destruct (proj (handle (core pg) m)); repeat split.
Qed.

(** Taking apart what a render or an effect keeps. *)
Ltac keeps H :=
  match type of H with
  | render _ = Some _ =>
      let K := fresh "K" in
      pose proof (render_keeps _ H) as K;
      destruct K as (?Kcore & ?Kheld & ?Ksel & ?Ktab & ?Khtml & ?Kstore)
  | renderExplorer _ = Some _ =>
      let K := fresh "K" in
      pose proof (renderExplorer_keeps _ H) as K;
      destruct K as (?Kcore & ?Kheld & ?Ksel & ?Ktab & ?Khtml)
  | previewEffect _ = Some _ =>
      let K := fresh "K" in
      pose proof (previewEffect_keeps _ H) as K;
      destruct K as (?Kcore & ?Kstore & ?Kheld & ?Ksel & ?Ktab & ?Kdoc)
  | selectionEffect _ = Some _ =>
      let K := fresh "K" in
      pose proof (selectionEffect_keeps _ H) as K;
      destruct K as (?Kcore & ?Kstore & ?Kheld & ?Ktab & ?Khtml & ?Ksticky & ?Kchosen)
  end.

Lemma andThenO_Some {A B : Type} (o : option A) (k : A -> option B) (b : B) :
  andThenO o k = Some b -> exists a, o = Some a /\ k a = Some b.
Proof. destruct o as [a|]; [eauto | discriminate]. Qed.

Lemma onEvent_sticky (pg pg' : Page) (ev : PageEvent) (l : Loc) :
  choosesFile ev = false -> onEvent pg ev = Some pg' ->
  selected pg = Some l -> selected pg' = Some l.
Proof.
  intros Hev Hrun Hsel. destruct ev as [m|t|l'| | |]; [| |discriminate| | |];
    cbn [onEvent] in Hrun.
  - destruct (deliver_keeps pg m) as (_ & Hd & _).
    destruct (accepted m).
    + apply andThenO_Some in Hrun as (rendered & Hr & Hrun).
      apply andThenO_Some in Hrun as (previewed & Hp & Hrun).
      apply andThenO_Some in Hrun as (chosen & Hc & Hrun).
      keeps Hr. keeps Hp. keeps Hc.
      assert (Hs : selected previewed = Some l) by congruence.
      rewrite Hs in Hrun. injection Hrun as <-. auto.
    + keeps Hrun. congruence.
  - destruct (sameTab t (tab pg)); [congruence|].
    apply andThenO_Some in Hrun as (rendered & Hr & Hp).
    keeps Hr. keeps Hp. cbn [selected] in *. congruence.
  - destruct (proj (core pg)); [|congruence].
    destruct (tab pg); try congruence. keeps Hrun. congruence.
  - destruct (pendingTimers (core pg)); [congruence|].
    destruct (banner (core pg)).
    + keeps Hrun. cbn [selected] in *. congruence.
    + injection Hrun as <-. exact Hsel.
  - keeps Hrun. congruence.
Qed.

(** X14: the selection is made once.  With an object selected, no
    message, no click on a tab or a folder, no timer and no render selects
    another: when a later message replaces the project, what is selected
    is still the object taken from the earlier project. *)
Theorem selection_outlives_project (pg pg' : Page) (evs : list PageEvent) (l : Loc)
        (Hselected : selected pg = Some l)
        (Hevents : forallb (fun ev => negb (choosesFile ev)) evs = true)
        (Hrun : onEvents pg evs = Some pg') :
  selected pg' = Some l.
Proof.
  revert pg Hselected Hrun. induction evs as [|ev evs IH]; intros pg Hsel Hrun.
  - injection Hrun as <-. exact Hsel.
  - cbn [forallb] in Hevents. apply andb_true_iff in Hevents as [Hev Hevs].
    apply negb_true_iff in Hev. cbn [onEvents] in Hrun.
    apply andThenO_Some in Hrun as (pg1 & H1 & Hrun).
    apply (IH Hevs pg1); [|exact Hrun]. eapply onEvent_sticky; eauto.
Qed.















(* ------------------------------------------------------------------ *)
(** ** The page: runs it gets through *)
(* ------------------------------------------------------------------ *)











(* ------------------------------------------------------------------ *)
(** ** The page on examples *)
(* ------------------------------------------------------------------ *)

(** A path that runs through another file's path is written into that
    file's object: here the empty [content] of [lib.ts] is replaced by a
    folder. *)
Example explorer_writes_into_file :
  buildFileTreeIn [ 0; 1 ] [ fileObject libFile; fileObject innerFile ]
  = Some ([ [ ("path", Text "lib.ts"); ("content", Ref 3); ("type", Text "lib") ];
            fileObject innerFile; [ ("lib.ts", Ref 0) ]; [ ("x.ts", Ref 1) ] ], 2).
Proof. reflexivity. Qed.

(** With [lib.ts] selected, the files tab then throws in [CodePreview];
    with another file selected, the preview is not followed once the
    content of [lib.ts] is text no longer. *)
Example files_tab_stops :
  onEvents initialPage
    [ projectMessage (mkProject [ libFile; innerFile ] None None); ClickTab TabFiles ]
  = None
  /\ onEvents initialPage
       [ projectMessage (mkProject [ appFile; libFile; innerFile ] None None);
         ClickTab TabFiles; ClickTab TabPreview ]
     = None.
Proof. split; vm_compute; reflexivity. Qed.

(** A folder with an entry named [content] is shown as a file row; a
    click on it selects the folder, and [CodePreview] throws on its
    missing path. *)
Example folder_click_stops :
  option_map (fun pg => (store pg, selected pg))
    (onEvents initialPage
       [ projectMessage (mkProject [ newApp; postFile ] None None); ClickTab TabFiles ])
  = Some ([ fileObject newApp; fileObject postFile; [ ("src", Ref 3) ];
            [ ("App.tsx", Ref 0); ("content", Ref 4) ]; [ ("post.md", Ref 1) ] ],
          Some 0)
  /\ onEvents initialPage
       [ projectMessage (mkProject [ newApp; postFile ] None None); ClickTab TabFiles;
         SelectFile 3 ]
     = None.
Proof. split; vm_compute; reflexivity. Qed.

Lemma sampleEvents_run : onEvents initialPage sampleEvents = Some samplePage.
Proof. vm_compute. reflexivity. Qed.


Lemma selection_outlives_project_witness :
  selected newPage = Some 0
  /\ readFile (store newPage) 0 = Some oldApp
  /\ held newPage = [ 1 ].
Proof.
  split; [|split; reflexivity].
  apply (@selection_outlives_project oldPage newPage
           [ projectMessage newProject; ClickTab TabFiles ] 0).
  - reflexivity.
  - reflexivity.
  - vm_compute. reflexivity.
Defined.



(* ------------------------------------------------------------------ *)
(** ** What the preview document carries *)
(* ------------------------------------------------------------------ *)

Lemma includes_self (n : string) : includes n n = true.
Proof.
  assert (E : n ++ EmptyString = n) by (induction n as [|c n IH]; cbn; congruence).
  rewrite <- E at 2. apply includes_here.
Qed.

Lemma includes_join (sep x : string) (xs : list string) :
  In x xs -> includes x (join sep xs) = true.
Proof.
  induction xs as [|y xs IH]; [intros []|]. intros Hin.
  destruct xs as [|z xs].
  - destruct Hin as [->|[]]. apply includes_self.
  - change (join sep (y :: z :: xs)) with (y ++ sep ++ join sep (z :: xs)).
    destruct Hin as [->|Hin]; [apply includes_here|].
    apply includes_skip, includes_skip. now apply IH.
Qed.

Lemma previewDocument_includes_css (n css setup userJs : string) :
  includes n css = true -> includes n (previewDocument css setup userJs) = true.
Proof.
  intros H. unfold previewDocument.
  repeat first [ apply includes_left; exact H | apply includes_skip ].
Qed.

Lemma previewDocument_includes_userJs (n css setup userJs : string) :
  includes n userJs = true -> includes n (previewDocument css setup userJs) = true.
Proof.
  intros H. unfold previewDocument.
  repeat first [ apply includes_left; exact H | apply includes_skip ].
Qed.

(** X15: a held project with a script file gets the full preview
    document, and the state is left as it was.  The document carries,
    for each file whose path ends in [.ts], [.tsx], [.js] or [.jsx], a
    [// File:] line with its path followed by its stripped code, and the
    content of each style file. *)
Theorem preview_carries_files (st : State) (p : Project) (f : ProjectFile)
        (Hheld : proj st = Some p) (Hin : In f (files p))
        (Hscript : isScriptFile f = true) :
  exists doc,
    buildPreview st = (Normal doc, st)
    /\ (forall g, In g (files p) -> isScriptFile g = true ->
          includes ("// File: " ++ path g ++ nl ++ stripTS (content g)) doc = true)
    /\ (forall g, In g (files p) -> isStyleFile g = true ->
          includes (content g) doc = true).
Proof.
  exists (documentOf p). split; [now apply buildPreview_document|].
  unfold documentOf, previewBody.
  assert (Hf : In f (filter isScriptFile (files p))) by (apply filter_In; auto).
  destruct (filter isScriptFile (files p)) as [|j js] eqn:Ejs; [destruct Hf|].
  cbn [List.length Nat.eqb]. rewrite <- Ejs. clear Hf. rewrite mapC_processFile.
  cbn [andThen]. split.
  - intros g Hg Hs. apply previewDocument_includes_userJs, includes_join.
    apply (in_map (fun f0 => "// File: " ++ path f0 ++ nl ++ stripTS (content f0))).
    apply filter_In. auto.
  - intros g Hg Hs. apply previewDocument_includes_css, includes_join.
    apply in_map, filter_In. auto.
Qed.

Lemma preview_carries_files_witness :
  exists doc,
    buildPreview (afterAccept sampleClock sampleProject initialState)
    = (Normal doc, afterAccept sampleClock sampleProject initialState)
    /\ (forall g, In g (files sampleProject) -> isScriptFile g = true ->
          includes ("// File: " ++ path g ++ nl ++ stripTS (content g)) doc = true)
    /\ (forall g, In g (files sampleProject) -> isStyleFile g = true ->
          includes (content g) doc = true).
Proof.
  apply (@preview_carries_files (afterAccept sampleClock sampleProject initialState)
           sampleProject appFile eq_refl).
  - vm_compute. auto.
  - vm_compute. reflexivity.
Defined.

(* ------------------------------------------------------------------ *)
(** ** Stripping code no pattern matches *)
(* ------------------------------------------------------------------ *)

Lemma rewrites_no_match (rws : list Rewrite) (t : text) :
  forallb (fun rw => negb (matchesSomewhere (pattern rw) t)) rws = true ->
  fold_left (fun t0 rw => applyRewrite rw t0) rws t = t.
Proof.
  induction rws as [|rw rws IH]; [reflexivity|]. cbn [forallb fold_left].
  intros H. apply andb_true_iff in H as [Hrw Hrws]. apply negb_true_iff in Hrw.
  rewrite (rewrite_no_match _ _ Hrw). now apply IH.
Qed.

(** X16: code in which none of the twelve patterns matches anywhere
    comes back from [stripTS] unchanged, character for character. *)
Theorem stripTS_keeps_plain_code (code : string)
        (Hplain : forallb (fun rw => negb (matchesSomewhere (pattern rw) (chars code)))
                          rewrites = true) :
  stripTS code = code.
Proof.
  unfold stripTS. rewrite (rewrites_no_match _ _ Hplain).
  apply string_of_list_ascii_of_string.
Qed.

Lemma stripTS_keeps_plain_code_witness :
  stripTS "function App() { return React.createElement('div', null, 'hi'); }"
  = "function App() { return React.createElement('div', null, 'hi'); }".
Proof.
  apply (@stripTS_keeps_plain_code
           "function App() { return React.createElement('div', null, 'hi'); }").
  vm_compute. reflexivity.
Defined.

(* ------------------------------------------------------------------ *)
(** ** The rejection banner and its timers *)
(* ------------------------------------------------------------------ *)

Lemma handleAll_banner (ms : list (Clock * MessageEvent)) :
  forall st,
    pendingTimers (handleAll st ms)
    = pendingTimers st + List.length (rejections ms)
    /\ banner (handleAll st ms)
       = (if Nat.eqb (List.length (rejections ms)) 0 then banner st else true).
Proof.
  unfold handleAll. induction ms as [|m ms IH]; intros st; cbn [fold_left].
  - cbn. split; [lia | reflexivity].
  - destruct (IH (handle st m)) as [Ht Hb]. rewrite Ht, Hb.
    rewrite rejections_cons, length_app.
    destruct (accepted_or_rejected m) as [[Ha Hr]|[Ha (entry & Hr)]]; rewrite Hr.
    + destruct (handle_accepted st m Ha) as (p & Hh & _). rewrite Hh.
      cbn [afterAccept pendingTimers banner List.length].
      rewrite !Nat.add_0_r. split; reflexivity.
    + destruct (handle_rejected st m Ha) as (iss & _ & Hh). rewrite Hh.
      cbn [afterRejection pendingTimers banner List.length].
      split; [lia|].
      replace (Nat.eqb (List.length (rejections ms) + 1) 0) with false
        by (symmetry; apply Nat.eqb_neq; lia).
      now destruct (Nat.eqb (List.length (rejections ms)) 0).
Qed.

(** X17: each rejected message shows the banner and starts one more
    timer; an accepted message changes neither.  No timer is ever
    cancelled: when one fires, the banner is hidden, however many timers
    of later rejections are still pending. *)
Theorem banner_and_timers (st : State) (ms : list (Clock * MessageEvent)) :
  pendingTimers (handleAll st ms) = pendingTimers st + List.length (rejections ms)
  /\ banner (handleAll st ms)
     = (if Nat.eqb (List.length (rejections ms)) 0 then banner st else true)
  /\ banner (bannerTimerFires (handleAll st ms)) = false
  /\ pendingTimers (bannerTimerFires (handleAll st ms))
     = pred (pendingTimers st + List.length (rejections ms)).
Proof.
  destruct (handleAll_banner ms st) as [Ht Hb].
  split; [exact Ht|]. split; [exact Hb|]. split; [reflexivity|].
  cbn [bannerTimerFires pendingTimers]. now rewrite Ht.
Qed.

(* ------------------------------------------------------------------ *)
(** ** Root-component discovery: when it throws *)
(* ------------------------------------------------------------------ *)

Lemma looksLikeComponent_Throw (w : Window) (name : string) :
  (exists err, looksLikeComponent w name = Throw err)
  <-> isFunction w name = true /\ name = EmptyString.
Proof.
  unfold looksLikeComponent. destruct (isFunction w name).
  - destruct name as [|c rest]; cbn [startsUpperCase andThen].
    + split; [auto | eauto].
    + split; [intros [err H]; discriminate | intros [_ H]; discriminate].
  - split; [intros [err H]; discriminate | intros [H _]; discriminate].
Qed.

Lemma filterC_Throw {A : Type} (f : A -> completion bool) (xs : list A) :
  (exists err, filterC f xs = Throw err)
  <-> exists x, In x xs /\ exists err, f x = Throw err.
Proof.
  induction xs as [|x xs IH]; cbn [filterC].
  - split; [intros [err H]; discriminate | intros (x & [] & _)].
  - destruct (f x) as [keep|err] eqn:E; cbn [andThen].
    + destruct (filterC f xs) as [ys|err'] eqn:Ey; cbn [andThen].
      * split; [intros [err H]; discriminate|].
        intros (y & [<-|Hy] & err & Hf); [congruence|].
        destruct (proj2 IH) as [err' H']; [eauto | discriminate].
      * split; [|eauto]. intros _.
        destruct (proj1 IH) as (y & Hy & Hf); [eauto|].
        exists y. split; [now right | exact Hf].
    + split; [|eauto]. intros _. exists x. split; [now left | eauto].
Qed.

Lemma lookup_own (w : Window) (name : string) (b : Binding) :
  lookup name w = Some b -> In name (map fst w).
Proof.
  induction w as [|[n c] w IH]; [discriminate|]. cbn [lookup map fst].
  destruct (String.eqb_spec name n) as [->|_]; [now left | right; auto].
Qed.

(** X18: discovery throws in exactly one situation: no candidate name
    is bound to a callable, and the empty name is.  In every other
    window it returns a component or [null]. *)
Theorem findRootComponent_throws_only_on_empty_name (w : Window) :
  (exists err, findRootComponent w = Throw err)
  <-> forallb (fun n => negb (isFunction w n)) candidates = true
      /\ isFunction w EmptyString = true.
Proof.
  rewrite <- firstCandidate_none. unfold findRootComponent.
  destruct (firstCandidate w candidates) as [b|].
  - split; [intros [err H]; discriminate | intros [H _]; discriminate].
  - destruct (filterC (looksLikeComponent w) (map fst w)) as [kept|err] eqn:E;
      cbn [andThen].
    + split.
      * intros [err H]. destruct kept; discriminate.
      * intros [_ Hf].
        destruct (proj2 (filterC_Throw (looksLikeComponent w) (map fst w)))
          as [err H]; [|congruence].
        destruct (lookup_callable w EmptyString Hf) as (b & Hb & _).
        exists EmptyString. split; [exact (lookup_own _ _ Hb)|].
        apply looksLikeComponent_Throw. auto.
    + split; [|eauto]. intros _. split; [reflexivity|].
      destruct (proj1 (filterC_Throw (looksLikeComponent w) (map fst w)))
        as (name & _ & Hthrow); [eauto|].
      apply looksLikeComponent_Throw in Hthrow as [Hf ->]. exact Hf.
Qed.
